(** * A manufacturing-line simulation (main.py) and its properties

    The program is a SimPy script: generator functions are the processes,
    [simpy.Environment] is the event scheduler and [simpy.Resource] the
    machine pools.  The embedding is shallow:

    - every generator function becomes a program counter type (one
      constructor per [yield], carrying the live local variables) and a
      body function that runs from one [yield] to the next;
    - the interpreter state that the generators share (the environment's
      clock and heap, the resources, the module globals, the state of the
      [random] module and the standard output) is one record, [World],
      threaded through a state-and-exception monad;
    - the two library classes the script relies on, [simpy.Environment]
      and [simpy.Resource], are transcribed method by method
      ([schedule], [step], [run], [request], [release], [_trigger_put]);
    - the Mersenne Twister and floating point are not modelled: a draw
      reads the next entry of an arbitrary sequence of rationals, the
      clock is a rational, and sums and quotients are exact where the
      script computes them in binary floating point (the delays drawn
      with [randint] and the eight hours of a shift are integers, the
      interarrival times are not);
    - a printed line is kept as the values its f-string formats;
      [render] gives its text, with the times rounded to two decimals
      as [:.2f] does. *)

From Stdlib Require Import ZArith QArith Qround Qabs Lia Lqa Sorted.
From stdpp Require Import base list strings gmap pretty.

(** ** Values *)

Abbreviation pid := nat.

(** A [{"min": a, "max": b}] dictionary. *)
Record range := Range { rmin : Z; rmax : Z }.

(** A Python dict whose iteration order matters: insertion order. *)
Definition dict (V : Type) := list (string * V).

Fixpoint dict_get {V} (d : dict V) (k : string) : option V :=
  match d with
  | [] => None
  | (k', v) :: d' => if String.eqb k k' then Some v else dict_get d' k
  end.

Definition dict_keys {V} (d : dict V) : list string := map fst d.

(** The exceptions the script can meet. *)
Inductive value_error :=
| CapacityNotPositive     (* simpy.Resource: "capacity" must be > 0 *)
| EmptyRange              (* random.randint: empty range for randrange() *)
| NegativeDelay           (* simpy.Timeout: negative delay *)
| UntilNotAfterNow.       (* Environment.run: until must be > now *)

Inductive exn :=
| ValueError (why : value_error)
| KeyError (key : string)
| ZeroDivisionError
| OverflowError           (* int too large to convert to float *)
| RuntimeError.

(** ** Module-level tables (lines 5-53) *)

Record Globals := {
  RAW_MATERIAL_ARRIVAL_TIME : dict Z;
  PRODUCT_TYPES : list string;
  PROCESSING_TIMES : dict (dict range);
  MACHINE_BREAKDOWN_TIME : dict range;
  MACHINE_REPAIR_TIME : dict range;
}.

Definition RANDOM_SEED : Z := 42.
Definition SIM_TIME : Z := 40 * 8 * 60.

Definition NUM_OPERATORS : dict Z :=
  [("Day", 20); ("Evening", 15); ("Night", 10)]%Z.

Definition NUM_MACHINES : dict Z :=
  [("Machining", 5); ("Assembly", 8); ("QualityControl", 3);
   ("Packaging", 2)]%Z.

Definition main_globals : Globals := {|
  RAW_MATERIAL_ARRIVAL_TIME := [("ProductA", 15); ("ProductB", 20)]%Z;
  PRODUCT_TYPES := ["ProductA"; "ProductB"];
  PROCESSING_TIMES :=
    [("ProductA",
      [("Machining", Range 10 20); ("Assembly", Range 20 30);
       ("QualityControl", Range 3 7); ("Packaging", Range 1 3)]);
     ("ProductB",
      [("Machining", Range 15 25); ("Assembly", Range 25 35);
       ("QualityControl", Range 5 9); ("Packaging", Range 2 4)])];
  MACHINE_BREAKDOWN_TIME :=
    [("Machining", Range (4 * 60) (8 * 60));
     ("Assembly", Range (6 * 60) (10 * 60));
     ("QualityControl", Range (2 * 60) (4 * 60));
     ("Packaging", Range (1 * 60) (2 * 60))];
  MACHINE_REPAIR_TIME :=
    [("Machining", Range (1 * 60) (3 * 60));
     ("Assembly", Range (2 * 60) (4 * 60));
     ("QualityControl", Range 30 60);
     ("Packaging", Range 15 30)];
|}.

(** ** simpy objects *)

(** A [Request] event: its resource (the key of the machine it belongs
    to) and the process that was active when it was created. *)
Record Req := { req_id : nat; req_proc : pid; resource : string }.

Global Instance Req_eq_dec : EqDecision Req.
Proof. solve_decision. Defined.

(** [simpy.Resource].  The get queue is left out: a [Release] is always
    served inside its own constructor, so the queue is empty whenever it
    is looked at. *)
Record Resource := {
  capacity : Z;
  users : list Req;
  put_queue : list Req;
}.

(** The attributes of a [Machine] that never change; its [machines]
    resource lives in the world under the key [machine_type]. *)
Record Machine := {
  machine_type : string;
  breakdown_time : range;
  repair_time : range;
}.

(** Program counters of the five generator functions. *)
Inductive pc_generate_breakdown :=
| GB_start
| GB_yield_interval                 (* line 76 *)
| GB_yield_request (request : Req)  (* line 78 *)
| GB_yield_repair (request : Req)   (* line 85 *)
| GB_raised.

Inductive pc_send_raw_material :=
| SRM_start
| SRM_yield (i : Z)                 (* line 123 *)
| SRM_raised.

Inductive pc_change_shift :=
| CS_start
| CS_yield (current_shift : string)  (* line 139 *)
| CS_raised.

Inductive pc_produce_product :=
| PP_start
| PP_yield_request (rest : list string) (machine_type : string)
    (request : Req) (start_time : Q)               (* line 104 *)
| PP_yield_process (rest : list string) (machine_type : string)
    (request : Req) (sub : pid)                    (* line 109 *)
| PP_returned
| PP_raised.

Inductive pc_process_product :=
| PPr_start
| PPr_yield                          (* line 69 *)
| PPr_returned
| PPr_raised.

(** A generator object: the function, its arguments, where it stands. *)
Inductive Gen :=
| generate_breakdown (self : Machine) (pc : pc_generate_breakdown)
| send_raw_material (product_type : string) (machines : dict Machine)
    (pc : pc_send_raw_material)
| change_shift (pc : pc_change_shift)
| produce_product (product_name : string * Z) (product_type : string)
    (machines : dict Machine) (pc : pc_produce_product)
| process_product (self : Machine) (product_type : string)
    (pc : pc_process_product).

(** [simpy.Process]: the generator and the callbacks of the process seen
    as an event (the processes that yielded it). *)
Record Process := {
  generator : Gen;
  callbacks : list pid;
}.

(** The events of the heap.  Every event of the script is yielded, in the
    same resumption, by the process that created it, so the callback list
    it has when it is popped is known when it is pushed:
    - [Initialize p], [Timeout p]: [[p._resume]];
    - [Request r]: [[resource._trigger_get; r.proc._resume]];
    - [Release r]: [[resource._trigger_put]];
    - [ProcessEv p e]: the process [p] as an event, with the callbacks
      registered in its [Process]; [e] is the exception it died of;
    - [Until]: [[StopSimulation.callback]]. *)
Inductive Event :=
| Initialize (p : pid)
| Timeout (p : pid)
| Request (r : Req)
| Release (r : Req)
| ProcessEv (p : pid) (failure : option exn)
| Until.

Definition URGENT : nat := 0.
Definition NORMAL : nat := 1.

Record entry := Entry {
  e_time : Q;
  e_prio : nat;
  e_eid : nat;
  e_event : Event;
}.

(** The lines the script prints, as the values their f-strings format:
    [t] is [env.now] when the line is printed, not yet rounded. *)
Inductive line :=
| L_entered (t : Q) (product_name : string * Z) (product_type : string)
| L_at (t : Q) (product_name : string * Z) (product_type : string)
    (machine_type : string) (waiting_time : Q)
| L_finished (t : Q) (product_name : string * Z) (product_type : string)
| L_breakdown (t : Q) (machine_type : string)
| L_repaired (t : Q) (machine_type : string)
| L_shift (t : Q) (current_shift : string).

(** [round(q)] to the nearest integer, ties to the even one. *)
Definition round_half_even (q : Q) : Z :=
  let f := Qfloor q in
  match (q - inject_Z f ?= 1 # 2)%Q with
  | Lt => f
  | Gt => (f + 1)%Z
  | Eq => if Z.even f then f else (f + 1)%Z
  end.

(** The number [f"{x:.2f}"] shows, in hundredths. *)
Definition hundredths (x : Q) : Z := round_half_even (x * 100).

Definition two_digits (n : Z) : string :=
  if (n <? 10)%Z then "0" +:+ pretty n else pretty n.

(** [f"{x:.2f}"] *)
Definition format_2f (x : Q) : string :=
  let n := Z.abs (hundredths x) in
  (if Qle_bool 0 x then "" else "-")
  +:+ pretty (n / 100)%Z +:+ "." +:+ two_digits (n mod 100)%Z.

(** [f"{product_type}-{i}"] (line 129) *)
Definition format_name (product_name : string * Z) : string :=
  fst product_name +:+ "-" +:+ pretty (snd product_name).

(** The text of a line (lines 79-87, 94-96, 106-108, 114-116, 147). *)
Definition render (l : line) : string :=
  match l with
  | L_entered t n pt =>
      format_2f t +:+ ": Product " +:+ format_name n +:+ " (" +:+ pt
      +:+ ") entered the production line."
  | L_at t n pt mt wt =>
      format_2f t +:+ ": Product " +:+ format_name n +:+ " (" +:+ pt
      +:+ ") at " +:+ mt +:+ ". Waiting Time: " +:+ format_2f wt
  | L_finished t n pt =>
      format_2f t +:+ ": Product " +:+ format_name n +:+ " (" +:+ pt
      +:+ ") finished production!"
  | L_breakdown t mt =>
      format_2f t +:+ ": Machine breakdown in " +:+ mt +:+ "!"
  | L_repaired t mt => format_2f t +:+ ": " +:+ mt +:+ " machine repaired."
  | L_shift t s => format_2f t +:+ ": Shift changed to " +:+ s +:+ "."
  end.

(** The state of the [random] module: the sequence it will deliver and
    how much of it was consumed. *)
Record Rng := { oracle : nat -> Q; consumed : nat }.

(** ** The interpreter state *)

Record World := {
  now : Q;                          (* env._now *)
  eid : nat;                        (* env._eid *)
  queue : list entry;               (* env._queue, in pop order *)
  procs : list Process;             (* the Process objects, by creation *)
  resources : gmap string Resource; (* Machine.machines, by machine type *)
  next_req : nat;
  PRODUCTS_PRODUCED : Z;
  RAW_MATERIALS_USED : Z;
  rng : Rng;
  stdout : list line;
}.

Definition set_now (t : Q) (w : World) : World :=
  {| now := t; eid := eid w; queue := queue w; procs := procs w;
     resources := resources w; next_req := next_req w;
     PRODUCTS_PRODUCED := PRODUCTS_PRODUCED w;
     RAW_MATERIALS_USED := RAW_MATERIALS_USED w;
     rng := rng w; stdout := stdout w |}.

Definition set_heap (n : nat) (q : list entry) (w : World) : World :=
  {| now := now w; eid := n; queue := q; procs := procs w;
     resources := resources w; next_req := next_req w;
     PRODUCTS_PRODUCED := PRODUCTS_PRODUCED w;
     RAW_MATERIALS_USED := RAW_MATERIALS_USED w;
     rng := rng w; stdout := stdout w |}.

Definition set_procs (ps : list Process) (w : World) : World :=
  {| now := now w; eid := eid w; queue := queue w; procs := ps;
     resources := resources w; next_req := next_req w;
     PRODUCTS_PRODUCED := PRODUCTS_PRODUCED w;
     RAW_MATERIALS_USED := RAW_MATERIALS_USED w;
     rng := rng w; stdout := stdout w |}.

Definition set_resources (rs : gmap string Resource) (w : World) : World :=
  {| now := now w; eid := eid w; queue := queue w; procs := procs w;
     resources := rs; next_req := next_req w;
     PRODUCTS_PRODUCED := PRODUCTS_PRODUCED w;
     RAW_MATERIALS_USED := RAW_MATERIALS_USED w;
     rng := rng w; stdout := stdout w |}.

Definition set_next_req (n : nat) (w : World) : World :=
  {| now := now w; eid := eid w; queue := queue w; procs := procs w;
     resources := resources w; next_req := n;
     PRODUCTS_PRODUCED := PRODUCTS_PRODUCED w;
     RAW_MATERIALS_USED := RAW_MATERIALS_USED w;
     rng := rng w; stdout := stdout w |}.

Definition set_produced (n : Z) (w : World) : World :=
  {| now := now w; eid := eid w; queue := queue w; procs := procs w;
     resources := resources w; next_req := next_req w;
     PRODUCTS_PRODUCED := n;
     RAW_MATERIALS_USED := RAW_MATERIALS_USED w;
     rng := rng w; stdout := stdout w |}.

Definition set_used (n : Z) (w : World) : World :=
  {| now := now w; eid := eid w; queue := queue w; procs := procs w;
     resources := resources w; next_req := next_req w;
     PRODUCTS_PRODUCED := PRODUCTS_PRODUCED w;
     RAW_MATERIALS_USED := n;
     rng := rng w; stdout := stdout w |}.

Definition set_rng (g : Rng) (w : World) : World :=
  {| now := now w; eid := eid w; queue := queue w; procs := procs w;
     resources := resources w; next_req := next_req w;
     PRODUCTS_PRODUCED := PRODUCTS_PRODUCED w;
     RAW_MATERIALS_USED := RAW_MATERIALS_USED w;
     rng := g; stdout := stdout w |}.

Definition set_stdout (o : list line) (w : World) : World :=
  {| now := now w; eid := eid w; queue := queue w; procs := procs w;
     resources := resources w; next_req := next_req w;
     PRODUCTS_PRODUCED := PRODUCTS_PRODUCED w;
     RAW_MATERIALS_USED := RAW_MATERIALS_USED w;
     rng := rng w; stdout := o |}.

(** ** State and exceptions *)

Inductive res (A : Type) :=
| Ok (a : A)
| Raise (e : exn).
Arguments Ok {A} a.
Arguments Raise {A} e.

Definition M (A : Type) := World -> res A * World.

Definition ret {A} (a : A) : M A := fun w => (Ok a, w).
Definition raise {A} (e : exn) : M A := fun w => (Raise e, w).
Definition bind {A B} (m : M A) (k : A -> M B) : M B :=
  fun w => match m w with
           | (Ok a, w') => k a w'
           | (Raise e, w') => (Raise e, w')
           end.

Notation "'do' x <- m ; k" := (bind m (fun x => k))
  (at level 10, x name, m at level 100, k at level 200,
   format "'[v' 'do'  x  <-  m ; '/' k ']'").
Notation "m ;; k" := (bind m (fun _ => k))
  (at level 100, k at level 200, right associativity).

Definition modify (f : World -> World) : M unit := fun w => (Ok tt, f w).
Definition gets {A} (f : World -> A) : M A := fun w => (Ok (f w), w).

(** [d[k]] *)
Definition subscript {V} (d : dict V) (k : string) : M V :=
  match dict_get d k with
  | Some v => ret v
  | None => raise (KeyError k)
  end.

(** The [with request: ...] statement when the body raises:
    [__exit__] runs, then the exception goes on. *)
Definition on_exception {A} (m : M A) (handler : M unit) : M A :=
  fun w => match m w with
           | (Ok a, w') => (Ok a, w')
           | (Raise e, w') => (Raise e, snd (handler w'))
           end.

Definition print (l : line) : M unit :=
  modify (fun w => set_stdout (stdout w ++ [l]) w).

(** ** The [random] module *)

Definition next_draw (g : Rng) : Q * Rng :=
  (oracle g (consumed g), {| oracle := oracle g; consumed := S (consumed g) |}).

(** [random.randint(a, b)]: an integer of the closed range, or
    [ValueError] when the range is empty. *)
Definition randint (a b : Z) : M Z :=
  fun w =>
    if (b <? a)%Z then (Raise (ValueError EmptyRange), w)
    else let '(q, g) := next_draw (rng w) in
         (Ok (a + Qfloor (Qabs q) mod (b - a + 1))%Z, set_rng g w).

(** [random.expovariate(lambd)]: [-log(1 - random()) / lambd]; the
    numerator is the non-negative number read from the sequence, and
    the quotient is the exact one. *)
Definition expovariate (lambd : Q) : M Q :=
  fun w =>
    let '(q, g) := next_draw (rng w) in
    if Qeq_bool lambd 0 then (Raise ZeroDivisionError, set_rng g w)
    else (Ok (Qabs q / lambd)%Q, set_rng g w).

(** The integers from which [float(x)] overflows: those that round to
    [2 ** 1024] or beyond. *)
Definition FLOAT_OVERFLOW : Z := Eval vm_compute in (2 ^ 1024 - 2 ^ 970)%Z.

(** [1.0 / x] for an [int]: [x] is converted to a float first; the
    quotient is the exact one. *)
Definition one_over (x : Z) : M Q :=
  if (FLOAT_OVERFLOW <=? Z.abs x)%Z then raise OverflowError
  else if (x =? 0)%Z then raise ZeroDivisionError
  else ret (1 / inject_Z x)%Q.

(** ** [simpy.Environment] *)

(** Heap order: time, then priority, then insertion number. *)
Definition entry_lt (a b : entry) : bool :=
  match (e_time a ?= e_time b)%Q with
  | Lt => true
  | Gt => false
  | Eq => if e_prio a <? e_prio b then true
          else if e_prio b <? e_prio a then false
          else e_eid a <? e_eid b
  end.

(** [heappush] on the queue kept in pop order. *)
Fixpoint heappush (e : entry) (q : list entry) : list entry :=
  match q with
  | [] => [e]
  | x :: q' => if entry_lt e x then e :: q else x :: heappush e q'
  end.

(** [Environment.schedule(event, priority, delay)] *)
Definition schedule (ev : Event) (priority : nat) (delay : Q) : M unit :=
  modify (fun w =>
    set_heap (S (eid w))
      (heappush (Entry (now w + delay) priority (eid w) ev) (queue w)) w).

(** [event.succeed()] and the like: [schedule] with the defaults. *)
Definition succeed (ev : Event) : M unit := schedule ev NORMAL 0.

(** [env.timeout(delay)] yielded by process [p]. *)
Definition timeout (p : pid) (delay : Q) : M unit :=
  if Qle_bool 0 delay then schedule (Timeout p) NORMAL delay
  else raise (ValueError NegativeDelay).

(** [env.process(generator)]: a new [Process], started by an urgent
    [Initialize] event. *)
Definition process (g : Gen) : M pid :=
  do p <- gets (fun w => length (procs w));
  modify (fun w =>
    set_procs (procs w ++ [{| generator := g; callbacks := [] |}]) w);;
  schedule (Initialize p) URGENT 0;;
  ret p.

(** [simpy.Environment()] *)
Definition Environment (w : World) : World :=
  set_procs [] (set_resources ∅ (set_heap 0 [] (set_now 0 w))).

(** ** [simpy.Resource] *)

(** [simpy.Resource(env, capacity)] stored under [key]. *)
Definition new_Resource (key : string) (cap : Z) : M unit :=
  if (cap <=? 0)%Z then raise (ValueError CapacityNotPositive)
  else modify (fun w =>
    set_resources
      (<[key := {| capacity := cap; users := []; put_queue := [] |}]>
         (resources w)) w).

(** [users.remove(request)]: the first occurrence, nothing if absent. *)
Fixpoint list_remove_first (r : Req) (l : list Req) : list Req :=
  match l with
  | [] => []
  | x :: l' => if decide (x = r) then l' else x :: list_remove_first r l'
  end.

(** [Resource._do_put] when there is room: the request joins the users;
    [_trigger_put] then pops it from the queue. *)
Definition grant (r : Req) (waiting : list Req) (R : Resource) : Resource :=
  {| capacity := capacity R; users := users R ++ [r];
     put_queue := waiting |}.

(** [put_queue.append(request)] in [Put.__init__]. *)
Definition enqueue (r : Req) (R : Resource) : Resource :=
  {| capacity := capacity R; users := users R;
     put_queue := put_queue R ++ [r] |}.

(** [Put.cancel] followed by [users.remove] in [_do_get]. *)
Definition take_out (r : Req) (R : Resource) : Resource :=
  {| capacity := capacity R; users := list_remove_first r (users R);
     put_queue := list_remove_first r (put_queue R) |}.

(** [BaseResource._trigger_put]: [_do_put] returns [None], so the loop
    stops after the head of the queue, granted or not. *)
Definition _trigger_put (key : string) : M unit :=
  fun w =>
    match resources w !! key with
    | Some R =>
        match put_queue R with
        | r :: waiting =>
            if (Z.of_nat (length (users R)) <? capacity R)%Z then
              succeed (Request r)
                (set_resources (<[key := grant r waiting R]> (resources w)) w)
            else (Ok tt, w)
        | [] => (Ok tt, w)
        end
    | None => (Ok tt, w)
    end.

(** [resource.request()] by process [p]. *)
Definition request (key : string) (p : pid) : M Req :=
  do n <- gets next_req;
  let r := {| req_id := n; req_proc := p; resource := key |} in
  modify (fun w =>
    set_next_req (S n)
      (set_resources (alter (enqueue r) key (resources w)) w));;
  _trigger_put key;;
  ret r.

(** [Request.__exit__]: [cancel] takes the request out of the queue
    when it was not triggered (a request is in the queue exactly as long
    as it is not), then [resource.release(request)] takes it out of
    [users] (nothing when it is not there) and triggers a [Release]. *)
Definition Request_exit (r : Req) : M unit :=
  modify (fun w =>
    set_resources (alter (take_out r) (resource r) (resources w)) w);;
  succeed (Release r).

(** ** The generator functions *)

(** What a resumed generator does: stop at a [yield], or return. *)
Inductive suspend (A : Type) :=
| Yield (a : A)
| StopIteration.
Arguments Yield {A} a.
Arguments StopIteration {A}.

Definition STAGES : list string :=
  ["Machining"; "Assembly"; "QualityControl"; "Packaging"].

Definition next_shift (current_shift : string) : string :=
  if String.eqb current_shift "Day" then "Evening"
  else if String.eqb current_shift "Evening" then "Night"
  else "Day".

Section Script.

Variable G : Globals.

(** [Machine.__init__] (lines 57-62) *)
Definition Machine_init (mt : string) (quantity : Z) : M Machine :=
  new_Resource mt quantity;;
  do bt <- subscript (MACHINE_BREAKDOWN_TIME G) mt;
  do rt <- subscript (MACHINE_REPAIR_TIME G) mt;
  ret {| machine_type := mt; breakdown_time := bt; repair_time := rt |}.

(** [Machine.process_product] (lines 64-69) *)
Definition process_product_body (p : pid) (self : Machine)
    (product_type : string) (pc : pc_process_product)
    (thrown : option exn) : M (suspend pc_process_product) :=
  match thrown with
  | Some e => raise e
  | None =>
      match pc with
      | PPr_start =>
          do by_type <- subscript (PROCESSING_TIMES G) product_type;
          do t <- subscript by_type (machine_type self);
          do processing_time <- randint (rmin t) (rmax t);
          timeout p (inject_Z processing_time);;
          ret (Yield PPr_yield)
      | _ => ret StopIteration
      end
  end.

(** [Machine.generate_breakdown] (lines 71-88): top of the loop. *)
Definition generate_breakdown_loop (p : pid) (self : Machine)
    : M pc_generate_breakdown :=
  do breakdown_duration <-
    randint (rmin (breakdown_time self)) (rmax (breakdown_time self));
  timeout p (inject_Z breakdown_duration);;
  ret GB_yield_interval.

Definition generate_breakdown_body (p : pid) (self : Machine)
    (pc : pc_generate_breakdown) (thrown : option exn)
    : M pc_generate_breakdown :=
  match pc, thrown with
  | GB_start, None => generate_breakdown_loop p self
  | GB_yield_interval, None =>
      do r <- request (machine_type self) p;
      ret (GB_yield_request r)
  | GB_yield_request r, None =>
      on_exception
        (do t <- gets now;
         print (L_breakdown t (machine_type self));;
         do repair_duration <-
           randint (rmin (repair_time self)) (rmax (repair_time self));
         timeout p (inject_Z repair_duration);;
         ret (GB_yield_repair r))
        (Request_exit r)
  | GB_yield_repair r, None =>
      do t <- gets now;
      print (L_repaired t (machine_type self));;
      Request_exit r;;
      generate_breakdown_loop p self
  | GB_yield_request r, Some e | GB_yield_repair r, Some e =>
      Request_exit r;; raise e
  | _, Some e => raise e
  | GB_raised, None => ret GB_raised
  end.

(** [produce_product] (lines 91-116): the head of the [for] loop with the
    entry of the [with] statement, or the code after the loop. *)
Definition produce_product_loop (p : pid) (product_name : string * Z)
    (product_type : string) (machines : dict Machine)
    (stages : list string) (start_time : Q)
    : M (suspend pc_produce_product) :=
  match stages with
  | mt :: rest =>
      do m <- subscript machines mt;
      do r <- request (machine_type m) p;
      ret (Yield (PP_yield_request rest mt r start_time))
  | [] =>
      modify (fun w => set_produced (PRODUCTS_PRODUCED w + 1) w);;
      do t <- gets now;
      print (L_finished t product_name product_type);;
      ret StopIteration
  end.

Definition with_callback (p : pid) (P : Process) : Process :=
  {| generator := generator P; callbacks := callbacks P ++ [p] |}.

(** [yield event] in [Process._resume]: the process becomes a callback
    of the event it waits for, here the process [s]. *)
Definition add_callback (s p : pid) : M unit :=
  modify (fun w => set_procs (alter (with_callback p) s (procs w)) w).

Definition produce_product_body (p : pid) (product_name : string * Z)
    (product_type : string) (machines : dict Machine)
    (pc : pc_produce_product) (thrown : option exn)
    : M (suspend pc_produce_product) :=
  match pc, thrown with
  | PP_start, None =>
      do start_time <- gets now;
      print (L_entered start_time product_name product_type);;
      produce_product_loop p product_name product_type machines STAGES
        start_time
  | PP_yield_request rest mt r start_time, None =>
      on_exception
        (do t <- gets now;
         let waiting_time := (t - start_time)%Q in
         print (L_at t product_name product_type mt waiting_time);;
         do m <- subscript machines mt;
         do s <- process (process_product m product_type PPr_start);
         add_callback s p;;
         ret (Yield (PP_yield_process rest mt r s)))
        (Request_exit r)
  | PP_yield_process rest mt r s, None =>
      do start_time <- gets now;
      Request_exit r;;
      produce_product_loop p product_name product_type machines rest
        start_time
  | PP_yield_request _ _ r _, Some e | PP_yield_process _ _ r _, Some e =>
      Request_exit r;; raise e
  | _, Some e => raise e
  | _, None => ret StopIteration
  end.

(** [send_raw_material] (lines 119-132): top of the loop. *)
Definition send_raw_material_loop (p : pid) (product_type : string)
    (i : Z) : M pc_send_raw_material :=
  do mean <- subscript (RAW_MATERIAL_ARRIVAL_TIME G) product_type;
  do lambd <- one_over mean;
  do delay <- expovariate lambd;
  timeout p delay;;
  ret (SRM_yield i).

Definition send_raw_material_body (p : pid) (product_type : string)
    (machines : dict Machine) (pc : pc_send_raw_material)
    (thrown : option exn) : M pc_send_raw_material :=
  match pc, thrown with
  | SRM_start, None => send_raw_material_loop p product_type 1
  | SRM_yield i, None =>
      modify (fun w => set_used (RAW_MATERIALS_USED w + 1) w);;
      process (produce_product (product_type, i) product_type machines
                 PP_start);;
      send_raw_material_loop p product_type (i + 1)
  | _, Some e => raise e
  | SRM_raised, None => ret SRM_raised
  end.

(** [change_shift] (lines 135-147) *)
Definition change_shift_body (p : pid) (pc : pc_change_shift)
    (thrown : option exn) : M pc_change_shift :=
  match pc, thrown with
  | CS_start, None =>
      timeout p (inject_Z (8 * 60));;
      ret (CS_yield "Day")
  | CS_yield current_shift, None =>
      let current_shift := next_shift current_shift in
      do t <- gets now;
      print (L_shift t current_shift);;
      timeout p (inject_Z (8 * 60));;
      ret (CS_yield current_shift)
  | _, Some e => raise e
  | CS_raised, None => ret CS_raised
  end.

(** ** [Process._resume] *)

Definition finished (g : Gen) : bool :=
  match g with
  | generate_breakdown _ GB_raised
  | send_raw_material _ _ SRM_raised
  | change_shift CS_raised
  | produce_product _ _ _ PP_returned
  | produce_product _ _ _ PP_raised
  | process_product _ _ PPr_returned
  | process_product _ _ PPr_raised => true
  | _ => false
  end.

Definition returned (g : Gen) : Gen :=
  match g with
  | produce_product n t ms _ => produce_product n t ms PP_returned
  | process_product m t _ => process_product m t PPr_returned
  | _ => g
  end.

Definition raised (g : Gen) : Gen :=
  match g with
  | generate_breakdown m _ => generate_breakdown m GB_raised
  | send_raw_material t ms _ => send_raw_material t ms SRM_raised
  | change_shift _ => change_shift CS_raised
  | produce_product n t ms _ => produce_product n t ms PP_raised
  | process_product m t _ => process_product m t PPr_raised
  end.

(** [generator.send(None)] or [generator.throw(exc)] on process [p]. *)
Definition send (p : pid) (g : Gen) (thrown : option exn)
    : M (suspend Gen) :=
  match g with
  | generate_breakdown self pc =>
      do pc' <- generate_breakdown_body p self pc thrown;
      ret (Yield (generate_breakdown self pc'))
  | send_raw_material product_type machines pc =>
      do pc' <- send_raw_material_body p product_type machines pc thrown;
      ret (Yield (send_raw_material product_type machines pc'))
  | change_shift pc =>
      do pc' <- change_shift_body p pc thrown;
      ret (Yield (change_shift pc'))
  | produce_product product_name product_type machines pc =>
      do s <- produce_product_body p product_name product_type machines
                pc thrown;
      ret (match s with
           | Yield pc' =>
               Yield (produce_product product_name product_type machines
                        pc')
           | StopIteration => StopIteration
           end)
  | process_product self product_type pc =>
      do s <- process_product_body p self product_type pc thrown;
      ret (match s with
           | Yield pc' => Yield (process_product self product_type pc')
           | StopIteration => StopIteration
           end)
  end.

Definition with_generator (g : Gen) (P : Process) : Process :=
  {| generator := g; callbacks := callbacks P |}.

Definition set_generator (p : pid) (g : Gen) (w : World) : World :=
  set_procs (alter (with_generator g) p (procs w)) w.

(** The process runs to its next [yield]; when the generator returns or
    raises, the process is triggered as an event, succeeded or failed. *)
Definition _resume (p : pid) (thrown : option exn) : M unit :=
  fun w =>
    match procs w !! p with
    | None => (Ok tt, w)
    | Some P =>
        let g := generator P in
        if finished g then (Ok tt, w)
        else match send p g thrown w with
             | (Ok (Yield g'), w') => (Ok tt, set_generator p g' w')
             | (Ok StopIteration, w') =>
                 succeed (ProcessEv p None) (set_generator p (returned g) w')
             | (Raise e, w') =>
                 succeed (ProcessEv p (Some e))
                   (set_generator p (raised g) w')
             end
    end.

(** ** [Environment.step] and [Environment.run] *)

Inductive signal := Continue | StopSimulation.

Fixpoint run_callbacks (waiters : list pid) (failure : option exn)
    : M unit :=
  match waiters with
  | [] => ret tt
  | c :: cs => _resume c failure;; run_callbacks cs failure
  end.

(** The callbacks of a popped event. *)
Definition dispatch (ev : Event) : M signal :=
  match ev with
  | Initialize p => _resume p None;; ret Continue
  | Timeout p => _resume p None;; ret Continue
  | Request r => _resume (req_proc r) None;; ret Continue
  | Release r => _trigger_put (resource r);; ret Continue
  | ProcessEv p failure =>
      do P <- gets (fun w => procs w !! p);
      let waiters := from_option callbacks [] P in
      run_callbacks waiters failure;;
      match failure, waiters with
      | Some e, [] => raise e     (* a failed event nobody defused *)
      | _, _ => ret Continue
      end
  | Until => ret StopSimulation
  end.

Definition step : M signal :=
  fun w =>
    match queue w with
    | [] => (Raise RuntimeError, w)          (* EmptySchedule *)
    | e :: q => dispatch (e_event e) (set_now (e_time e) (set_heap (eid w) q w))
    end.

(** [while True: self.step()], with a bound on the number of steps;
    [None] when the bound is hit. *)
Fixpoint run_loop (fuel : nat) (w : World) : option (res unit * World) :=
  match fuel with
  | O => None
  | S fuel' =>
      match step w with
      | (Ok Continue, w') => run_loop fuel' w'
      | (Ok StopSimulation, w') => Some (Ok tt, w')
      | (Raise e, w') => Some (Raise e, w')
      end
  end.

(** [env.run(until=simulation_time)] *)
Definition run (until : Z) (fuel : nat) (w : World)
    : option (res unit * World) :=
  let at_ := inject_Z until in
  if Qle_bool at_ (now w) then Some (Raise (ValueError UntilNotAfterNow), w)
  else match schedule Until URGENT (at_ - now w) w with
       | (_, w') => run_loop fuel w'
       end.

(** ** [run_scenario] (lines 150-178) *)

Fixpoint for_each {A} (l : list A) (f : A -> M unit) : M unit :=
  match l with
  | [] => ret tt
  | x :: l' => f x;; for_each l' f
  end.

(** The dict comprehension of lines 159-162. *)
Fixpoint build_machines (num_machines : dict Z) (keys : list string)
    : M (dict Machine) :=
  match keys with
  | [] => ret []
  | mt :: keys' =>
      do quantity <- subscript num_machines mt;
      do m <- Machine_init mt quantity;
      do ms <- build_machines num_machines keys';
      ret ((mt, m) :: ms)
  end.

(** Everything up to [env.run]. *)
Definition start_scenario (num_machines : dict Z) (shift_schedules : dict Z)
    : M unit :=
  modify (set_produced 0);;
  modify (set_used 0);;
  do machines <- build_machines num_machines (dict_keys num_machines);
  for_each (dict_keys machines) (fun mt =>
    do m <- subscript machines mt;
    process (generate_breakdown m GB_start);; ret tt);;
  for_each (PRODUCT_TYPES G) (fun product_type =>
    process (send_raw_material product_type machines SRM_start);; ret tt);;
  process (change_shift CS_start);;
  ret tt.

Definition run_scenario (num_machines : dict Z) (shift_schedules : dict Z)
    (simulation_time : Z) (fuel : nat) (w : World)
    : option (res (Z * Z) * World) :=
  match start_scenario num_machines shift_schedules w with
  | (Raise e, w1) => Some (Raise e, w1)
  | (Ok _, w1) =>
      match run simulation_time fuel w1 with
      | None => None
      | Some (Raise e, w2) => Some (Raise e, w2)
      | Some (Ok _, w2) =>
          Some (Ok (PRODUCTS_PRODUCED w2, RAW_MATERIALS_USED w2), w2)
      end
  end.

(** ** [perform_scenario_analysis] (lines 181-201) *)

Record row := {
  Num_Machines : dict Z;
  Shift_Schedule : dict Z;
  Products_Produced : Z;
  Raw_Materials_Used : Z;
}.

(** The inner loop, appending to [results]. *)
Fixpoint inner_loop (num_machines : dict Z)
    (shift_schedules_list : list (dict Z)) (simulation_time : Z)
    (fuel : nat) (results : list row) (w : World)
    : option (res (list row) * World) :=
  match shift_schedules_list with
  | [] => Some (Ok results, w)
  | shift_schedule :: rest =>
      match run_scenario num_machines shift_schedule simulation_time fuel
              (Environment w) with
      | None => None
      | Some (Raise e, w') => Some (Raise e, w')
      | Some (Ok (products_produced, raw_materials_used), w') =>
          inner_loop num_machines rest simulation_time fuel
            (results ++
             [{| Num_Machines := num_machines;
                 Shift_Schedule := shift_schedule;
                 Products_Produced := products_produced;
                 Raw_Materials_Used := raw_materials_used |}]) w'
      end
  end.

Fixpoint outer_loop (num_machines_list : list (dict Z))
    (shift_schedules_list : list (dict Z)) (simulation_time : Z)
    (fuel : nat) (results : list row) (w : World)
    : option (res (list row) * World) :=
  match num_machines_list with
  | [] => Some (Ok results, w)
  | num_machines :: rest =>
      match inner_loop num_machines shift_schedules_list simulation_time
              fuel results w with
      | None => None
      | Some (Raise e, w') => Some (Raise e, w')
      | Some (Ok results', w') =>
          outer_loop rest shift_schedules_list simulation_time fuel
            results' w'
      end
  end.

Definition perform_scenario_analysis (num_machines_list : list (dict Z))
    (shift_schedules_list : list (dict Z)) (simulation_time : Z)
    (fuel : nat) (w : World) : option (res (list row) * World) :=
  outer_loop num_machines_list shift_schedules_list simulation_time fuel
    [] w.

End Script.

(** ** The script itself (lines 203-221) *)

Definition num_machines_list : list (dict Z) :=
  [ [("Machining", 4); ("Assembly", 7); ("QualityControl", 2);
     ("Packaging", 1)];
    [("Machining", 5); ("Assembly", 8); ("QualityControl", 3);
     ("Packaging", 2)];
    [("Machining", 6); ("Assembly", 9); ("QualityControl", 4);
     ("Packaging", 3)] ]%Z.

Definition shift_schedules_list : list (dict Z) :=
  [ [("Day", 15); ("Evening", 10); ("Night", 5)];
    [("Day", 20); ("Evening", 15); ("Night", 10)] ]%Z.

(** The interpreter when the script starts: nothing printed, the globals
    of [run_scenario] not yet bound, and the [random] module in the state
    its import left it in; nothing in the script calls [random.seed]. *)
Definition at_import (g : Rng) : World :=
  {| now := 0; eid := 0; queue := []; procs := []; resources := ∅;
     next_req := 0; PRODUCTS_PRODUCED := 0; RAW_MATERIALS_USED := 0;
     rng := g; stdout := [] |}.

Definition main (g : Rng) (fuel : nat) : option (res (list row) * World) :=
  perform_scenario_analysis main_globals num_machines_list
    shift_schedules_list SIM_TIME fuel (at_import g).


(** * Vocabulary of the properties *)

(** ** The states of a run *)

Section Executions.

Variable G : Globals.

(** Any number of calls of [Environment.step]. *)
Inductive steps : World -> World -> Prop :=
| steps_refl w : steps w w
| steps_step w r w' w'' :
    step G w = (r, w') -> steps w' w'' -> steps w w''.

(** The state in which [env.run] enters its loop, for [run_scenario]
    called with a new environment in the interpreter state [w0]. *)
Definition run_starts (num_machines shift_schedules : dict Z)
    (simulation_time : Z) (w0 w : World) : Prop :=
  exists w1,
    start_scenario G num_machines shift_schedules (Environment w0)
      = (Ok tt, w1) /\
    Qle_bool (inject_Z simulation_time) (now w1) = false /\
    w = snd (schedule Until URGENT (inject_Z simulation_time - now w1) w1).

(** The states between two events of that run. *)
Definition reachable (num_machines shift_schedules : dict Z)
    (simulation_time : Z) (w0 w : World) : Prop :=
  exists wi,
    run_starts num_machines shift_schedules simulation_time w0 wi /\
    steps wi w.

End Executions.

(** ** Units, their names and their stages *)

Definition gens (w : World) : list Gen := map generator (procs w).

(** A unit is a [produce_product] process; it is completed when its
    generator has returned. *)
Definition is_unit (g : Gen) : bool :=
  match g with produce_product _ _ _ _ => true | _ => false end.

Definition is_completed (g : Gen) : bool :=
  match g with produce_product _ _ _ PP_returned => true | _ => false end.

Fixpoint count (f : Gen -> bool) (l : list Gen) : nat :=
  match l with
  | [] => 0
  | g :: l' => (if f g then 1 else 0) + count f l'
  end.

(** The number [i] of the unit named [f"{T}-{i}"]. *)
Definition unit_id (T : string) (g : Gen) : option Z :=
  match g with
  | produce_product (T', i) _ _ _ => if decide (T' = T) then Some i else None
  | _ => None
  end.

(** The numbers of the units of type [T], in the order they were spawned. *)
Definition unit_ids (T : string) (w : World) : list Z :=
  omap (unit_id T) (gens w).

Definition unit_name (g : Gen) : option (string * Z) :=
  match g with
  | produce_product product_name _ _ _ => Some product_name
  | _ => None
  end.

Definition arrival_type (g : Gen) : option string :=
  match g with
  | send_raw_material product_type _ _ => Some product_type
  | _ => None
  end.

(** The stage a line reports for the unit [product_name]. *)
Definition stage_of (product_name : string * Z) (l : line) : option string :=
  match l with
  | L_at _ n _ mt _ => if decide (n = product_name) then Some mt else None
  | _ => None
  end.

Definition visited (product_name : string * Z) (out : list line)
    : list string :=
  omap (stage_of product_name) out.

Definition finished_line (product_name : string * Z) (l : line) : bool :=
  match l with
  | L_finished _ n _ => bool_decide (n = product_name)
  | _ => false
  end.

(** What the process printed since the run began, [old] being the output
    of the interpreter before. *)
Definition printed (old : list line) (w : World) : list line :=
  drop (length old) (stdout w).

(** The request a generator stands inside the [with] statement of. *)
Definition current_request (g : Gen) : option Req :=
  match g with
  | produce_product _ _ _ (PP_yield_request _ _ r _)
  | produce_product _ _ _ (PP_yield_process _ _ r _)
  | generate_breakdown _ (GB_yield_request r)
  | generate_breakdown _ (GB_yield_repair r) => Some r
  | _ => None
  end.

(** Process [p] has the request [r] among the users of the pool [k]. *)
Definition holds (w : World) (p : pid) (k : string) (r : Req) : Prop :=
  exists R, resources w !! k = Some R /\ r ∈ users R /\ req_proc r = p.

(** A request is among the users or in the queue of the pool [k]. *)
Definition pending (rs : gmap string Resource) (k : string) (r : Req)
    : Prop :=
  exists R, rs !! k = Some R /\ r ∈ users R ++ put_queue R.

(** ** Configurations *)

(** The machine type has its two ranges in the tables. *)
Definition known (G : Globals) (k : string) : Prop :=
  is_Some (dict_get (MACHINE_BREAKDOWN_TIME G) k) /\
  is_Some (dict_get (MACHINE_REPAIR_TIME G) k).

(** Some range of the tables has [min > max]. *)
Definition empty_range (t : range) : Prop := (rmax t < rmin t)%Z.

Definition has_empty_range (G : Globals) : Prop :=
  (exists k t, dict_get (MACHINE_BREAKDOWN_TIME G) k = Some t /\
     empty_range t) \/
  (exists k t, dict_get (MACHINE_REPAIR_TIME G) k = Some t /\
     empty_range t) \/
  (exists k d m t, dict_get (PROCESSING_TIMES G) k = Some d /\
     dict_get d m = Some t /\ empty_range t).

(** ** Small scenarios *)

Definition every_stage (t : range) : dict range :=
  [("Machining", t); ("Assembly", t); ("QualityControl", t);
   ("Packaging", t)].

Definition one_each : dict Z :=
  [("Machining", 1); ("Assembly", 1); ("QualityControl", 1);
   ("Packaging", 1)]%Z.

(** One product type arriving every minute on average, five minutes in
    every stage, a first breakdown after the 21st minute. *)
Definition five_minutes : Globals := {|
  RAW_MATERIAL_ARRIVAL_TIME := [("Widget", 1%Z)];
  PRODUCT_TYPES := ["Widget"];
  PROCESSING_TIMES := [("Widget", every_stage (Range 5 5))];
  MACHINE_BREAKDOWN_TIME := every_stage (Range 21 21);
  MACHINE_REPAIR_TIME := every_stage (Range 1 1);
|}.

(** The same with repair ranges that have [min > max]. *)
Definition bad_repair : Globals := {|
  RAW_MATERIAL_ARRIVAL_TIME := [("Widget", 1%Z)];
  PRODUCT_TYPES := ["Widget"];
  PROCESSING_TIMES := [("Widget", every_stage (Range 5 5))];
  MACHINE_BREAKDOWN_TIME := every_stage (Range 21 21);
  MACHINE_REPAIR_TIME := every_stage (Range 3 1);
|}.

(** A [random] module that always delivers [q]. *)
Definition constant_rng (q : Q) : Rng :=
  {| oracle := fun _ => q; consumed := 0 |}.

Definition world_of (r : option (res (Z * Z) * World)) : World :=
  match r with
  | Some (_, w) => w
  | None => at_import (constant_rng 0)
  end.

(** ** What one resumption does to the processes and the output *)

(** Processes that are neither units nor arrival processes. *)
Definition quiet (g : Gen) : bool :=
  match g with
  | produce_product _ _ _ _ | send_raw_material _ _ _ => false
  | _ => true
  end.

(** The same generator function called with the same arguments. *)
Definition same_code (g g' : Gen) : Prop :=
  match g, g' with
  | generate_breakdown m _, generate_breakdown m' _ => m = m'
  | change_shift _, change_shift _ => True
  | process_product m t _, process_product m' t' _ => m = m' /\ t = t'
  | send_raw_material t ms _, send_raw_material t' ms' _ =>
      t = t' /\ ms = ms'
  | produce_product n t ms _, produce_product n' t' ms' _ =>
      n = n' /\ t = t' /\ ms = ms'
  | _, _ => False
  end.

Definition unit_line (l : line) : bool :=
  match l with
  | L_entered _ _ _ | L_at _ _ _ _ _ | L_finished _ _ _ => true
  | _ => false
  end.

(** One resumption of [produce_product]: where it was, where it is, what
    it printed, what it added to [PRODUCTS_PRODUCED]. *)
Inductive unit_step (n : string * Z) (pt : string)
    : pc_produce_product -> pc_produce_product -> list line -> Z -> Prop :=
| us_start t pc' :
    pc' = PP_raised \/
    (exists mt rest r st,
       STAGES = mt :: rest /\ pc' = PP_yield_request rest mt r st) ->
    unit_step n pt PP_start pc' [L_entered t n pt] 0
| us_at rest mt r st t wt pc' :
    pc' = PP_raised \/ (exists s, pc' = PP_yield_process rest mt r s) ->
    unit_step n pt (PP_yield_request rest mt r st) pc'
      [L_at t n pt mt wt] 0
| us_next mt' rest' mt r s pc' :
    pc' = PP_raised \/
    (exists r' st', pc' = PP_yield_request rest' mt' r' st') ->
    unit_step n pt (PP_yield_process (mt' :: rest') mt r s) pc' [] 0
| us_done mt r s t :
    unit_step n pt (PP_yield_process [] mt r s) PP_returned
      [L_finished t n pt] 1
| us_thrown pc :
    unit_step n pt pc PP_raised [] 0.

(** One resumption of any process: the generator before and after, the
    processes it created, the lines it printed, what it added to the two
    counters. *)
Inductive effect : Gen -> Gen -> list Gen -> list line -> Z -> Z -> Prop :=
| eff_quiet g g' lines :
    quiet g = true -> same_code g g' ->
    Forall (fun l => unit_line l = false) lines ->
    effect g g' [] lines 0 0
| eff_first t ms pc' :
    pc' = SRM_yield 1 \/ pc' = SRM_raised ->
    effect (send_raw_material t ms SRM_start) (send_raw_material t ms pc')
      [] [] 0 0
| eff_spawn t ms i pc' :
    pc' = SRM_yield (i + 1) \/ pc' = SRM_raised ->
    effect (send_raw_material t ms (SRM_yield i))
      (send_raw_material t ms pc')
      [produce_product (t, i) t ms PP_start] [] 0 1
| eff_arrival_thrown t ms pc :
    effect (send_raw_material t ms pc) (send_raw_material t ms SRM_raised)
      [] [] 0 0
| eff_unit n pt ms pc pc' news lines dP :
    unit_step n pt pc pc' lines dP ->
    Forall (fun g => quiet g = true) news ->
    effect (produce_product n pt ms pc) (produce_product n pt ms pc')
      news lines dP 0.

(** ** Conservation *)

(** The counters count the processes: every unit was counted once when it
    was spawned and once more when its generator returned. *)
Definition counted (gs : list Gen) (out : list line) (P R : Z) : Prop :=
  P = Z.of_nat (count is_completed gs) /\ R = Z.of_nat (count is_unit gs).

(** ** Pools and their requests *)

(** The pool a generator stands in the [with] statement of. *)
Definition pool_of (g : Gen) : option string :=
  match g with
  | generate_breakdown self _ => Some (machine_type self)
  | produce_product _ _ ms (PP_yield_request _ mt _ _)
  | produce_product _ _ ms (PP_yield_process _ mt _ _) =>
      option_map machine_type (dict_get ms mt)
  | _ => None
  end.

(** The request of process [q], if it stands in a [with] statement. *)
Definition current (gs : list Gen) (q : pid) : option Req :=
  gs !! q ≫= current_request.

Definition upd (cur : pid -> option Req) (p : pid) (v : option Req)
    : pid -> option Req :=
  fun q => if decide (q = p) then v else cur q.

(** No request is twice in a pool, and every request in a pool is the
    current one of its process, [cur] telling which that is. *)
Definition pools_ok (rs : gmap string Resource) (n : nat)
    (cur : pid -> option Req) : Prop :=
  (forall k R, rs !! k = Some R -> NoDup (users R ++ put_queue R)) /\
  (forall k r, pending rs k r ->
     resource r = k /\ req_id r < n /\ cur (req_proc r) = Some r).

(** The current request of a process was made by it, on its pool. *)
Definition own_request (gs : list Gen) : Prop :=
  forall p g r, gs !! p = Some g -> current_request g = Some r ->
    req_proc r = p /\ pool_of g = Some (resource r).

Definition Pools (w : World) : Prop :=
  pools_ok (resources w) (next_req w) (current (gens w)) /\
  own_request (gens w).

(** ** Names and stages *)

(** Where the unit stands among the stages, given the stages its lines
    report so far. *)
Definition stage_state (pc : pc_produce_product) (vis : list string)
    : Prop :=
  match pc with
  | PP_start => vis = []
  | PP_yield_request rest mt _ _ => vis ++ mt :: rest = STAGES
  | PP_yield_process rest mt _ _ =>
      (exists before, vis = before ++ [mt]) /\ vis ++ rest = STAGES
  | PP_returned => vis = STAGES
  | PP_raised => exists rest, vis ++ rest = STAGES
  end.

(** The number the arrival process will give to its next unit, [n] units
    of its type having been spawned. *)
Definition next_id (pc : pc_send_raw_material) (n : nat) : Prop :=
  match pc with
  | SRM_start => n = 0
  | SRM_yield i => i = (Z.of_nat n + 1)%Z
  | SRM_raised => True
  end.

Definition ids (T : string) (gs : list Gen) : list Z := omap (unit_id T) gs.

Definition line_name (l : line) : option (string * Z) :=
  match l with
  | L_entered _ n _ | L_at _ n _ _ _ | L_finished _ n _ => Some n
  | _ => None
  end.

Record named (gs : list Gen) (out : list line) : Prop := {
  nm_arrivals : NoDup (omap arrival_type gs);
  nm_ids : forall T, ids T gs = seqZ 1 (Z.of_nat (length (ids T gs)));
  nm_next : forall p T ms pc,
    gs !! p = Some (send_raw_material T ms pc) ->
    next_id pc (length (ids T gs));
  nm_type : forall p n pt ms pc,
    gs !! p = Some (produce_product n pt ms pc) -> fst n = pt;
  nm_stage : forall p n pt ms pc,
    gs !! p = Some (produce_product n pt ms pc) ->
    stage_state pc (visited n out);
  nm_lines : forall l n,
    l ∈ out -> line_name l = Some n -> n ∈ omap unit_name gs;
  nm_finished : forall t n pt,
    L_finished t n pt ∈ out ->
    exists p pt' ms, gs !! p = Some (produce_product n pt' ms PP_returned);
}.

(** The invariant of a run that started with the output [old]. *)
Definition Named (old : list line) (gs : list Gen) (out : list line)
    (P R : Z) : Prop :=
  exists new, out = old ++ new /\ named gs new.

(** ** Serving a pool *)

(** What [_trigger_put] does to a resource: the head of the queue, and
    only the head, becomes a user if there is room. *)
Definition serve_head (R : Resource) : Resource :=
  match put_queue R with
  | first :: waiting =>
      if (Z.of_nat (length (users R)) <? capacity R)%Z
      then grant first waiting R else R
  | [] => R
  end.

(** ** The clock and the heap *)

(** Pop order as far as time and priority go. *)
Definition entry_le (a b : entry) : Prop :=
  (e_time a < e_time b)%Q \/
  ((e_time a == e_time b)%Q /\ e_prio a <= e_prio b).

(** The heap while [env.run(until=H)] loops: in pop order, nothing dated
    before the clock, urgent events dated now, the event of the horizon
    still there and the clock before it. *)
Record kernel_ok (H : Q) (t : Q) (q : list entry) : Prop := {
  k_sorted : StronglySorted entry_le q;
  k_now : (0 <= t)%Q;
  k_future : forall e, e ∈ q -> (t <= e_time e)%Q;
  k_urgent : forall e, e ∈ q -> e_prio e = URGENT ->
    e_event e = Until \/ (e_time e == t)%Q;
  k_until : exists eu, eu ∈ q /\ e_event eu = Until /\
    e_prio eu = URGENT /\ (e_time eu == H)%Q;
  k_before : (t < H)%Q;
}.

(** ** What the processes wait for *)

(** The events that resume a process: its [Initialize] event, a
    [Timeout] it yielded, a request it yielded, or the end of a process
    it yielded. *)
Inductive token :=
| TInit (p : pid)
| TTimeout (p : pid)
| TRequest (r : Req)
| TProcess (s : pid).

Definition token_of (ev : Event) : option token :=
  match ev with
  | Initialize p => Some (TInit p)
  | Timeout p => Some (TTimeout p)
  | Request r => Some (TRequest r)
  | ProcessEv s _ => Some (TProcess s)
  | Release _ | Until => None
  end.

Definition tokens (q : list entry) : list token :=
  omap (fun e => token_of (e_event e)) q.

(** The process an event resumes by itself; the end of a process
    resumes its callbacks. *)
Definition target (t : token) : option pid :=
  match t with
  | TInit p | TTimeout p => Some p
  | TRequest r => Some (req_proc r)
  | TProcess _ => None
  end.

(** The event the generator of process [q] stands at. *)
Definition awaits (q : pid) (g : Gen) : option token :=
  match g with
  | generate_breakdown _ GB_start
  | send_raw_material _ _ SRM_start
  | change_shift CS_start
  | produce_product _ _ _ PP_start
  | process_product _ _ PPr_start => Some (TInit q)
  | generate_breakdown _ GB_yield_interval
  | generate_breakdown _ (GB_yield_repair _)
  | send_raw_material _ _ (SRM_yield _)
  | change_shift (CS_yield _)
  | process_product _ _ PPr_yield => Some (TTimeout q)
  | generate_breakdown _ (GB_yield_request r)
  | produce_product _ _ _ (PP_yield_request _ _ r _) => Some (TRequest r)
  | produce_product _ _ _ (PP_yield_process _ _ _ s) => Some (TProcess s)
  | _ => None
  end.

Definition awaited (P : list Process) (q : pid) : option token :=
  P !! q ≫= fun X => awaits q (generator X).

Definition live (P : list Process) (q : pid) : bool :=
  match P !! q with
  | Some X => negb (finished (generator X))
  | None => false
  end.

Definition waiters (P : list Process) (s : pid) : list pid :=
  from_option callbacks [] (P !! s).

(** The end of process [s] is still to be dispatched. *)
Definition outstanding (P : list Process) (Q : list entry) (s : pid)
    : Prop :=
  live P s = true \/ TProcess s ∈ tokens Q.

Definition await (aw : pid -> option token) (p : pid) (v : option token)
    : pid -> option token :=
  fun q => if decide (q = p) then v else aw q.

(** Every event of the queue, every queued request and every callback
    resumes a process that waits for exactly that, [aw] telling what
    each process waits for, and nothing resumes a process twice. *)
Record sync_ok (aw : pid -> option token) (P : list Process)
    (Q : list entry) (rs : gmap string Resource) : Prop := {
  s_nodup : NoDup (tokens Q);
  s_queue : forall t q, t ∈ tokens Q -> target t = Some q -> aw q = Some t;
  s_done : forall s, TProcess s ∈ tokens Q ->
    s < length P /\ live P s = false;
  s_wait : forall k R r, rs !! k = Some R -> r ∈ put_queue R ->
    resource r = k /\ aw (req_proc r) = Some (TRequest r) /\
    TRequest r ∉ tokens Q;
  s_wait_nodup : forall k R, rs !! k = Some R -> NoDup (put_queue R);
  s_link : forall s u, u ∈ waiters P s -> outstanding P Q s ->
    aw u = Some (TProcess s);
  s_single : forall s, length (waiters P s) <= 1;
  s_known : forall q t, aw q = Some t -> q < length P;
}.

Definition Sync (w : World) : Prop :=
  sync_ok (awaited (procs w)) (procs w) (queue w) (resources w).

(** Process [p] is running: nothing in the system resumes it. *)
Definition Running (p : pid) (w : World) : Prop :=
  sync_ok (await (awaited (procs w)) p None) (procs w) (queue w)
    (resources w).

(** ** Stages take time *)

(** Every processing time of the tables is at least [d]. *)
Definition slow (G : Globals) (d : Z) : bool :=
  forallb (fun by_type : string * dict range =>
             forallb (fun t : string * range => (d <=? rmin (snd t))%Z)
               (snd by_type))
    (PROCESSING_TIMES G).

(** The stages a unit has left behind. *)
Definition stages_done (g : Gen) : nat :=
  match g with
  | produce_product _ _ _ (PP_yield_request rest _ _ _)
  | produce_product _ _ _ (PP_yield_process rest _ _ _) => 3 - length rest
  | produce_product _ _ _ PP_returned => 4
  | _ => 0
  end.

(** The time [n] stages take at least. *)
Definition after (d : Z) (n : nat) : Q := inject_Z (d * Z.of_nat n).

(** The [process_product] process a unit waits for. *)
Definition sub_of (g : Gen) : option pid :=
  match g with
  | produce_product _ _ _ (PP_yield_process _ _ _ s) => Some s
  | _ => None
  end.

Definition is_stage (g : Gen) : bool :=
  match g with process_product _ _ _ => true | _ => false end.

(** The events on the way to the end of process [s]: its [Timeout] and
    its own successful end. *)
Definition ends (ev : Event) : option pid :=
  match ev with
  | Timeout s | ProcessEv s None => Some s
  | _ => None
  end.

(** No unit is ahead of the clock: it has left [n] stages behind only
    when [n] processing times have passed, and the stage it is in does
    not end before one more has. *)
Record timing_ok (d : Z) (t : Q) (Q : list entry) (gs : list Gen)
    : Prop := {
  t_now : (0 <= t)%Q;
  t_level : forall u g, gs !! u = Some g ->
    (after d (stages_done g) <= t)%Q;
  t_sub : forall u g s e, gs !! u = Some g -> sub_of g = Some s ->
    e ∈ Q -> ends (e_event e) = Some s ->
    (after d (S (stages_done g)) <= e_time e)%Q;
  t_kind : forall u g s, gs !! u = Some g -> sub_of g = Some s ->
    exists g', gs !! s = Some g' /\ is_stage g' = true;
  t_known : forall e s, e ∈ Q -> ends (e_event e) = Some s ->
    s < length gs;
}.

Definition Timing (d : Z) (w : World) : Prop :=
  timing_ok d (now w) (queue w) (gens w).

(** Process [p] is resumed in time: not before the stage it waits for
    has taken its time. *)
Definition in_time (d : Z) (t : Q) (gs : list Gen) (p : pid) : Prop :=
  forall g, gs !! p = Some g ->
    (forall s, sub_of g = Some s -> (after d (S (stages_done g)) <= t)%Q) /\
    (forall m pt u gu, g = process_product m pt PPr_yield ->
       gs !! u = Some gu -> sub_of gu = Some p ->
       (after d (S (stages_done gu)) <= t)%Q).

(** The events a resumption pushed onto the queue. *)
Inductive pushed_onto (Q : list entry) : list entry -> list entry -> Prop :=
| po_nil : pushed_onto Q [] Q
| po_cons e es Q' :
    pushed_onto Q es Q' -> pushed_onto Q (e :: es) (heappush e Q').

(** ** The run is on time *)

(** The state between two events of a run that ends at [H], in which
    every stage takes at least [d]. *)
Definition on_time (H : Q) (d : Z) (w : World) : Prop :=
  kernel_ok H (now w) (queue w) /\ Sync w /\ Timing d w /\
  counted (gens w) (stdout w) (PRODUCTS_PRODUCED w) (RAW_MATERIALS_USED w).

(** ** Before [env.run] *)

(** A generator that has not been resumed yet. *)
Definition not_started (g : Gen) : bool :=
  match g with
  | generate_breakdown _ GB_start
  | send_raw_material _ _ SRM_start
  | change_shift CS_start
  | produce_product _ _ _ PP_start
  | process_product _ _ PPr_start => true
  | _ => false
  end.

(** The state while [run_scenario] creates the machines and the
    processes: the clock is at zero and the queue holds the urgent
    [Initialize] events. *)
Definition booting (d : Z) (w : World) : Prop :=
  now w = 0%Q /\ StronglySorted entry_le (queue w) /\
  (forall e, e ∈ queue w ->
     (e_time e == 0)%Q /\ e_prio e = URGENT /\ e_event e <> Until) /\
  Sync w /\ Timing d w.

(** The computation [m] keeps the property [I], whatever it returns. *)
Definition keeps {A} (I : World -> Prop) (m : M A) : Prop :=
  forall w, I w -> I (snd (m w)).

(** ** The clock and the log *)

(** The stop events of the queue are dated [H]. *)
Definition until_at (H : Q) (q : list entry) : Prop :=
  forall e, e ∈ q -> e_event e = Until -> (e_time e == H)%Q.

(** The value of [env.now] a line formats: the time it was printed at. *)
Definition line_time (l : line) : Q :=
  match l with
  | L_entered t _ _ | L_at t _ _ _ _ | L_finished t _ _
  | L_breakdown t _ | L_repaired t _ | L_shift t _ => t
  end.

Definition earlier (a b : line) : Prop := (line_time a <= line_time b)%Q.

(** What was printed after [old] is in the order of its times, none of
    them negative, none of them after [t]. *)
Definition log_ok (old : list line) (t : Q) (out : list line) : Prop :=
  exists new, out = old ++ new /\ StronglySorted earlier new /\
    forall l, l ∈ new -> (0 <= line_time l <= t)%Q.

(** The state between two events of a run that ends at [H] and began
    with the output [old]. *)
Definition clock_ok (H : Q) (old : list line) (w : World) : Prop :=
  kernel_ok H (now w) (queue w) /\ until_at H (queue w) /\
  log_ok old (now w) (stdout w).

(** The time a line shows: [line_time] rounded to two decimals, in
    hundredths of a minute. *)
Definition line_stamp (l : line) : Z := hundredths (line_time l).

Definition not_after (a b : line) : Prop := (line_stamp a <= line_stamp b)%Z.

(** ** Capacities *)

(** Every pool has the capacity the configuration gives its machine
    type, a positive one, and no more users than that. *)
Definition within_capacity (num_machines : dict Z)
    (rs : gmap string Resource) : Prop :=
  forall k R, rs !! k = Some R ->
    dict_get num_machines k = Some (capacity R) /\
    (0 < capacity R)%Z /\
    (Z.of_nat (length (users R)) <= capacity R)%Z.

(** ** The sweep as one loop *)

(** The two nested loops of [perform_scenario_analysis] seen as one loop
    over the combinations. *)
Fixpoint combinations_loop (G : Globals) (simulation_time : Z) (fuel : nat)
    (l : list (dict Z * dict Z)) (results : list row) (w : World)
    : option (res (list row) * World) :=
  match l with
  | [] => Some (Ok results, w)
  | (num_machines, shift_schedule) :: rest =>
      match run_scenario G num_machines shift_schedule simulation_time fuel
              (Environment w) with
      | None => None
      | Some (Raise e, w') => Some (Raise e, w')
      | Some (Ok (products_produced, raw_materials_used), w') =>
          combinations_loop G simulation_time fuel rest
            (results ++
             [{| Num_Machines := num_machines;
                 Shift_Schedule := shift_schedule;
                 Products_Produced := products_produced;
                 Raw_Materials_Used := raw_materials_used |}]) w'
      end
  end.

(** ** Failures *)

(** The generator raised. *)
Definition failed (g : Gen) : bool :=
  match g with
  | generate_breakdown _ GB_raised
  | send_raw_material _ _ SRM_raised
  | change_shift CS_raised
  | produce_product _ _ _ PP_raised
  | process_product _ _ PPr_raised => true
  | _ => false
  end.

(** The failure of process [p] is in the queue. *)
Definition pending_failure (Q : list entry) (p : pid) : Prop :=
  exists e x, e ∈ Q /\ e_event e = ProcessEv p (Some x).

(** The generator function of a process. *)
Definition kind (g : Gen) : nat :=
  match g with
  | generate_breakdown _ _ => 0
  | send_raw_material _ _ _ => 1
  | change_shift _ => 2
  | produce_product _ _ _ _ => 3
  | process_product _ _ _ => 4
  end.

(** No failure is lost: the failure of a process is in the queue, dated
    now or before, or it was thrown into the unit that waited for the
    process, which failed in its turn; only the processes of
    [process_product] have callbacks, and these are units.  The process
    [ex], if any, is the one whose failure is being dispatched. *)
Record fail_ok (ex : option pid) (t : Q) (P : list Process)
    (Q : list entry) : Prop := {
  f_pending : forall p X, P !! p = Some X -> ex <> Some p ->
    failed (generator X) = true ->
    pending_failure Q p \/
    exists u Y, u ∈ callbacks X /\ P !! u = Some Y /\
      failed (generator Y) = true;
  f_time : forall e p f, e ∈ Q -> e_event e = ProcessEv p f ->
    (e_time e <= t)%Q;
  f_stage : forall p X, P !! p = Some X -> callbacks X <> [] ->
    is_stage (generator X) = true;
  f_unit : forall p X u, P !! p = Some X -> u ∈ callbacks X ->
    exists Y, P !! u = Some Y /\ is_unit (generator Y) = true;
}.

(** The state between two events of a run in which no failure is
    lost. *)
Definition sound (H : Q) (w : World) : Prop :=
  kernel_ok H (now w) (queue w) /\ Sync w /\
  fail_ok None (now w) (procs w) (queue w) /\ until_at H (queue w).

Definition kind_at (P : list Process) (p : pid) : option nat :=
  option_map (fun X => kind (generator X)) (P !! p).


(** ** The shifts *)

Definition shift_line (l : line) : option (Q * string) :=
  match l with
  | L_shift t s => Some (t, s)
  | _ => None
  end.

(** The shift lines of an output, in order: time and name. *)
Definition shift_lines (out : list line) : list (Q * string) :=
  omap shift_line out.

(** The shift after [n] changes, the first one being "Day". *)
Definition shift_after (n : nat) : string := Nat.iter n next_shift "Day".

(** The [i]-th line, counted from one, is dated [i] times eight hours and
    names the shift after [i] changes. *)
Definition on_schedule (ls : list (Q * string)) : Prop :=
  forall i t s, ls !! i = Some (t, s) ->
    (t == inject_Z (8 * 60 * Z.of_nat (S i)))%Q /\ s = shift_after (S i).

(** Where the shift process stands after [k] lines, and when its pending
    event is due. *)
Definition shift_at (p : pid) (pc : pc_change_shift) (k : nat)
    (Q : list entry) : Prop :=
  match pc with
  | CS_start =>
      k = 0 /\
      forall e, e ∈ Q -> e_event e = Initialize p -> (e_time e == 0)%Q
  | CS_yield s =>
      s = shift_after k /\
      forall e, e ∈ Q -> e_event e = Timeout p ->
        (e_time e == inject_Z (8 * 60 * Z.of_nat (S k)))%Q
  | CS_raised => True
  end.

Record shift_ok (old : list line) (w : World) : Prop := {
  sh_lines : exists new, stdout w = old ++ new /\
    on_schedule (shift_lines new) /\
    forall p pc, gens w !! p = Some (change_shift pc) ->
      shift_at p pc (length (shift_lines new)) (queue w);
  sh_one : forall p q pc pc',
    gens w !! p = Some (change_shift pc) ->
    gens w !! q = Some (change_shift pc') -> p = q;
}.

(** ** Requests that were granted *)

(** The request is among the users of a pool. *)
Definition in_use (rs : gmap string Resource) (r : Req) : Prop :=
  exists k R, rs !! k = Some R /\ r ∈ users R.

(** The request a generator was granted and has not given back: it
    stands in the body of its [with] statement, past [yield request]. *)
Definition granted_request (g : Gen) : option Req :=
  match g with
  | generate_breakdown _ (GB_yield_repair r)
  | produce_product _ _ _ (PP_yield_process _ _ r _) => Some r
  | _ => None
  end.

(** A request whose event is in the queue was granted and not given
    back, and so was the request of a process that stands in the body of
    its [with] statement: both are among the users of a pool. *)
Definition Granted (w : World) : Prop :=
  (forall e r, e ∈ queue w -> e_event e = Request r ->
     in_use (resources w) r) /\
  (forall p g r, gens w !! p = Some g -> granted_request g = Some r ->
     in_use (resources w) r).

(** ** The breakdown processes *)

(** The machine [Machine(env, k, quantity)] stands for. *)
Definition machine_of (G : Globals) (k : string) : option Machine :=
  match dict_get (MACHINE_BREAKDOWN_TIME G) k,
        dict_get (MACHINE_REPAIR_TIME G) k with
  | Some bt, Some rt =>
      Some {| machine_type := k; breakdown_time := bt; repair_time := rt |}
  | _, _ => None
  end.

(** The [i]-th process is the breakdown process of the [i]-th machine
    type of the configuration, and there is no other breakdown process. *)
Definition breakdowns_ok (G : Globals) (num_machines : dict Z)
    (gs : list Gen) : Prop :=
  (forall i k, dict_keys num_machines !! i = Some k ->
     exists self pc,
       machine_of G k = Some self /\
       gs !! i = Some (generate_breakdown self pc)) /\
  (forall p self pc, gs !! p = Some (generate_breakdown self pc) ->
     p < length num_machines).

(** * Proofs *)

(** ** Running the monad by hand *)

Ltac unfold_prims :=
  unfold timeout, process, request, Request_exit, _trigger_put, succeed,
    schedule, print, add_callback, randint, expovariate, one_over,
    subscript, on_exception, new_Resource, modify, gets, bind, ret,
    raise in *.

Ltac unfold_bodies :=
  unfold send, generate_breakdown_body, generate_breakdown_loop,
    send_raw_material_body, send_raw_material_loop, change_shift_body,
    produce_product_body, produce_product_loop, process_product_body in *.

Ltac wsimpl :=
  cbn [now eid queue procs resources next_req PRODUCTS_PRODUCED
       RAW_MATERIALS_USED rng stdout set_now set_heap set_procs
       set_resources set_next_req set_produced set_used set_rng set_stdout
       set_generator fst snd] in *.

(** Follows every path of a computation [H : m w = (r, w')]. *)
Ltac exec :=
  repeat (simpl in *; unfold_prims; simpl in *;
          first [ progress simplify_eq
                | match goal with
                  | H : context [match ?x with _ => _ end] |- _ =>
                      let E := fresh "E" in destruct x eqn:E
                  end ]);
  wsimpl.

(** ** Dictionaries *)

Lemma dict_get_keys {V} (d : dict V) k v :
  dict_get d k = Some v -> k ∈ dict_keys d.
Proof.
  induction d as [|[k' v'] d IH]; simpl; [discriminate|].
  destruct (String.eqb k k') eqn:E.
  - apply String.eqb_eq in E as ->. intros _. left.
  - intros H. right. by apply IH.
Qed.

Lemma dict_keys_get {V} (d : dict V) k :
  k ∈ dict_keys d -> is_Some (dict_get d k).
Proof.
  induction d as [|[k' v'] d IH]; simpl.
  - intros H. inversion H.
  - intros H. destruct (String.eqb k k') eqn:E; [eauto|].
    apply IH. inversion H; subst; [|assumption].
    by rewrite String.eqb_refl in E.
Qed.

(** ** Building the machines *)

Lemma Machine_init_frame G mt q w r w' :
  Machine_init G mt q w = (r, w') ->
  queue w' = queue w /\ eid w' = eid w /\ procs w' = procs w /\
  stdout w' = stdout w /\ now w' = now w /\ rng w' = rng w.
Proof. unfold Machine_init. intros H. exec; done. Qed.

Lemma build_machines_frame G nm keys w r w' :
  build_machines G nm keys w = (r, w') ->
  queue w' = queue w /\ eid w' = eid w /\ procs w' = procs w /\
  stdout w' = stdout w /\ now w' = now w /\ rng w' = rng w.
Proof.
  revert w r w'. induction keys as [|k keys IH]; simpl; intros w r w'.
  - intros [= <- <-]. done.
  - unfold bind at 1, subscript.
    destruct (dict_get nm k); [|intros [= <- <-]; done].
    unfold ret at 1, bind at 1.
    destruct (Machine_init G k z w) as [[m|e] w1] eqn:HM;
      apply Machine_init_frame in HM as (? & ? & ? & ? & ? & ?);
      [|intros [= <- <-]; done].
    unfold bind.
    destruct (build_machines G nm keys w1) as [[ms|e] w2] eqn:HB;
      apply IH in HB as (? & ? & ? & ? & ? & ?);
      intros [= <- <-]; repeat split; congruence.
Qed.

Lemma Machine_init_bad G mt q w :
  (q <= 0)%Z ->
  Machine_init G mt q w = (Raise (ValueError CapacityNotPositive), w).
Proof.
  intros Hq. unfold Machine_init, new_Resource, bind.
  destruct (q <=? 0)%Z eqn:E; [reflexivity | lia].
Qed.

Lemma Machine_init_raises G mt q w e w' :
  Machine_init G mt q w = (Raise e, w') ->
  e = ValueError CapacityNotPositive \/ e = KeyError mt.
Proof. unfold Machine_init. intros H. exec; auto. Qed.

Lemma Machine_init_known G mt q w e w' :
  known G mt -> Machine_init G mt q w = (Raise e, w') ->
  e = ValueError CapacityNotPositive.
Proof.
  intros [[bt Hbt] [rt Hrt]]. unfold Machine_init. intros H.
  exec; congruence.
Qed.

Lemma build_machines_raises G nm keys w e w' :
  build_machines G nm keys w = (Raise e, w') ->
  e = ValueError CapacityNotPositive \/ exists k, e = KeyError k.
Proof.
  revert w. induction keys as [|k keys IH]; simpl; intros w;
    [discriminate|].
  unfold bind at 1, subscript.
  destruct (dict_get nm k); [|intros [= <- <-]; eauto].
  unfold ret at 1, bind at 1.
  destruct (Machine_init G k z w) as [[m|e1] w1] eqn:HM.
  - unfold bind.
    destruct (build_machines G nm keys w1) as [[ms|e2] w2] eqn:HB;
      [discriminate|].
    intros [= <- <-]. eauto.
  - intros [= <- <-].
    apply Machine_init_raises in HM as [->| ->]; eauto.
Qed.

Lemma build_machines_bad G nm keys mt q w :
  mt ∈ keys -> dict_get nm mt = Some q -> (q <= 0)%Z ->
  exists e, fst (build_machines G nm keys w) = Raise e /\
    ((forall k, k ∈ keys -> is_Some (dict_get nm k) /\ known G k) ->
     e = ValueError CapacityNotPositive).
Proof.
  intros Hin Hget Hq. revert w.
  induction keys as [|k keys IH]; intros w; [inversion Hin|].
  simpl. unfold bind at 1, subscript.
  destruct (decide (k = mt)) as [->|Hne].
  - rewrite Hget. unfold ret at 1, bind at 1.
    rewrite Machine_init_bad by assumption. simpl. eauto.
  - assert (Hin' : mt ∈ keys) by (inversion Hin; subst; done).
    destruct (dict_get nm k) as [qk|] eqn:Hk.
    + unfold ret at 1, bind at 1.
      destruct (Machine_init G k qk w) as [[m|e] w1] eqn:HM.
      * unfold bind. destruct (IH Hin' w1) as (e & He & Hknown).
        destruct (build_machines G nm keys w1) as [[ms|e'] w2]; simpl in *;
          [discriminate|].
        injection He as ->. exists e. split; [done|].
        intros Hall. apply Hknown. intros k' Hk'. apply Hall. by right.
      * simpl. exists e. split; [done|]. intros Hall.
        eapply Machine_init_known; [|exact HM]. apply Hall. left.
    + simpl. eexists. split; [done|]. intros Hall.
      destruct (Hall k) as [[? ?] _]; [left | congruence].
Qed.

(** C2: a configuration that gives a machine type the capacity 0, or a
    negative one, is rejected before the run starts: [run_scenario] raises
    while it builds the machines, with no process created and no event
    scheduled.  The exception is the [ValueError] of [simpy.Resource]
    when the machine types of the configuration are those of the
    tables. *)
Theorem zero_capacity_is_rejected G num_machines shift_schedules
    simulation_time fuel w mt quantity :
  dict_get num_machines mt = Some quantity ->
  (quantity <= 0)%Z ->
  exists e w',
    run_scenario G num_machines shift_schedules simulation_time fuel
      (Environment w) = Some (Raise e, w') /\
    queue w' = [] /\ eid w' = 0 /\ procs w' = [] /\
    stdout w' = stdout w /\
    ((forall k, k ∈ dict_keys num_machines -> known G k) ->
     e = ValueError CapacityNotPositive).
Proof.
  intros Hget Hq.
  unfold run_scenario, start_scenario.
  unfold bind at 1. unfold modify at 1. unfold bind at 1. unfold modify at 1.
  unfold bind at 1.
  set (w0 := set_used 0 (set_produced 0 (Environment w))).
  destruct (build_machines_bad G num_machines (dict_keys num_machines) mt
              quantity w0 (dict_get_keys _ _ _ Hget) Hget Hq)
    as (e & He & Hknown).
  destruct (build_machines G num_machines (dict_keys num_machines) w0)
    as [[ms|e'] w1] eqn:HB; simpl in He; [discriminate|].
  injection He as ->.
  apply build_machines_frame in HB as (Hq1 & He1 & Hp1 & Ho1 & _ & _).
  exists e, w1. repeat split; try (rewrite ?Hq1, ?He1, ?Hp1, ?Ho1; reflexivity).
  intros Hall. apply Hknown. intros k Hk. split; [|by apply Hall].
  by apply dict_keys_get.
Qed.

Lemma zero_capacity_is_rejected_witness :
  exists e w',
    run_scenario main_globals
      [("Machining", 4); ("Assembly", 0); ("QualityControl", 2);
       ("Packaging", 1)]%Z [] SIM_TIME 0
      (Environment (at_import (constant_rng 1))) = Some (Raise e, w') /\
    queue w' = [] /\ eid w' = 0 /\ procs w' = [] /\
    stdout w' = stdout (at_import (constant_rng 1)) /\
    ((forall k, k ∈ dict_keys
        [("Machining", 4); ("Assembly", 0); ("QualityControl", 2);
         ("Packaging", 1)]%Z -> known main_globals k) ->
     e = ValueError CapacityNotPositive).
Proof.
  apply (zero_capacity_is_rejected main_globals _ [] SIM_TIME 0
           (at_import (constant_rng 1)) "Assembly" 0%Z).
  - reflexivity.
  - lia.
Defined.

(** ** Random draws and the seed *)

Lemma randint_empty a b w :
  (b < a)%Z -> randint a b w = (Raise (ValueError EmptyRange), w).
Proof. intros H. unfold randint. destruct (b <? a)%Z eqn:E; [done | lia]. Qed.

Lemma randint_in_range a b w :
  (a <= b)%Z ->
  exists n, (a <= n <= b)%Z /\
    randint a b w = (Ok n, set_rng (snd (next_draw (rng w))) w).
Proof.
  intros H. unfold randint. destruct (b <? a)%Z eqn:E; [lia|].
  simpl. eexists. split; [|reflexivity].
  pose proof (Z.mod_pos_bound (Qfloor (Qabs (oracle (rng w) (consumed (rng w)))))
                (b - a + 1)). lia.
Qed.

(** C1: the result of a run is determined by the configuration, the
    horizon and the state of the [random] module, and that state is not
    derived from [RANDOM_SEED]: the script never seeds the module.  Two
    executions that start from different states of the module, with the
    same configuration, the same horizon and the same [RANDOM_SEED], give
    different results. *)
Theorem seed_is_never_used :
  RANDOM_SEED = 42%Z /\
  let run g :=
    option_map fst
      (run_scenario main_globals NUM_MACHINES NUM_OPERATORS 60 100
         (Environment (at_import g))) in
  run (constant_rng 1) = Some (Ok (1, 5)%Z) /\
  run (constant_rng 2) = Some (Ok (0, 2)%Z).
Proof. split; [reflexivity|]. split; vm_compute; reflexivity. Qed.

(** ** Empty ranges *)

Lemma for_each_process_raises {A} (l : list A) (f : A -> M unit) w e w' :
  (forall x w e w', f x w = (Raise e, w') -> exists k, e = KeyError k) ->
  for_each l f w = (Raise e, w') -> exists k, e = KeyError k.
Proof.
  intros Hf. revert w. induction l as [|x l IH]; simpl; intros w.
  - discriminate.
  - unfold bind. destruct (f x w) as [[[]|e1] w1] eqn:Hx.
    + apply IH.
    + intros [= <- <-]. eauto.
Qed.

Lemma start_scenario_raises G nm ss w e w' :
  start_scenario G nm ss w = (Raise e, w') ->
  e = ValueError CapacityNotPositive \/ exists k, e = KeyError k.
Proof.
  unfold start_scenario.
  unfold bind at 1, modify at 1. unfold bind at 1, modify at 1.
  unfold bind at 1.
  destruct (build_machines _ _ _ _) as [[ms|e1] w1] eqn:HB.
  - unfold bind at 1.
    destruct (for_each (dict_keys ms) _ w1) as [[[]|e2] w2] eqn:H1.
    + unfold bind at 1.
      destruct (for_each (PRODUCT_TYPES G) _ w2) as [[[]|e3] w3] eqn:H2.
      * intros H. exec.
      * intros [= <- <-]. right.
        eapply for_each_process_raises; [|exact H2].
        intros x w4 e4 w5 H. exec.
    + intros [= <- <-]. right.
      eapply for_each_process_raises; [|exact H1].
      intros x w4 e4 w5 H. exec. eauto.
  - intros [= <- <-]. eapply build_machines_raises; eauto.
Qed.

(** C3 as stated fails: with repair ranges that have [min > max], the
    scenario is constructed without an exception, and the run of twenty
    minutes, in which no repair happens, returns its result. *)
Lemma empty_range_is_not_detected :
  has_empty_range bad_repair /\
  fst (start_scenario bad_repair one_each []
         (Environment (at_import (constant_rng 1)))) = Ok tt /\
  option_map fst
    (run_scenario bad_repair one_each [] 20 100
       (Environment (at_import (constant_rng 1))))
  = Some (Ok (0, 19)%Z).
Proof.
  split; [|split; vm_compute; reflexivity].
  right; left. exists "Machining", (Range 3 1). split; [reflexivity|].
  unfold empty_range. simpl. lia.
Qed.

(** C3, amended: a range with [min > max] is never what makes the
    construction of a scenario fail; [random.randint] raises [ValueError]
    for it, at the draw: in [process_product] for a processing time, in
    [generate_breakdown] for a breakdown interval and for a repair
    duration.  A range with [min <= max] gives a value of the range. *)
Theorem empty_range_raises_at_the_draw G :
  (forall nm ss w e w',
     start_scenario G nm ss w = (Raise e, w') -> e <> ValueError EmptyRange) /\
  (forall a b w,
     (b < a)%Z -> randint a b w = (Raise (ValueError EmptyRange), w)) /\
  (forall a b w,
     (a <= b)%Z -> exists n, fst (randint a b w) = Ok n /\ (a <= n <= b)%Z) /\
  (forall p self product_type d t w,
     dict_get (PROCESSING_TIMES G) product_type = Some d ->
     dict_get d (machine_type self) = Some t ->
     empty_range t ->
     process_product_body G p self product_type PPr_start None w
     = (Raise (ValueError EmptyRange), w)) /\
  (forall p self w,
     empty_range (breakdown_time self) ->
     generate_breakdown_body p self GB_start None w
     = (Raise (ValueError EmptyRange), w)) /\
  (forall p self r w,
     empty_range (repair_time self) ->
     fst (generate_breakdown_body p self (GB_yield_request r) None w)
     = Raise (ValueError EmptyRange)).
Proof.
  repeat split.
  - intros nm ss w e w' H ->.
    apply start_scenario_raises in H as [H|[k H]]; discriminate.
  - intros a b w. apply randint_empty.
  - intros a b w H. destruct (randint_in_range a b w H) as (n & Hn & ->).
    eauto.
  - intros p self pt d t w Hd Ht He.
    unfold process_product_body, bind at 1, subscript. rewrite Hd.
    unfold ret at 1, bind at 1. rewrite Ht. unfold ret at 1, bind at 1.
    by rewrite randint_empty.
  - intros p self w He.
    unfold generate_breakdown_body, generate_breakdown_loop, bind at 1.
    by rewrite randint_empty.
  - intros p self r w He.
    unfold generate_breakdown_body, on_exception, bind at 1, gets.
    unfold bind at 1, print, modify. unfold bind at 1.
    by rewrite randint_empty.
Qed.

Lemma empty_range_raises_at_the_draw_witness :
  process_product_body bad_repair 7
    {| machine_type := "Assembly"; breakdown_time := Range 21 21;
       repair_time := Range 3 1 |} "Widget" PPr_start None
    (at_import (constant_rng 1))
  = (Ok (Yield PPr_yield),
     snd (timeout 7 5 (set_rng (snd (next_draw (constant_rng 1)))
                         (at_import (constant_rng 1))))) /\
  fst (generate_breakdown_body 3
         {| machine_type := "Assembly"; breakdown_time := Range 21 21;
            repair_time := Range 3 1 |}
         (GB_yield_request {| req_id := 0; req_proc := 3;
                              resource := "Assembly" |}) None
         (at_import (constant_rng 1)))
  = Raise (ValueError EmptyRange).
Proof.
  split; [vm_compute; reflexivity|].
  apply (empty_range_raises_at_the_draw bad_repair).
  unfold empty_range. simpl. lia.
Defined.

(** ** The shift cycle *)

Lemma change_shift_frame p pc thrown w :
  let w' := snd (change_shift_body p pc thrown w) in
  resources w' = resources w /\ procs w' = procs w /\
  PRODUCTS_PRODUCED w' = PRODUCTS_PRODUCED w /\
  RAW_MATERIALS_USED w' = RAW_MATERIALS_USED w /\
  rng w' = rng w /\ now w' = now w.
Proof.
  destruct (change_shift_body p pc thrown w) as [r w'] eqn:H. simpl.
  unfold change_shift_body in H. destruct pc, thrown; exec; done.
Qed.

(** C8: the shift process sleeps eight hours, moves the label one step
    round the cycle Day, Evening, Night, prints it and sleeps again; a
    resumption of it leaves every resource, every other process, both
    counters and the [random] module as they were; and [run_scenario]
    does not look at the shift schedule it is given. *)
Theorem shift_cycle_changes_nothing :
  (next_shift "Day" = "Evening" /\ next_shift "Evening" = "Night" /\
   next_shift "Night" = "Day") /\
  (forall p w,
     change_shift_body p CS_start None w
     = (Ok (CS_yield "Day"),
        snd (schedule (Timeout p) NORMAL (inject_Z (8 * 60)) w))) /\
  (forall p current_shift w,
     change_shift_body p (CS_yield current_shift) None w
     = (Ok (CS_yield (next_shift current_shift)),
        snd (schedule (Timeout p) NORMAL (inject_Z (8 * 60))
               (set_stdout
                  (stdout w ++ [L_shift (now w) (next_shift current_shift)])
                  w)))) /\
  (forall G p pc thrown w,
     let w' := snd (_resume G p thrown w) in
     option_map generator (procs w !! p) = Some (change_shift pc) ->
     resources w' = resources w /\
     PRODUCTS_PRODUCED w' = PRODUCTS_PRODUCED w /\
     RAW_MATERIALS_USED w' = RAW_MATERIALS_USED w /\
     rng w' = rng w /\ now w' = now w /\
     forall q, q <> p -> procs w' !! q = procs w !! q) /\
  (forall G num_machines shift_schedules shift_schedules' simulation_time
          fuel w,
     run_scenario G num_machines shift_schedules simulation_time fuel w
     = run_scenario G num_machines shift_schedules' simulation_time fuel w).
Proof.
  split; [repeat split|]. split; [|split; [|split]].
  - intros p w. reflexivity.
  - intros p l w. reflexivity.
  - intros G p pc thrown w w' Hp. subst w'. unfold _resume.
    destruct (procs w !! p) as [P|] eqn:HP; [|discriminate].
    simpl in Hp. injection Hp as Hg. rewrite Hg.
    destruct (finished (change_shift pc)) eqn:Hfin; [done|].
    unfold send, bind.
    pose proof (change_shift_frame p pc thrown w) as Hframe.
    destruct (change_shift_body p pc thrown w) as [[pc'|e] w1]; simpl in *;
      destruct Hframe as (Hr & Hpr & Hpp & Hru & Hrng & Hnow);
      unfold ret, succeed, schedule, modify; wsimpl;
      repeat split; try assumption;
      intros q Hq; rewrite list_lookup_alter_ne by done; by rewrite Hpr.
  - reflexivity.
Qed.

Lemma shift_cycle_changes_nothing_witness :
  let w := world_of (run_scenario five_minutes one_each [] 20 100
                       (Environment (at_import (constant_rng 1)))) in
  let w' := snd (_resume five_minutes 5 None w) in
  resources w' = resources w /\
  PRODUCTS_PRODUCED w' = PRODUCTS_PRODUCED w /\
  RAW_MATERIALS_USED w' = RAW_MATERIALS_USED w /\
  rng w' = rng w /\ now w' = now w /\
  forall q, q <> 5 -> procs w' !! q = procs w !! q.
Proof.
  intros w w'.
  apply (proj1 (proj2 (proj2 (proj2 shift_cycle_changes_nothing)))
           five_minutes 5 (CS_yield "Day") None w).
  vm_compute. reflexivity.
Defined.
(** * Properties *)

(** ** The sweep *)

Definition inputs (r : row) : dict Z * dict Z :=
  (Num_Machines r, Shift_Schedule r).

(** The scenarios of a list of combinations run one after the other, each
    in a new environment, each leaving the interpreter to the next. *)
Inductive runs_in_order (G : Globals) (simulation_time : Z) (fuel : nat)
    : list (dict Z * dict Z) -> World -> list row -> World -> Prop :=
| runs_nil w : runs_in_order G simulation_time fuel [] w [] w
| runs_cons num_machines shift_schedule rest w produced used w1 rows w2 :
    run_scenario G num_machines shift_schedule simulation_time fuel
      (Environment w) = Some (Ok (produced, used), w1) ->
    runs_in_order G simulation_time fuel rest w1 rows w2 ->
    runs_in_order G simulation_time fuel
      ((num_machines, shift_schedule) :: rest) w
      ({| Num_Machines := num_machines; Shift_Schedule := shift_schedule;
          Products_Produced := produced; Raw_Materials_Used := used |}
       :: rows) w2.

Lemma runs_cons_inv G h fuel nm ss rest w rows w2 :
  runs_in_order G h fuel ((nm, ss) :: rest) w rows w2 ->
  exists produced used w1 rows',
    rows = {| Num_Machines := nm; Shift_Schedule := ss;
              Products_Produced := produced;
              Raw_Materials_Used := used |} :: rows' /\
    run_scenario G nm ss h fuel (Environment w)
      = Some (Ok (produced, used), w1) /\
    runs_in_order G h fuel rest w1 rows' w2.
Proof. inversion 1; subst. eauto 10. Qed.

Lemma runs_in_order_app G h fuel l1 l2 w rows1 w1 rows2 w2 :
  runs_in_order G h fuel l1 w rows1 w1 ->
  runs_in_order G h fuel l2 w1 rows2 w2 ->
  runs_in_order G h fuel (l1 ++ l2) w (rows1 ++ rows2) w2.
Proof.
  induction 1; intros H2; simpl; [assumption|].
  econstructor; eauto.
Qed.

Lemma runs_in_order_app_inv G h fuel l1 l2 w rows w2 :
  runs_in_order G h fuel (l1 ++ l2) w rows w2 ->
  exists rows1 w1 rows2,
    rows = rows1 ++ rows2 /\
    runs_in_order G h fuel l1 w rows1 w1 /\
    runs_in_order G h fuel l2 w1 rows2 w2.
Proof.
  revert w rows. induction l1 as [|[nm ss] l1 IH]; simpl; intros w rows H.
  - exists [], w, rows. repeat split; [constructor | assumption].
  - apply runs_cons_inv in H as (p & u & w1 & rows' & -> & Hrun & H).
    destruct (IH _ _ H) as (rows1 & w1' & rows2 & -> & Ha & Hb).
    eexists (_ :: rows1), w1', rows2. repeat split; [|assumption].
    econstructor; eauto.
Qed.

Lemma runs_in_order_inputs G h fuel l w rows w' :
  runs_in_order G h fuel l w rows w' -> map inputs rows = l.
Proof. induction 1; simpl; [reflexivity | by f_equal]. Qed.

Lemma inner_loop_spec G nm ssl h fuel acc w rows w' :
  inner_loop G nm ssl h fuel acc w = Some (Ok rows, w') <->
  exists rows0, rows = acc ++ rows0 /\
    runs_in_order G h fuel (map (pair nm) ssl) w rows0 w'.
Proof.
  revert acc w. induction ssl as [|ss ssl IH]; simpl; intros acc w.
  - split.
    + intros [= <- <-]. exists []. rewrite app_nil_r. split; [done | constructor].
    + intros (rows0 & -> & H). inversion H; subst. by rewrite app_nil_r.
  - destruct (run_scenario G nm ss h fuel (Environment w))
      as [[[[p u]|e] w1]|] eqn:Hrun.
    + rewrite IH. split.
      * intros (rows0 & -> & H). eexists (_ :: rows0).
        rewrite <- app_assoc. split; [reflexivity|].
        econstructor; eauto.
      * intros (rows0 & -> & H).
        apply runs_cons_inv in H as (p' & u' & w1' & rows' & -> & Hrun' & H).
        rewrite Hrun in Hrun'. injection Hrun' as <- <- <-.
        eexists. rewrite <- app_assoc. split; [reflexivity | assumption].
    + split; [discriminate|].
      intros (rows0 & -> & H).
      apply runs_cons_inv in H as (p' & u' & w1' & rows' & -> & Hrun' & H).
      congruence.
    + split; [discriminate|].
      intros (rows0 & -> & H).
      apply runs_cons_inv in H as (p' & u' & w1' & rows' & -> & Hrun' & H).
      congruence.
Qed.

Lemma outer_loop_spec G nml ssl h fuel acc w rows w' :
  outer_loop G nml ssl h fuel acc w = Some (Ok rows, w') <->
  exists rows0, rows = acc ++ rows0 /\
    runs_in_order G h fuel (list_prod nml ssl) w rows0 w'.
Proof.
  revert acc w. induction nml as [|nm nml IH]; simpl; intros acc w.
  - split.
    + intros [= <- <-]. exists []. rewrite app_nil_r. split; [done | constructor].
    + intros (rows0 & -> & H). inversion H; subst. by rewrite app_nil_r.
  - destruct (inner_loop G nm ssl h fuel acc w) as [[[rows1|e] w1]|] eqn:Hin.
    + apply inner_loop_spec in Hin as (rowsA & -> & HA).
      rewrite IH. split.
      * intros (rows0 & -> & H). exists (rowsA ++ rows0).
        rewrite app_assoc. split; [reflexivity|].
        eapply runs_in_order_app; eauto.
      * intros (rows0 & -> & H).
        apply runs_in_order_app_inv in H
          as (rowsA' & w1' & rowsB & -> & HA' & HB).
        assert (Hsame : inner_loop G nm ssl h fuel acc w
                        = Some (Ok (acc ++ rowsA'), w1'))
          by (apply inner_loop_spec; eauto).
        assert (Hsame' : inner_loop G nm ssl h fuel acc w
                         = Some (Ok (acc ++ rowsA), w1))
          by (apply inner_loop_spec; eauto).
        rewrite Hsame in Hsame'. injection Hsame' as Heq <-.
        apply app_inv_head in Heq as ->.
        exists rowsB. by rewrite app_assoc.
    + split; [discriminate|].
      intros (rows0 & -> & H).
      apply runs_in_order_app_inv in H
        as (rowsA' & w1' & rowsB & -> & HA' & HB).
      assert (Hsame : inner_loop G nm ssl h fuel acc w
                      = Some (Ok (acc ++ rowsA'), w1'))
        by (apply inner_loop_spec; eauto).
      congruence.
    + split; [discriminate|].
      intros (rows0 & -> & H).
      apply runs_in_order_app_inv in H
        as (rowsA' & w1' & rowsB & -> & HA' & HB).
      assert (Hsame : inner_loop G nm ssl h fuel acc w
                      = Some (Ok (acc ++ rowsA'), w1'))
        by (apply inner_loop_spec; eauto).
      congruence.
Qed.

(** C7: the sweep returns a list of rows exactly when the scenarios of the
    combinations, taken in the order of the Cartesian product (capacities
    outside, shift schedules inside), all return, each one run in a new
    environment; the list then has one row per combination, in that order,
    holding the inputs and the result of that run. *)
Theorem sweep_is_cartesian G num_machines_list shift_schedules_list
    simulation_time fuel w rows w' :
  perform_scenario_analysis G num_machines_list shift_schedules_list
    simulation_time fuel w = Some (Ok rows, w') <->
  map inputs rows = list_prod num_machines_list shift_schedules_list /\
  runs_in_order G simulation_time fuel
    (list_prod num_machines_list shift_schedules_list) w rows w'.
Proof.
  unfold perform_scenario_analysis. rewrite outer_loop_spec. split.
  - intros (rows0 & -> & H). simpl. split; [|assumption].
    eapply runs_in_order_inputs; eauto.
  - intros [_ H]. exists rows. done.
Qed.

(** The sweep on two capacities and two schedules, twenty minutes each. *)
Example sweep_two_by_two :
  let a := one_each in
  let b := [("Machining", 2); ("Assembly", 2); ("QualityControl", 2);
            ("Packaging", 2)]%Z in
  let day := [("Day", 15)]%Z in
  let night := [("Night", 5)]%Z in
  option_map (fun x => match fst x with
                       | Ok rows => map inputs rows
                       | Raise _ => []
                       end)
    (perform_scenario_analysis five_minutes [a; b] [day; night] 20 200
       (at_import (constant_rng 1)))
  = Some [(a, day); (a, night); (b, day); (b, night)].
Proof. vm_compute. reflexivity. Qed.

(** ** One resumption, seen from outside *)

Lemma gens_with_generator g p (l : list Process) :
  map generator (alter (with_generator g) p l) = <[p := g]> (map generator l).
Proof.
  revert p. induction l as [|P l IH]; intros [|p]; simpl; try done.
  f_equal. apply IH.
Qed.

Lemma gens_with_callback q p (l : list Process) :
  map generator (alter (with_callback q) p l) = map generator l.
Proof.
  revert p. induction l as [|P l IH]; intros [|p]; simpl; try done.
  f_equal. apply IH.
Qed.

Lemma insert_app_nil {A} p (x : A) (l : list A) :
  <[p := x]> l = <[p := x]> (l ++ []).
Proof. by rewrite app_nil_r. Qed.

Ltac effect_shape :=
  unfold gens; wsimpl;
  rewrite ?gens_with_generator, ?gens_with_callback, ?map_app; simpl;
  first [reflexivity | apply insert_app_nil].

Ltac effect_done :=
  do 5 eexists;
  split; [|split; [effect_shape|
           split; [wsimpl; rewrite <- ?app_assoc; simpl; try reflexivity;
                   symmetry; apply app_nil_r|
           split; [wsimpl; try reflexivity; symmetry; apply Z.add_0_r|
           split; [wsimpl; try reflexivity; symmetry; apply Z.add_0_r|
                   reflexivity]]]]].

Lemma resume_effect G p th w :
  match procs w !! p with
  | Some P =>
      if finished (generator P) then _resume G p th w = (Ok tt, w)
      else exists g' news lines dP dR,
        effect (generator P) g' news lines dP dR /\
        gens (snd (_resume G p th w)) = <[p := g']> (gens w ++ news) /\
        stdout (snd (_resume G p th w)) = stdout w ++ lines /\
        PRODUCTS_PRODUCED (snd (_resume G p th w))
          = (PRODUCTS_PRODUCED w + dP)%Z /\
        RAW_MATERIALS_USED (snd (_resume G p th w))
          = (RAW_MATERIALS_USED w + dR)%Z /\
        fst (_resume G p th w) = Ok tt
  | None => _resume G p th w = (Ok tt, w)
  end.
Proof.
  unfold _resume. destruct (procs w !! p) as [P|] eqn:HP; [|done].
  destruct (finished (generator P)) eqn:Hfin; [done|].
  destruct (send G p (generator P) th w) as [r w'] eqn:H.
  destruct (generator P) as [self pc|pt ms pc|pc|nm pt ms pc|self pt pc];
    destruct pc; try discriminate Hfin; destruct th; unfold_bodies.
  all: try match goal with
           | H : context [match ?rest with [] => _ | _ :: _ => _ end] |- _ =>
               is_var rest; destruct rest
           end.
  all: exec.
  all: effect_done.
  all: try (apply eff_quiet; [reflexivity | done | repeat constructor]).
  all: try (apply eff_first; auto).
  all: try (apply eff_spawn; auto).
  all: try (apply eff_arrival_thrown).
  all: try (apply eff_unit; [|repeat constructor]).
  all: try (constructor; eauto 10).
Qed.

Lemma trigger_put_frame key w :
  let w' := snd (_trigger_put key w) in
  fst (_trigger_put key w) = Ok tt /\
  procs w' = procs w /\ stdout w' = stdout w /\
  PRODUCTS_PRODUCED w' = PRODUCTS_PRODUCED w /\
  RAW_MATERIALS_USED w' = RAW_MATERIALS_USED w /\
  next_req w' = next_req w /\ now w' = now w /\ rng w' = rng w.
Proof.
  destruct (_trigger_put key w) as [r w'] eqn:H. simpl.
  exec; done.
Qed.

Lemma resume_ok G p th w : fst (_resume G p th w) = Ok tt.
Proof.
  pose proof (resume_effect G p th w) as H.
  destruct (procs w !! p) as [P|]; [|by rewrite H].
  destruct (finished (generator P)); [by rewrite H|].
  by destruct H as (? & ? & ? & ? & ? & ? & ? & ? & ? & ? & ?).
Qed.

(** A property of the world that the pop of an event, a resumption and
    [_trigger_put] keep is kept by every step. *)
Section WorldInvariant.

Variable G : Globals.
Variable I : World -> Prop.

Hypothesis I_pop : forall w t n q, I w -> I (set_now t (set_heap n q w)).
Hypothesis I_resume : forall p th w, I w -> I (snd (_resume G p th w)).
Hypothesis I_trigger : forall key w, I w -> I (snd (_trigger_put key w)).

Lemma run_callbacks_invariant waiters th w :
  I w ->
  fst (run_callbacks G waiters th w) = Ok tt /\
  I (snd (run_callbacks G waiters th w)).
Proof.
  revert w. induction waiters as [|c cs IH]; intros w Hw; simpl; [done|].
  unfold bind. pose proof (resume_ok G c th w) as Hok.
  pose proof (I_resume c th w Hw) as Hw1.
  destruct (_resume G c th w) as [[[]|e] w1]; simpl in *; [|discriminate].
  by apply IH.
Qed.

Lemma dispatch_invariant ev w : I w -> I (snd (dispatch G ev w)).
Proof.
  intros Hw. unfold dispatch. destruct ev as [p|p|r|r|p failure|].
  - unfold bind. pose proof (I_resume p None w Hw).
    by destruct (_resume G p None w) as [[[]|?] w1].
  - unfold bind. pose proof (I_resume p None w Hw).
    by destruct (_resume G p None w) as [[[]|?] w1].
  - unfold bind. pose proof (I_resume (req_proc r) None w Hw).
    by destruct (_resume G (req_proc r) None w) as [[[]|?] w1].
  - unfold bind. pose proof (I_trigger (resource r) w Hw).
    by destruct (_trigger_put (resource r) w) as [[[]|?] w1].
  - unfold bind at 1, gets. unfold bind at 1.
    set (waiters := from_option callbacks [] (procs w !! p)).
    destruct (run_callbacks_invariant waiters failure w Hw) as [Hok Hw1].
    destruct (run_callbacks G waiters failure w) as [[[]|?] w1];
      simpl in *; [|discriminate].
    by destruct failure, waiters.
  - done.
Qed.

Lemma step_invariant w : I w -> I (snd (step G w)).
Proof.
  intros Hw. unfold step. destruct (queue w) as [|e q]; [done|].
  by apply dispatch_invariant, I_pop.
Qed.

Lemma steps_invariant w w' : steps G w w' -> I w -> I w'.
Proof.
  induction 1 as [|w r w1 w2 Hstep _ IH]; [done|].
  intros Hw. apply IH. pose proof (step_invariant w Hw) as H.
  by rewrite Hstep in H.
Qed.

End WorldInvariant.

(** A property of the processes, the output and the two counters that
    every resumption keeps is kept by every step. *)
Section DataInvariant.

Variable G : Globals.
Variable I : list Gen -> list line -> Z -> Z -> Prop.

Definition on_world (w : World) : Prop :=
  I (gens w) (stdout w) (PRODUCTS_PRODUCED w) (RAW_MATERIALS_USED w).

Hypothesis I_effect : forall gs out P R p g g' news lines dP dR,
  I gs out P R -> gs !! p = Some g -> finished g = false ->
  effect g g' news lines dP dR ->
  I (<[p := g']> (gs ++ news)) (out ++ lines) (P + dP)%Z (R + dR)%Z.

Lemma resume_on_world p th w :
  on_world w -> on_world (snd (_resume G p th w)).
Proof.
  intros Hw. pose proof (resume_effect G p th w) as H.
  destruct (procs w !! p) as [P|] eqn:HP; [|by rewrite H].
  destruct (finished (generator P)) eqn:Hfin; [by rewrite H|].
  destruct H as (g' & news & lines & dP & dR & He & Hg & Ho & Hp & Hr & Hok).
  unfold on_world. rewrite Hg, Ho, Hp, Hr.
  assert (Hl : gens w !! p = Some (generator P)).
  { unfold gens. change (map generator (procs w)) with (generator <$> procs w).
    by rewrite list_lookup_fmap, HP. }
  eapply I_effect; eauto.
Qed.

Lemma steps_on_world w w' : steps G w w' -> on_world w -> on_world w'.
Proof.
  apply steps_invariant.
  - done.
  - apply resume_on_world.
  - intros key w0 Hw0.
    destruct (trigger_put_frame key w0) as (_ & Hp & Ho & Hpp & Hru & _).
    unfold on_world, gens. by rewrite Hp, Ho, Hpp, Hru.
Qed.

End DataInvariant.

(** ** From [run_scenario] to the states of the run *)

Lemma run_loop_steps G fuel w r w' :
  run_loop G fuel w = Some (r, w') -> steps G w w'.
Proof.
  revert w. induction fuel as [|fuel IH]; simpl; intros w; [discriminate|].
  destruct (step G w) as [[[]|e] w1] eqn:Hstep.
  - intros H. eapply steps_step; eauto.
  - intros [= <- <-]. eapply steps_step; [exact Hstep | constructor].
  - intros [= <- <-]. eapply steps_step; [exact Hstep | constructor].
Qed.

Lemma run_scenario_reachable G nm ss h fuel w0 p u w' :
  run_scenario G nm ss h fuel (Environment w0) = Some (Ok (p, u), w') ->
  reachable G nm ss h w0 w' /\
  p = PRODUCTS_PRODUCED w' /\ u = RAW_MATERIALS_USED w'.
Proof.
  unfold run_scenario.
  destruct (start_scenario G nm ss (Environment w0)) as [[[]|e] w1] eqn:Hs;
    [|discriminate].
  unfold run. destruct (Qle_bool (inject_Z h) (now w1)) eqn:Hh;
    [discriminate|].
  destruct (schedule Until URGENT (inject_Z h - now w1) w1) as [r2 w2] eqn:H2.
  destruct (run_loop G fuel w2) as [[[[]|e] w3]|] eqn:Hl; try discriminate.
  intros [= <- <- <-]. split; [|done].
  exists w2. split.
  - exists w1. by rewrite H2.
  - eapply run_loop_steps; eauto.
Qed.

(** ** The processes [run_scenario] starts *)

Lemma for_each_breakdowns ms keys w r w' :
  for_each keys (fun mt =>
    do m <- subscript ms mt;
    process (generate_breakdown m GB_start);; ret tt) w = (r, w') ->
  exists bds,
    gens w' = gens w ++ bds /\
    Forall (fun g => exists m, g = generate_breakdown m GB_start) bds /\
    stdout w' = stdout w /\
    PRODUCTS_PRODUCED w' = PRODUCTS_PRODUCED w /\
    RAW_MATERIALS_USED w' = RAW_MATERIALS_USED w /\
    resources w' = resources w /\ next_req w' = next_req w /\
    now w' = now w /\ rng w' = rng w.
Proof.
  revert w. induction keys as [|k keys IH]; simpl; intros w.
  - intros [= <- <-]. exists []. by rewrite app_nil_r.
  - unfold bind at 1.
    destruct ((do m <- subscript ms k;
               process (generate_breakdown m GB_start);; ret tt) w)
      as [[[]|e] w1] eqn:H1.
    + intros H. apply IH in H
        as (bds & Hg & Hb & Ho & Hp & Hr & Hres & Hn & Hnow & Hrng).
      exec. unfold gens in *. wsimpl. rewrite map_app in Hg. simpl in Hg.
      eexists (_ :: bds). rewrite Hg, <- app_assoc. simpl.
      repeat split; eauto.
    + intros [= <- <-]. exec. exists []. by rewrite app_nil_r.
Qed.

Lemma for_each_arrivals ms types w :
  exists w',
    for_each types (fun product_type =>
      process (send_raw_material product_type ms SRM_start);; ret tt) w
    = (Ok tt, w') /\
    gens w' = gens w
              ++ map (fun t => send_raw_material t ms SRM_start) types /\
    stdout w' = stdout w /\
    PRODUCTS_PRODUCED w' = PRODUCTS_PRODUCED w /\
    RAW_MATERIALS_USED w' = RAW_MATERIALS_USED w /\
    resources w' = resources w /\ next_req w' = next_req w /\
    now w' = now w /\ rng w' = rng w.
Proof.
  revert w. induction types as [|t types IH]; simpl; intros w.
  - exists w. by rewrite app_nil_r.
  - unfold bind at 1.
    destruct ((process (send_raw_material t ms SRM_start);; ret tt) w)
      as [r1 w1] eqn:H1.
    destruct (IH w1) as (w' & H & Hg & Ho & Hp & Hr & Hres & Hn & Hnow & Hrng).
    exec. exists w'. unfold gens in *. wsimpl.
    rewrite map_app in Hg. simpl in Hg.
    rewrite Hg, <- app_assoc. simpl. repeat split; eauto.
Qed.

Lemma Machine_init_resources G mt q w r w' :
  Machine_init G mt q w = (r, w') ->
  next_req w' = next_req w /\
  PRODUCTS_PRODUCED w' = PRODUCTS_PRODUCED w /\
  RAW_MATERIALS_USED w' = RAW_MATERIALS_USED w /\
  forall k R, resources w' !! k = Some R ->
    resources w !! k = Some R \/ (users R = [] /\ put_queue R = []).
Proof.
  unfold Machine_init. intros H. exec; repeat split; eauto.
  all: intros k R; destruct (decide (k = mt)) as [->|Hne];
    [rewrite lookup_insert_eq; intros [= <-]; auto
    |rewrite lookup_insert_ne by done; auto].
Qed.

Lemma build_machines_resources G nm keys w r w' :
  build_machines G nm keys w = (r, w') ->
  next_req w' = next_req w /\
  PRODUCTS_PRODUCED w' = PRODUCTS_PRODUCED w /\
  RAW_MATERIALS_USED w' = RAW_MATERIALS_USED w /\
  forall k R, resources w' !! k = Some R ->
    resources w !! k = Some R \/ (users R = [] /\ put_queue R = []).
Proof.
  revert w r w'. induction keys as [|k0 keys IH]; simpl; intros w r w'.
  - intros [= <- <-]. auto.
  - unfold bind at 1, subscript.
    destruct (dict_get nm k0); [|intros [= <- <-]; auto].
    unfold ret at 1, bind at 1.
    destruct (Machine_init G k0 z w) as [[m|e] w1] eqn:HM;
      apply Machine_init_resources in HM as (Hn1 & Hp1 & Hr1 & Hres1);
      [|intros [= <- <-]; auto].
    unfold bind.
    destruct (build_machines G nm keys w1) as [[ms|e] w2] eqn:HB;
      apply IH in HB as (Hn2 & Hp2 & Hr2 & Hres2);
      intros [= <- <-]; (repeat split; [congruence..|]);
      intros k R HR; destruct (Hres2 k R HR) as [H|H]; auto.
Qed.

(** The world [run_scenario] hands to [env.run]. *)
Lemma start_scenario_shape G nm ss w0 w1 :
  start_scenario G nm ss (Environment w0) = (Ok tt, w1) ->
  exists ms bds,
    gens w1 = bds ++ map (fun t => send_raw_material t ms SRM_start)
                       (PRODUCT_TYPES G) ++ [change_shift CS_start] /\
    Forall (fun g => exists m, g = generate_breakdown m GB_start) bds /\
    stdout w1 = stdout w0 /\
    PRODUCTS_PRODUCED w1 = 0%Z /\ RAW_MATERIALS_USED w1 = 0%Z /\
    next_req w1 = next_req w0 /\ now w1 = 0%Q /\
    forall k R, resources w1 !! k = Some R ->
      users R = [] /\ put_queue R = [].
Proof.
  unfold start_scenario.
  unfold bind at 1, modify at 1. unfold bind at 1, modify at 1.
  unfold bind at 1.
  destruct (build_machines _ _ _ _) as [[ms|e1] wa] eqn:HB; [|discriminate].
  pose proof (build_machines_frame _ _ _ _ _ _ HB)
    as (_ & _ & Hpa & Hoa & Hnowa & _).
  apply build_machines_resources in HB as (Hna & Hppa & Hrua & Hresa).
  unfold bind at 1.
  destruct (for_each (dict_keys ms) _ wa) as [[[]|e2] wb] eqn:H1;
    [|discriminate].
  apply for_each_breakdowns in H1
    as (bds & Hgb & Hbds & Hob & Hpb & Hrb & Hresb & Hnb & Hnowb & _).
  unfold bind at 1.
  destruct (for_each_arrivals ms (PRODUCT_TYPES G) wb)
    as (wc & H2 & Hgc & Hoc & Hpc & Hrc & Hresc & Hnc & Hnowc & _).
  rewrite H2. intros H. exec.
  exists ms, bds. unfold gens in *. wsimpl.
  rewrite map_app, Hgc, Hgb, Hpa. simpl. rewrite <- app_assoc.
  repeat split; try assumption; try congruence.
  all: try (rewrite Hresc, Hresb in H;
            destruct (Hresa _ _ H) as [H'|H']; [|tauto];
            simpl in H'; by rewrite lookup_empty in H').
Qed.

(** ** Conservation *)

Lemma count_app f l1 l2 : count f (l1 ++ l2) = count f l1 + count f l2.
Proof. induction l1 as [|g l1 IH]; simpl; [done|]. rewrite IH. lia. Qed.

Lemma count_insert f (l : list Gen) p g0 g :
  l !! p = Some g0 ->
  count f (<[p := g]> l) + (if f g0 then 1 else 0)
  = count f l + (if f g then 1 else 0).
Proof.
  revert p. induction l as [|x l IH]; intros [|p]; simpl; try done.
  - intros [= ->]. lia.
  - intros H. specialize (IH p H). lia.
Qed.

Lemma count_le f g (l : list Gen) :
  (forall x, f x = true -> g x = true) -> count f l <= count g l.
Proof.
  intros Hfg. induction l as [|x l IH]; simpl; [done|].
  destruct (f x) eqn:Hf; [rewrite (Hfg x Hf)|destruct (g x)]; lia.
Qed.

Lemma count_quiet news :
  Forall (fun g => quiet g = true) news ->
  count is_unit news = 0 /\ count is_completed news = 0.
Proof.
  induction 1 as [|g news Hg _ [IH1 IH2]]; simpl; [done|].
  rewrite IH1, IH2. by destruct g.
Qed.

Lemma counted_effect gs out P R p g g' news lines dP dR :
  counted gs out P R -> gs !! p = Some g -> finished g = false ->
  effect g g' news lines dP dR ->
  counted (<[p := g']> (gs ++ news)) (out ++ lines) (P + dP)%Z (R + dR)%Z.
Proof.
  intros [HP HR] Hp Hfin He. unfold counted.
  assert (Hp' : (gs ++ news) !! p = Some g)
    by (rewrite lookup_app_l; [done | by eapply lookup_lt_Some]).
  pose proof (count_insert is_unit _ _ _ g' Hp') as Hu.
  pose proof (count_insert is_completed _ _ _ g' Hp') as Hc.
  rewrite !count_app in Hu, Hc. subst P R.
  destruct He as [g g' lines Hq Hsame _|t ms pc' _|t ms i pc' _|t ms pc
                 |n pt ms pc pc' news lines dP Hstep Hnews]; simpl in *.
  - destruct g, g'; try discriminate; try contradiction; simpl in *; lia.
  - lia.
  - lia.
  - lia.
  - apply count_quiet in Hnews as [Hn1 Hn2]. rewrite Hn1, Hn2 in *.
    destruct Hstep as [t pc' [->|(?&?&?&?&?&->)]
                      |rest mt r st t wt pc' [->|(?&->)]
                      |mt' rest' mt r s pc' [->|(?&?&->)]
                      |mt r s t|pc]; simpl in *; try lia.
    destruct pc; simpl in *; try discriminate; lia.
Qed.

Lemma counted_at_start G nm ss h w0 w :
  run_starts G nm ss h w0 w -> on_world counted w.
Proof.
  intros (w1 & Hs & _ & ->).
  apply start_scenario_shape in Hs
    as (ms & bds & Hg & Hb & _ & HP & HR & _).
  unfold on_world, counted; simpl. unfold gens in *. wsimpl.
  rewrite Hg, HP, HR, !count_app. simpl.
  assert (Hz : forall f, (f = is_unit \/ f = is_completed) ->
             count f bds = 0 /\
             count f (map (fun t => send_raw_material t ms SRM_start)
                        (PRODUCT_TYPES G)) = 0).
  { intros f Hf. clear Hg. split.
    - induction Hb as [|g bds [m ->] _ IH]; simpl; [done|].
      rewrite IH. destruct Hf as [-> | ->]; reflexivity.
    - induction (PRODUCT_TYPES G) as [|t ts IH]; simpl; [done|].
      rewrite IH. destruct Hf as [-> | ->]; reflexivity. }
  destruct (Hz is_unit) as [-> ->]; [auto|].
  destruct (Hz is_completed) as [-> ->]; [auto|]. done.
Qed.

Lemma reachable_counted G nm ss h w0 w :
  reachable G nm ss h w0 w -> on_world counted w.
Proof.
  intros (wi & Hi & Hsteps).
  eapply steps_on_world; [|exact Hsteps|eapply counted_at_start; eauto].
  intros. eapply counted_effect; eauto.
Qed.

(** C5: between any two events of a run, [PRODUCTS_PRODUCED] is at most
    [RAW_MATERIALS_USED]: the first counts the units whose generator has
    returned, the second the units that were spawned.  So does the result
    [run_scenario] returns. *)
Theorem produced_at_most_used G num_machines shift_schedules
    simulation_time w0 :
  (forall w,
     reachable G num_machines shift_schedules simulation_time w0 w ->
     PRODUCTS_PRODUCED w = Z.of_nat (count is_completed (gens w)) /\
     RAW_MATERIALS_USED w = Z.of_nat (count is_unit (gens w)) /\
     (0 <= PRODUCTS_PRODUCED w <= RAW_MATERIALS_USED w)%Z) /\
  (forall fuel produced used w',
     run_scenario G num_machines shift_schedules simulation_time fuel
       (Environment w0) = Some (Ok (produced, used), w') ->
     (0 <= produced <= used)%Z).
Proof.
  assert (H : forall w,
    reachable G num_machines shift_schedules simulation_time w0 w ->
    PRODUCTS_PRODUCED w = Z.of_nat (count is_completed (gens w)) /\
    RAW_MATERIALS_USED w = Z.of_nat (count is_unit (gens w)) /\
    (0 <= PRODUCTS_PRODUCED w <= RAW_MATERIALS_USED w)%Z).
  { intros w Hw. apply reachable_counted in Hw as [HP HR].
    repeat split; try assumption; rewrite HP, ?HR; [lia|].
    apply inj_le, count_le. by intros [].  }
  split; [exact H|].
  intros fuel produced used w' Hrun.
  apply run_scenario_reachable in Hrun as (Hw & -> & ->).
  by apply H.
Qed.

Lemma produced_at_most_used_witness :
  let r := run_scenario five_minutes one_each [] 41 400
             (Environment (at_import (constant_rng 1))) in
  r = Some (Ok (4, 40)%Z, world_of r) /\ (0 <= 4 <= 40)%Z.
Proof.
  intros r.
  assert (Hr : r = Some (Ok (4, 40)%Z, world_of r))
    by (vm_compute; reflexivity).
  split; [exact Hr|].
  exact (proj2 (produced_at_most_used five_minutes one_each [] 41
                  (at_import (constant_rng 1))) 400 4%Z 40%Z (world_of r) Hr).
Defined.

(** ** Pools *)

Lemma elem_of_remove_first r x (l : list Req) :
  x ∈ list_remove_first r l -> x ∈ l.
Proof.
  induction l as [|y l IH]; simpl; [done|].
  destruct (decide (y = r)); [by right|].
  intros [->|H]%elem_of_cons; [left | right; auto].
Qed.

Lemma NoDup_remove_first r (l : list Req) :
  NoDup l -> NoDup (list_remove_first r l) /\ r ∉ list_remove_first r l.
Proof.
  induction 1 as [|y l Hy Hl [IH1 IH2]]; simpl.
  - split; [constructor | by intros ?%elem_of_nil].
  - destruct (decide (y = r)) as [->|Hne]; [done|]. split.
    + constructor; [|done]. intros H%elem_of_remove_first. done.
    + intros [->|H]%elem_of_cons; done.
Qed.

Lemma take_out_reqs r R :
  NoDup (users R ++ put_queue R) ->
  NoDup (users (take_out r R) ++ put_queue (take_out r R)) /\
  forall x, x ∈ users (take_out r R) ++ put_queue (take_out r R) ->
    x ∈ users R ++ put_queue R /\ x <> r.
Proof.
  intros [Hu [Hd Hq]]%NoDup_app. simpl.
  destruct (NoDup_remove_first r _ Hu) as [Hu1 Hu2].
  destruct (NoDup_remove_first r _ Hq) as [Hq1 Hq2].
  split.
  - apply NoDup_app. repeat split; [done| |done].
    intros x Hx%elem_of_remove_first Hx'%elem_of_remove_first.
    by apply (Hd x).
  - intros x [Hx|Hx]%elem_of_app.
    + split; [apply elem_of_app; left; by eapply elem_of_remove_first|].
      by intros ->.
    + split; [apply elem_of_app; right; by eapply elem_of_remove_first|].
      by intros ->.
Qed.

Lemma ok_ext rs n n' cur cur' :
  pools_ok rs n cur -> n <= n' ->
  (forall q x, cur q = Some x -> cur' q = Some x) ->
  pools_ok rs n' cur'.
Proof.
  intros [Hnd Hown] Hn Hcur. split; [done|].
  intros k r Hp. destruct (Hown k r Hp) as (? & ? & ?).
  repeat split; [done | lia | auto].
Qed.

Lemma ok_grant rs n cur key R r waiting :
  pools_ok rs n cur -> rs !! key = Some R -> put_queue R = r :: waiting ->
  pools_ok (<[key := grant r waiting R]> rs) n cur.
Proof.
  intros [Hnd Hown] HR Hq.
  assert (Hsame : users (grant r waiting R) ++ put_queue (grant r waiting R)
                  = users R ++ put_queue R)
    by (simpl; rewrite Hq, <- app_assoc; reflexivity).
  split.
  - intros k R'. destruct (decide (k = key)) as [->|Hne].
    + rewrite lookup_insert_eq. intros [= <-]. rewrite Hsame. eauto.
    + rewrite lookup_insert_ne by done. eauto.
  - intros k x (R' & HR' & Hx). apply Hown.
    destruct (decide (k = key)) as [->|Hne].
    + rewrite lookup_insert_eq in HR'. injection HR' as <-.
      rewrite Hsame in Hx. by exists R.
    + rewrite lookup_insert_ne in HR' by done. by exists R'.
Qed.

Lemma ok_enqueue rs n cur key p :
  pools_ok rs n cur -> cur p = None ->
  pools_ok
    (alter (enqueue {| req_id := n; req_proc := p; resource := key |}) key rs)
    (S n)
    (upd cur p (Some {| req_id := n; req_proc := p; resource := key |})).
Proof.
  intros [Hnd Hown] Hp.
  set (r := {| req_id := n; req_proc := p; resource := key |}).
  split.
  - intros k R'. destruct (decide (k = key)) as [->|Hne].
    + rewrite lookup_alter_eq. destruct (rs !! key) as [R|] eqn:HR;
        [|discriminate].
      intros [= <-]. simpl. rewrite app_assoc.
      apply NoDup_app. repeat split; [by eapply Hnd| |apply NoDup_singleton].
      intros x Hx ->%list_elem_of_singleton.
      destruct (Hown key r) as (_ & Hlt & _); [by exists R|]. simpl in Hlt. lia.
    + rewrite lookup_alter_ne by done. eauto.
  - intros k x (R' & HR' & Hx). unfold upd.
    destruct (decide (k = key)) as [->|Hne].
    + rewrite lookup_alter_eq in HR'.
      destruct (rs !! key) as [R|] eqn:HR; [|discriminate].
      injection HR' as <-. simpl in Hx. rewrite app_assoc in Hx.
      apply elem_of_app in Hx as [Hx| ->%list_elem_of_singleton].
      * destruct (Hown key x) as (? & ? & Hc); [by exists R|].
        repeat split; [done | lia|].
        destruct (decide (req_proc x = p)) as [<-|]; [congruence | done].
      * simpl. repeat split; [lia|]. by rewrite decide_True.
    + rewrite lookup_alter_ne in HR' by done.
      destruct (Hown k x) as (? & ? & Hc); [by exists R'|].
      repeat split; [done | lia|].
      destruct (decide (req_proc x = p)) as [<-|]; [congruence | done].
Qed.

Lemma ok_take_out rs n cur r0 :
  pools_ok rs n cur -> cur (req_proc r0) = Some r0 ->
  pools_ok (alter (take_out r0) (resource r0) rs) n
    (upd cur (req_proc r0) None).
Proof.
  intros [Hnd Hown] Hr0. split.
  - intros k R'. destruct (decide (k = resource r0)) as [->|Hne].
    + rewrite lookup_alter_eq.
      destruct (rs !! resource r0) as [R|] eqn:HR; [|discriminate].
      intros [= <-]. apply take_out_reqs. eauto.
    + rewrite lookup_alter_ne by done. eauto.
  - intros k x (R' & HR' & Hx). unfold upd.
    assert (Hold : pending rs k x /\ x <> r0).
    { destruct (decide (k = resource r0)) as [->|Hne].
      - rewrite lookup_alter_eq in HR'.
        destruct (rs !! resource r0) as [R|] eqn:HR; [|discriminate].
        injection HR' as <-.
        apply take_out_reqs in Hx as [Hx Hne]; [|eauto].
        split; [by exists R | done].
      - rewrite lookup_alter_ne in HR' by done.
        split; [by exists R'|]. intros ->.
        destruct (Hown k r0) as (Hk & _); [by exists R'|]. congruence. }
    destruct Hold as [Hpend Hne].
    destruct (Hown k x Hpend) as (? & ? & Hc).
    repeat split; [done..|].
    destruct (decide (req_proc x = req_proc r0)) as [Heq|]; [|done].
    rewrite Heq in Hc. congruence.
Qed.

Lemma current_insert_eq gs news p g :
  p < length gs -> current (<[p := g]> (gs ++ news)) p = current_request g.
Proof.
  intros Hp. unfold current.
  rewrite list_lookup_insert_eq by (rewrite length_app; lia). reflexivity.
Qed.

Lemma current_insert_ne gs news p q g x :
  q <> p -> current gs q = Some x ->
  current (<[p := g]> (gs ++ news)) q = Some x.
Proof.
  intros Hne. unfold current. rewrite list_lookup_insert_ne by done.
  destruct (gs !! q) as [g0|] eqn:Hq; [|discriminate].
  rewrite lookup_app_l by (by eapply lookup_lt_Some). by rewrite Hq.
Qed.

Lemma own_request_update gs p g g' news :
  own_request gs -> gs !! p = Some g ->
  (forall r, current_request g' = Some r ->
     req_proc r = p /\ pool_of g' = Some (resource r)) ->
  Forall (fun x => current_request x = None) news ->
  own_request (<[p := g']> (gs ++ news)).
Proof.
  intros Hown Hp Hg' Hnews q x r Hq Hr.
  destruct (decide (q = p)) as [->|Hne].
  - rewrite list_lookup_insert_eq in Hq
      by (rewrite length_app; apply lookup_lt_Some in Hp; lia).
    injection Hq as <-. auto.
  - rewrite list_lookup_insert_ne in Hq by done.
    apply lookup_app_Some in Hq as [Hq|[_ Hq]]; [eauto|].
    apply list_elem_of_lookup_2 in Hq.
    rewrite Forall_forall in Hnews. rewrite (Hnews x Hq) in Hr. discriminate.
Qed.

Ltac pools_chain Hok :=
  repeat first
    [ exact Hok
    | eapply ok_grant; [|eassumption|eassumption]
    | eapply ok_enqueue
    | eapply ok_take_out ].

Lemma resume_pools G p th w :
  Pools w -> Pools (snd (_resume G p th w)).
Proof.
  intros [Hok Hown]. unfold _resume.
  destruct (procs w !! p) as [P|] eqn:HP; [|done].
  destruct (finished (generator P)) eqn:Hfin; [done|].
  assert (Hg : gens w !! p = Some (generator P)).
  { unfold gens. change (map generator (procs w)) with (generator <$> procs w).
    by rewrite list_lookup_fmap, HP. }
  assert (Hlen : p < length (gens w)) by (by eapply lookup_lt_Some).
  specialize (Hown p (generator P)) as Hself.
  destruct (send G p (generator P) th w) as [r w'] eqn:H.
  destruct (generator P) as [self pc|pt ms pc|pc|nm pt ms pc|self pt pc];
    destruct pc; try discriminate Hfin; destruct th; unfold_bodies.
  all: try match goal with
           | H : context [match ?rest with [] => _ | _ :: _ => _ end] |- _ =>
               is_var rest; destruct rest
           end.
  all: exec.
  all: try (destruct (Hself _ Hg eq_refl) as [Hproc Hpool]; simpl in Hpool).
  all: unfold Pools, gens; wsimpl;
    rewrite ?gens_with_generator, ?gens_with_callback, ?map_app; simpl;
    repeat match goal with
           | |- context [map generator (procs ?x)] =>
               change (map generator (procs x)) with (gens x)
           end.
  all: try match goal with
           | |- context [<[?q := ?g]> (gens ?x)] =>
               rewrite (insert_app_nil q g (gens x))
           end.
  all: split;
    [ eapply ok_ext; [pools_chain Hok|..]
    | eapply own_request_update; [exact Hown|exact Hg| |repeat constructor] ].
  all: try lia.
  all: try (let H := fresh "Hcur" in
            intros ? H; simpl in H; simplify_eq; simpl;
            repeat match goal with H : dict_get _ _ = _ |- _ => rewrite H end;
            simpl; split; congruence).
  all: try (unfold upd, current; rewrite ?Hproc, ?Hg; simpl;
            repeat case_decide; congruence).
  all: try (intros q x Hq; unfold upd in Hq; rewrite ?Hproc in Hq;
            destruct (decide (q = p)) as [->|Hne];
            [ rewrite current_insert_eq by exact Hlen;
              unfold current in Hq; rewrite ?Hg in Hq; simpl in *;
              repeat case_decide; congruence
            | apply current_insert_ne; [exact Hne|];
              repeat case_decide; congruence ]).
Qed.

Lemma trigger_put_pools key w : Pools w -> Pools (snd (_trigger_put key w)).
Proof.
  intros [Hok Hown]. destruct (_trigger_put key w) as [r w'] eqn:H. simpl.
  exec; try done. split; [|done].
  unfold gens; wsimpl. eapply ok_grant; eauto.
Qed.

Lemma pools_at_start G nm ss h w0 w : run_starts G nm ss h w0 w -> Pools w.
Proof.
  intros (w1 & Hs & _ & ->).
  apply start_scenario_shape in Hs
    as (ms & bds & Hg & Hb & _ & _ & _ & _ & _ & Hres).
  split.
  - split.
    + intros k R HR. destruct (Hres k R HR) as [-> ->]. constructor.
    + intros k r (R & HR & Hr). destruct (Hres k R HR) as [Hu Hq].
      rewrite Hu, Hq in Hr. by apply elem_of_nil in Hr.
  - intros p g r Hp Hr. exfalso.
    change (gens (snd (schedule Until URGENT (inject_Z h - now w1) w1)))
      with (gens w1) in Hp.
    rewrite Hg in Hp. apply list_elem_of_lookup_2 in Hp.
    rewrite !elem_of_app in Hp. destruct Hp as [Hp|[Hp|Hp]].
    + rewrite Forall_forall in Hb. destruct (Hb g Hp) as [m ->]. discriminate.
    + apply list_elem_of_fmap in Hp as (t & -> & _). discriminate.
    + apply list_elem_of_singleton in Hp as ->. discriminate.
Qed.

Lemma reachable_pools G nm ss h w0 w : reachable G nm ss h w0 w -> Pools w.
Proof.
  intros (wi & Hi & Hsteps).
  eapply steps_invariant; [| | |exact Hsteps|eapply pools_at_start; eauto].
  - done.
  - apply resume_pools.
  - apply trigger_put_pools.
Qed.


(** ** Names and stages *)

Lemma omap_lookup_inj {A B} (f : A -> option B) (l : list A) p q x y v :
  NoDup (omap f l) -> l !! p = Some x -> l !! q = Some y ->
  f x = Some v -> f y = Some v -> p = q.
Proof.
  revert p q. induction l as [|a l IH]; intros p q Hnd Hp Hq Hx Hy;
    [done|].
  simpl in Hnd.
  assert (Hin : forall i z, l !! i = Some z -> f z = Some v -> v ∈ omap f l).
  { intros i z Hi Hz. apply list_elem_of_omap. exists z.
    split; [by eapply list_elem_of_lookup_2 | done]. }
  destruct p as [|p], q as [|q]; simpl in *; simplify_eq.
  - done.
  - rewrite Hx in Hnd. apply NoDup_cons in Hnd as [Hnin _].
    exfalso. apply Hnin. eauto.
  - rewrite Hy in Hnd. apply NoDup_cons in Hnd as [Hnin _].
    exfalso. apply Hnin. eauto.
  - f_equal. eapply IH; eauto.
    destruct (f a); [by apply NoDup_cons in Hnd as [_ ?] | done].
Qed.

Lemma omap_insert_same {A B} (f : A -> option B) (l : list A) p x y :
  l !! p = Some x -> f y = f x -> omap f (<[p := y]> l) = omap f l.
Proof.
  revert p. induction l as [|a l IH]; intros [|p]; simpl; try done.
  - intros [= ->] ->. done.
  - intros Hp Hf. specialize (IH p Hp Hf).
    destruct (f a); [f_equal|]; exact IH.
Qed.

Lemma same_code_names g g' :
  same_code g g' ->
  arrival_type g' = arrival_type g /\ unit_name g' = unit_name g /\
  forall T, unit_id T g' = unit_id T g.
Proof.
  destruct g, g'; simpl; try done.
  - by intros [-> ->].
  - by intros (-> & -> & ->).
Qed.

Lemma effect_same_code g g' news lines dP dR :
  effect g g' news lines dP dR -> same_code g g'.
Proof. destruct 1; simpl; auto. Qed.

Lemma effect_news g g' news lines dP dR :
  effect g g' news lines dP dR ->
  omap arrival_type news = [] /\
  Forall (fun x => quiet x = true \/
                   exists t ms i, g = send_raw_material t ms (SRM_yield i) /\
                     x = produce_product (t, i) t ms PP_start) news.
Proof.
  destruct 1 as [| |t ms i pc' _| |n pt ms pc pc' news lines dP _ Hnews];
    simpl.
  - split; [done | constructor].
  - split; [done | constructor].
  - split; [done|]. constructor; [|constructor]. right. eauto.
  - split; [done | constructor].
  - split.
    + induction Hnews as [|x news Hx _ IH]; simpl; [done|].
      destruct x; try discriminate; exact IH.
    + eapply Forall_impl; [exact Hnews|]. simpl. auto.
Qed.

Lemma visited_app n out lines :
  visited n (out ++ lines) = visited n out ++ visited n lines.
Proof. apply omap_app. Qed.

Lemma visited_other n lines :
  (forall l, l ∈ lines -> line_name l <> Some n) -> visited n lines = [].
Proof.
  induction lines as [|l lines IH]; simpl; intros H; [done|].
  rewrite (IH (fun l' Hl' => H l' (list_elem_of_further _ _ _ Hl'))).
  specialize (H l (list_elem_of_here _ _)).
  destruct l; simpl in *; try done. by case_decide; [subst|].
Qed.

Lemma visited_nonempty n out :
  visited n out <> [] -> exists l, l ∈ out /\ line_name l = Some n.
Proof.
  induction out as [|l out IH]; simpl; [done|].
  destruct (stage_of n l) eqn:Hl.
  - intros _. exists l. split; [left|].
    destruct l; simpl in *; try discriminate. by case_decide; subst.
  - intros H. destruct (IH H) as (l' & Hl' & Hn). exists l'.
    split; [by right | done].
Qed.

Lemma unit_step_lines n pt pc pc' lines dP :
  unit_step n pt pc pc' lines dP ->
  forall l, l ∈ lines -> line_name l = Some n.
Proof.
  destruct 1; intros l Hl;
    try (apply list_elem_of_singleton in Hl as ->; reflexivity);
    by apply elem_of_nil in Hl.
Qed.

Lemma unit_step_stage n pt pc pc' lines dP vis :
  unit_step n pt pc pc' lines dP ->
  stage_state pc vis ->
  stage_state pc' (vis ++ visited n lines).
Proof.
  destruct 1 as [t pc' [->|(mt & rest & r & st & HS & ->)]
                |rest mt r st t wt pc' [->|(s & ->)]
                |mt' rest' mt r s pc' [->|(r' & st' & ->)]
                |mt r s t|pc]; simpl; rewrite ?decide_True by done;
    simpl; rewrite ?app_nil_r; intros H.
  - subst vis. by exists STAGES.
  - subst vis. done.
  - exists rest. by rewrite <- app_assoc.
  - split; [eauto|]. by rewrite <- app_assoc.
  - destruct H as [_ H]. eauto.
  - by destruct H as [_ H].
  - by destruct H as [_ H].
  - destruct pc; simpl in H.
    + subst vis. by exists STAGES.
    + eauto.
    + destruct H as [_ H]. eauto.
    + exists []. by rewrite app_nil_r.
    + done.
Qed.

Lemma quiet_no_names news T :
  Forall (fun g => quiet g = true) news ->
  ids T news = [] /\ omap unit_name news = [] /\
  omap arrival_type news = [].
Proof.
  induction 1 as [|x news Hx _ (IH1 & IH2 & IH3)]; simpl; [done|].
  destruct x; try discriminate; auto.
Qed.

Lemma effect_lines_quiet g g' news lines dP dR :
  effect g g' news lines dP dR -> is_unit g = false ->
  forall l, l ∈ lines -> line_name l = None.
Proof.
  destruct 1 as [g g' lines _ _ Hl| | | |]; simpl; intros Hu l Hin;
    try (by apply elem_of_nil in Hin); [|discriminate].
  rewrite Forall_forall in Hl. specialize (Hl l Hin). by destruct l.
Qed.

Lemma effect_unit_inv n pt ms pc g' news lines dP dR :
  effect (produce_product n pt ms pc) g' news lines dP dR ->
  exists pc', g' = produce_product n pt ms pc' /\
    unit_step n pt pc pc' lines dP /\
    Forall (fun g => quiet g = true) news.
Proof. inversion 1; subst; [discriminate | eauto]. Qed.

Lemma effect_to_unit g n pt ms pc' news lines dP dR :
  effect g (produce_product n pt ms pc') news lines dP dR ->
  exists pc, g = produce_product n pt ms pc.
Proof.
  intros H. apply effect_same_code in H.
  destruct g; simpl in H; try done. destruct H as (-> & -> & ->). eauto.
Qed.

Lemma effect_ids_news T g g' news lines dP dR :
  effect g g' news lines dP dR ->
  ids T news = [] \/
  exists ms i, g = send_raw_material T ms (SRM_yield i) /\
    ids T news = [i] /\ lines = [].
Proof.
  destruct 1 as [| |t ms i pc' _| |n pt ms pc pc' news lines dP _ Hnews];
    simpl; auto.
  - destruct (decide (t = T)) as [->|Hne]; [right; eauto | by left].
  - left. by apply quiet_no_names.
Qed.

Lemma effect_arrival_inv g T ms pc' news lines dP dR :
  effect g (send_raw_material T ms pc') news lines dP dR ->
  exists pc, g = send_raw_material T ms pc /\
    ((pc = SRM_start /\ news = [] /\
      (pc' = SRM_yield 1 \/ pc' = SRM_raised)) \/
     (exists i, pc = SRM_yield i /\
        news = [produce_product (T, i) T ms PP_start] /\
        (pc' = SRM_yield (i + 1) \/ pc' = SRM_raised)) \/
     (pc' = SRM_raised /\ news = [])).
Proof.
  inversion 1; subst.
  - destruct g; simpl in *; try done.
  - eauto 10.
  - eauto 10.
  - eauto 10.
Qed.

Lemma effect_news_unit g g' news lines dP dR n pt ms pc :
  effect g g' news lines dP dR ->
  produce_product n pt ms pc ∈ news ->
  exists i, g = send_raw_material pt ms (SRM_yield i) /\ n = (pt, i) /\
    pc = PP_start /\ lines = [] /\
    news = [produce_product n pt ms pc].
Proof.
  destruct 1 as [| |t ms' i pc' _| |n' pt' ms' pc0 pc' news lines dP _ Hnews];
    intros Hin; try (by apply elem_of_nil in Hin).
  - apply list_elem_of_singleton in Hin. simplify_eq. eauto 10.
  - rewrite Forall_forall in Hnews. by specialize (Hnews _ Hin).
Qed.

Lemma lookup_after {A} (gs news : list A) p q g' x :
  p < length gs ->
  (<[p := g']> (gs ++ news)) !! q = Some x ->
  (q = p /\ x = g') \/ (q <> p /\ gs !! q = Some x) \/
  (q <> p /\ x ∈ news).
Proof.
  intros Hlen Hq. destruct (decide (q = p)) as [->|Hne].
  - rewrite list_lookup_insert_eq in Hq by (rewrite length_app; lia).
    left. by injection Hq as <-.
  - rewrite list_lookup_insert_ne in Hq by done. right.
    apply lookup_app_Some in Hq as [Hq|[_ Hq]]; [by left|].
    right. split; [done|]. by eapply list_elem_of_lookup_2.
Qed.

Lemma omap_after {A B} (f : A -> option B) (gs news : list A) p g g' :
  gs !! p = Some g -> f g' = f g ->
  omap f (<[p := g']> (gs ++ news)) = omap f gs ++ omap f news.
Proof.
  intros Hp Hf. rewrite <- omap_app. eapply omap_insert_same; [|exact Hf].
  rewrite lookup_app_l; [done | by eapply lookup_lt_Some].
Qed.

Lemma unit_unique gs out p q n pt ms pc pt' ms' pc' :
  named gs out ->
  gs !! p = Some (produce_product n pt ms pc) ->
  gs !! q = Some (produce_product n pt' ms' pc') -> p = q.
Proof.
  intros Hn Hp Hq. destruct n as [T i].
  eapply (omap_lookup_inj (unit_id T) gs p q _ _ i); eauto.
  - change (omap (unit_id T) gs) with (ids T gs).
    rewrite (nm_ids _ _ Hn T). apply NoDup_seqZ.
  - simpl. by rewrite decide_True.
  - simpl. by rewrite decide_True.
Qed.

Lemma named_fresh gs out p T ms i :
  named gs out ->
  gs !! p = Some (send_raw_material T ms (SRM_yield i)) ->
  visited (T, i) out = [] /\ (T, i) ∉ omap unit_name gs.
Proof.
  intros Hn Hp.
  assert (Hnin : (T, i) ∉ omap unit_name gs).
  { intros Hin. apply list_elem_of_omap in Hin as (x & Hx & Hname).
    destruct x; try discriminate. simpl in Hname. injection Hname as ->.
    assert (Hi : i ∈ ids T gs).
    { apply list_elem_of_omap. eexists. split; [exact Hx|].
      simpl. by rewrite decide_True. }
    rewrite (nm_ids _ _ Hn T) in Hi. apply elem_of_seqZ in Hi.
    pose proof (nm_next _ _ Hn _ _ _ _ Hp) as Hnext. simpl in Hnext. lia. }
  split; [|done].
  destruct (visited (T, i) out) as [|v vs] eqn:Hv; [done|]. exfalso.
  destruct (visited_nonempty (T, i) out) as (l & Hl & Hname);
    [by rewrite Hv|].
  apply Hnin. eapply nm_lines; eauto.
Qed.

Lemma named_effect gs out p g g' news lines dP dR :
  named gs out -> gs !! p = Some g -> finished g = false ->
  effect g g' news lines dP dR ->
  named (<[p := g']> (gs ++ news)) (out ++ lines).
Proof.
  intros Hn Hp Hfin He.
  assert (Hlen : p < length gs) by (by eapply lookup_lt_Some).
  pose proof (effect_same_code _ _ _ _ _ _ He) as Hsc.
  destruct (same_code_names _ _ Hsc) as (Ha & Hu & Hi).
  assert (Hids : forall T,
    ids T (<[p := g']> (gs ++ news)) = ids T gs ++ ids T news).
  { intros T. exact (omap_after _ _ _ _ _ _ Hp (Hi T)). }
  constructor.
  - rewrite (omap_after _ _ _ _ _ _ Hp Ha).
    rewrite (proj1 (effect_news _ _ _ _ _ _ He)), app_nil_r. apply Hn.
  - intros T. rewrite Hids, length_app.
    destruct (effect_ids_news T _ _ _ _ _ _ He)
      as [->|(ms & i & -> & -> & _)].
    + rewrite app_nil_r. simpl. rewrite Nat.add_0_r. apply Hn.
    + simpl. pose proof (nm_next _ _ Hn _ _ _ _ Hp) as Hnext.
      simpl in Hnext.
      rewrite Nat.add_1_r, seqZ_S, <- (nm_ids _ _ Hn T).
      f_equal. f_equal. lia.
  - intros q T ms pc Hq. rewrite Hids, length_app.
    apply lookup_after in Hq as [[-> <-]|[[Hne Hq]|[Hne Hq]]]; [| |
      |done].
    + apply effect_arrival_inv in He as (pc0 & -> & Hcases).
      pose proof (nm_next _ _ Hn _ _ _ _ Hp) as Hnext.
      destruct Hcases as [(-> & -> & Hpc')|[(i & -> & -> & Hpc')|(-> & ->)]];
        simpl in *.
      * rewrite Nat.add_0_r. destruct Hpc' as [-> | ->]; simpl; [lia|done].
      * rewrite decide_True by done. simpl.
        destruct Hpc' as [-> | ->]; simpl; [lia|done].
      * done.
    + pose proof (nm_next _ _ Hn _ _ _ _ Hq) as Hnext.
      destruct (effect_ids_news T _ _ _ _ _ _ He)
        as [->|(ms' & i & -> & -> & _)].
      * simpl. by rewrite Nat.add_0_r.
      * exfalso. apply Hne.
        eapply (omap_lookup_inj arrival_type gs q p);
          [apply Hn|exact Hq|exact Hp|reflexivity|reflexivity].
    + exfalso. destruct (effect_news _ _ _ _ _ _ He) as [_ Hf].
      rewrite Forall_forall in Hf.
      destruct (Hf _ Hq) as [Hquiet|(?&?&?&?&?)]; discriminate.
  - intros q n pt ms pc Hq.
    apply lookup_after in Hq as [[-> <-]|[[Hne Hq]|[Hne Hq]]]; [| | |done].
    + apply effect_to_unit in He as (pc0 & ->). eapply nm_type; eauto.
    + eapply nm_type; eauto.
    + apply (effect_news_unit _ _ _ _ _ _ _ _ _ _ He) in Hq
        as (i & _ & -> & _). done.
  - intros q n pt ms pc Hq. rewrite visited_app.
    apply lookup_after in Hq as [[-> <-]|[[Hne Hq]|[Hne Hq]]]; [| | |done].
    + pose proof He as He'. apply effect_to_unit in He' as (pc0 & ->).
      apply effect_unit_inv in He as (pc' & [= <-] & Hstep & _).
      eapply unit_step_stage; eauto. eapply nm_stage; eauto.
    + rewrite (visited_other n lines);
        [rewrite app_nil_r; eapply nm_stage; eauto|].
      intros l Hl Hname.
      destruct (is_unit g) eqn:Hunit.
      * destruct g; try discriminate.
        apply effect_unit_inv in He as (pc' & -> & Hstep & _).
        pose proof (unit_step_lines _ _ _ _ _ _ Hstep l Hl) as Hname'.
        rewrite Hname in Hname'. injection Hname' as ->.
        apply Hne. eapply unit_unique; eauto.
      * rewrite (effect_lines_quiet _ _ _ _ _ _ He Hunit l Hl) in Hname.
        discriminate.
    + apply (effect_news_unit _ _ _ _ _ _ _ _ _ _ He) in Hq
        as (i & -> & -> & -> & -> & _).
      simpl. rewrite app_nil_r. eapply named_fresh; eauto.
  - intros l n [Hl|Hl]%elem_of_app Hname;
      rewrite (omap_after _ _ _ _ _ _ Hp Hu); apply elem_of_app; left.
    + eapply nm_lines; eauto.
    + destruct (is_unit g) eqn:Hunit.
      * destruct g; try discriminate.
        apply effect_unit_inv in He as (pc' & -> & Hstep & _).
        rewrite (unit_step_lines _ _ _ _ _ _ Hstep l Hl) in Hname.
        injection Hname as <-.
        apply list_elem_of_omap. eexists.
        split; [eapply list_elem_of_lookup_2; exact Hp|reflexivity].
      * rewrite (effect_lines_quiet _ _ _ _ _ _ He Hunit l Hl) in Hname.
        discriminate.
  - intros t n pt [Hl|Hl]%elem_of_app.
    + destruct (nm_finished _ _ Hn _ _ _ Hl) as (q & pt' & ms & Hq).
      exists q, pt', ms.
      rewrite list_lookup_insert_ne;
        [rewrite lookup_app_l; [done|by eapply lookup_lt_Some]|].
      intros ->. rewrite Hp in Hq. injection Hq as ->. discriminate.
    + destruct (is_unit g) eqn:Hunit.
      * destruct g; try discriminate.
        apply effect_unit_inv in He as (pc' & -> & Hstep & _).
        exists p.
        inversion Hstep; subst; try (by apply elem_of_nil in Hl);
          apply list_elem_of_singleton in Hl; try discriminate.
        injection Hl as -> -> ->. do 2 eexists.
        apply list_lookup_insert_eq. rewrite length_app; lia.
      * pose proof (effect_lines_quiet _ _ _ _ _ _ He Hunit _ Hl).
        discriminate.
Qed.

Lemma Named_effect old gs out P R p g g' news lines dP dR :
  Named old gs out P R -> gs !! p = Some g -> finished g = false ->
  effect g g' news lines dP dR ->
  Named old (<[p := g']> (gs ++ news)) (out ++ lines) (P + dP)%Z (R + dR)%Z.
Proof.
  intros (new & -> & Hn) Hp Hfin He. exists (new ++ lines).
  split; [by rewrite app_assoc|]. eapply named_effect; eauto.
Qed.

Lemma arrivals_of_start ms bds types :
  Forall (fun g => exists m, g = generate_breakdown m GB_start) bds ->
  omap arrival_type
    (bds ++ map (fun t => send_raw_material t ms SRM_start) types
         ++ [change_shift CS_start]) = types /\
  (forall T, ids T (bds ++ map (fun t => send_raw_material t ms SRM_start)
                             types ++ [change_shift CS_start]) = []) /\
  omap unit_name
    (bds ++ map (fun t => send_raw_material t ms SRM_start) types
         ++ [change_shift CS_start]) = [].
Proof.
  intros Hb. rewrite !omap_app. unfold ids.
  assert (H1 : omap arrival_type bds = [] /\
               (forall T, omap (unit_id T) bds = []) /\
               omap unit_name bds = []).
  { induction Hb as [|g bds [m ->] _ (IH1 & IH2 & IH3)]; simpl; auto. }
  assert (H2 : omap arrival_type
                 (map (fun t => send_raw_material t ms SRM_start) types)
               = types /\
               (forall T, omap (unit_id T)
                  (map (fun t => send_raw_material t ms SRM_start) types)
                  = []) /\
               omap unit_name
                 (map (fun t => send_raw_material t ms SRM_start) types)
               = []).
  { induction types as [|t types (IH1 & IH2 & IH3)]; simpl; [done|].
    repeat split; [by f_equal | done | done]. }
  destruct H1 as (-> & H1 & ->), H2 as (-> & H2 & ->).
  repeat split; [by rewrite app_nil_r|].
  intros T. rewrite !omap_app, H1, H2. reflexivity.
Qed.

Lemma named_at_start G nm ss h w0 w :
  NoDup (PRODUCT_TYPES G) ->
  run_starts G nm ss h w0 w -> on_world (Named (stdout w0)) w.
Proof.
  intros Hnd (w1 & Hs & _ & ->).
  apply start_scenario_shape in Hs
    as (ms & bds & Hg & Hb & Ho & _).
  exists []. split; [simpl; by rewrite Ho, app_nil_r|].
  change (gens (snd (schedule Until URGENT (inject_Z h - now w1) w1)))
    with (gens w1).
  rewrite Hg. clear Hg.
  destruct (arrivals_of_start ms bds (PRODUCT_TYPES G) Hb) as (Ha & Hi & Hu).
  assert (Hnone : forall q n pt ms' pc,
    (bds ++ map (fun t => send_raw_material t ms SRM_start) (PRODUCT_TYPES G)
         ++ [change_shift CS_start]) !! q
    = Some (produce_product n pt ms' pc) -> False).
  { intros q n pt ms' pc Hq. apply list_elem_of_lookup_2 in Hq.
    assert (Hin : n ∈ omap unit_name
              (bds ++ map (fun t => send_raw_material t ms SRM_start)
                        (PRODUCT_TYPES G) ++ [change_shift CS_start])).
    { apply list_elem_of_omap. eexists. split; [exact Hq | reflexivity]. }
    rewrite Hu in Hin. by apply elem_of_nil in Hin. }
  constructor.
  - by rewrite Ha.
  - intros T. by rewrite Hi.
  - intros q T ms' pc Hq. rewrite Hi. simpl.
    apply list_elem_of_lookup_2 in Hq.
    rewrite !elem_of_app in Hq. destruct Hq as [Hq|[Hq|Hq]].
    + rewrite Forall_forall in Hb. destruct (Hb _ Hq) as [m ?]. discriminate.
    + apply list_elem_of_fmap in Hq as (t & [= _ _ ->] & _). done.
    + apply list_elem_of_singleton in Hq. discriminate.
  - intros q n pt ms' pc Hq. destruct (Hnone _ _ _ _ _ Hq).
  - intros q n pt ms' pc Hq. destruct (Hnone _ _ _ _ _ Hq).
  - intros l n Hl. by apply elem_of_nil in Hl.
  - intros t n pt Hl. by apply elem_of_nil in Hl.
Qed.

Lemma reachable_named G nm ss h w0 w :
  NoDup (PRODUCT_TYPES G) ->
  reachable G nm ss h w0 w ->
  exists new, stdout w = stdout w0 ++ new /\
    printed (stdout w0) w = new /\ named (gens w) new.
Proof.
  intros Hnd (wi & Hi & Hsteps).
  assert (H : on_world (Named (stdout w0)) w).
  { apply (steps_on_world G (Named (stdout w0))
             (Named_effect (stdout w0)) wi w Hsteps).
    eapply named_at_start; eauto. }
  destruct H as (new & Ho & Hn). exists new.
  split; [done|]. split; [|done].
  unfold printed. rewrite Ho. apply drop_app_length.
Qed.

Lemma stage_state_prefix pc vis :
  stage_state pc vis -> exists rest, vis ++ rest = STAGES.
Proof.
  destruct pc; simpl; intros H; eauto.
  - subst. by exists STAGES.
  - destruct H as [_ H]. eauto.
  - exists []. by rewrite app_nil_r.
Qed.

Lemma holds_pending w p k r : holds w p k r -> pending (resources w) k r.
Proof.
  intros (R & HR & Hr & _). exists R. split; [done|].
  apply elem_of_app. by left.
Qed.

(** C6: in every state of a run, the stages reported for a unit are a
    beginning of Machining, Assembly, QualityControl, Packaging, in this
    order and without repetition, and all four when the unit has
    completed (its generator returned, or its last line was printed);
    and all the capacity a process holds is one request among the users
    of one pool. *)
Theorem stages_in_order G num_machines shift_schedules simulation_time
    w0 w :
  NoDup (PRODUCT_TYPES G) ->
  reachable G num_machines shift_schedules simulation_time w0 w ->
  let out := printed (stdout w0) w in
  (forall p n pt ms pc,
     gens w !! p = Some (produce_product n pt ms pc) ->
     exists rest, visited n out ++ rest = STAGES) /\
  (forall p n pt ms,
     gens w !! p = Some (produce_product n pt ms PP_returned) ->
     visited n out = STAGES) /\
  (forall t n pt, L_finished t n pt ∈ out -> visited n out = STAGES) /\
  (forall p k1 r1 k2 r2,
     holds w p k1 r1 -> holds w p k2 r2 -> k1 = k2 /\ r1 = r2) /\
  (forall k R, resources w !! k = Some R -> NoDup (users R)).
Proof.
  intros Hnd Hw out.
  destruct (reachable_named _ _ _ _ _ _ Hnd Hw) as (new & _ & Hnew & Hn).
  destruct (reachable_pools _ _ _ _ _ _ Hw) as [[Hdup Hown] _].
  subst out. rewrite Hnew. repeat split.
  - intros p n pt ms pc Hp. eapply stage_state_prefix, nm_stage; eauto.
  - intros p n pt ms Hp. exact (nm_stage _ _ Hn _ _ _ _ _ Hp).
  - intros t n pt Hl.
    destruct (nm_finished _ _ Hn _ _ _ Hl) as (p & pt' & ms & Hp).
    exact (nm_stage _ _ Hn _ _ _ _ _ Hp).
  - destruct (Hown k1 r1 (holds_pending _ _ _ _ H)) as (<- & _ & H1).
    destruct (Hown k2 r2 (holds_pending _ _ _ _ H0)) as (<- & _ & H2).
    destruct H as (_ & _ & _ & <-), H0 as (_ & _ & _ & Hp).
    rewrite Hp in H2. rewrite H1 in H2. by injection H2 as ->.
  - destruct (Hown k1 r1 (holds_pending _ _ _ _ H)) as (_ & _ & H1).
    destruct (Hown k2 r2 (holds_pending _ _ _ _ H0)) as (_ & _ & H2).
    destruct H as (_ & _ & _ & <-), H0 as (_ & _ & _ & Hp).
    rewrite Hp in H2. rewrite H1 in H2. by injection H2 as ->.
  - intros k R HR. specialize (Hdup k R HR).
    by apply NoDup_app in Hdup as [? _].
Qed.

Lemma stages_in_order_witness :
  let w := world_of (run_scenario five_minutes one_each [] 41 400
                       (Environment (at_import (constant_rng 1)))) in
  visited ("Widget", 1%Z) (printed [] w) = STAGES.
Proof.
  intros w.
  assert (Hnd : NoDup (PRODUCT_TYPES five_minutes))
    by (apply NoDup_singleton).
  assert (Hw : reachable five_minutes one_each [] 41
                 (at_import (constant_rng 1)) w).
  { apply (run_scenario_reachable five_minutes one_each [] 41 400
             (at_import (constant_rng 1)) 4%Z 40%Z w).
    vm_compute. reflexivity. }
  refine (proj1 (proj2 (proj2
            (stages_in_order five_minutes one_each [] 41
               (at_import (constant_rng 1)) w Hnd Hw))) 21%Q _ "Widget" _).
  apply (list_elem_of_lookup_2 _ 31). vm_compute. reflexivity.
Defined.

(** C10: in every state of a run, [PRODUCTS_PRODUCED] is the number of
    units whose generator has returned, so each of them was counted once;
    such a unit holds no request in any pool, because the last resumption
    of [produce_product] leaves the [with] statement of the last stage,
    Packaging, before it adds one to the counter; two units never have
    the same name, and the numbers of the units of a product type are
    1, 2, 3, ... in the order they were spawned. *)
Theorem produced_once_after_release G num_machines shift_schedules
    simulation_time w0 w :
  NoDup (PRODUCT_TYPES G) ->
  reachable G num_machines shift_schedules simulation_time w0 w ->
  PRODUCTS_PRODUCED w = Z.of_nat (count is_completed (gens w)) /\
  (forall p n pt ms k r,
     gens w !! p = Some (produce_product n pt ms PP_returned) ->
     ~ holds w p k r) /\
  (forall p n pt ms mt r s,
     gens w !! p = Some (produce_product n pt ms (PP_yield_process [] mt r s))
     -> mt = "Packaging") /\
  (forall p n pt ms mt r s w1,
     produce_product_body p n pt ms (PP_yield_process [] mt r s) None w1
     = (Ok StopIteration,
        let w2 := snd (Request_exit r w1) in
        set_stdout (stdout w2 ++ [L_finished (now w2) n pt])
          (set_produced (PRODUCTS_PRODUCED w2 + 1) w2))) /\
  (forall p q n pt ms pc pt' ms' pc',
     gens w !! p = Some (produce_product n pt ms pc) ->
     gens w !! q = Some (produce_product n pt' ms' pc') -> p = q) /\
  (forall T,
     unit_ids T w = seqZ 1 (Z.of_nat (length (unit_ids T w)))).
Proof.
  intros Hnd Hw.
  destruct (reachable_named _ _ _ _ _ _ Hnd Hw) as (new & _ & _ & Hn).
  destruct (reachable_pools _ _ _ _ _ _ Hw) as [[_ Hown] _].
  destruct (reachable_counted _ _ _ _ _ _ Hw) as [HP _].
  split; [exact HP|]. split; [|split; [|split; [|split]]].
  - intros p n pt ms k r Hp Hh.
    destruct (Hown k r (holds_pending _ _ _ _ Hh)) as (_ & _ & Hc).
    destruct Hh as (_ & _ & _ & Hproc). rewrite Hproc in Hc.
    unfold current in Hc. rewrite Hp in Hc. discriminate.
  - intros p n pt ms mt r s Hp.
    destruct (nm_stage _ _ Hn _ _ _ _ _ Hp) as [[before ->] Hs].
    rewrite app_nil_r in Hs. unfold STAGES in Hs.
    change ["Machining"; "Assembly"; "QualityControl"; "Packaging"]
      with (["Machining"; "Assembly"; "QualityControl"] ++ ["Packaging"])
      in Hs.
    apply app_inj_tail in Hs as [_ Hs]. done.
  - intros. reflexivity.
  - intros p q n pt ms pc pt' ms' pc' Hp Hq. eapply unit_unique; eauto.
  - intros T. apply (nm_ids _ _ Hn T).
Qed.

Lemma produced_once_after_release_witness :
  let w := world_of (run_scenario five_minutes one_each [] 41 400
                       (Environment (at_import (constant_rng 1)))) in
  PRODUCTS_PRODUCED w = 4%Z /\
  unit_ids "Widget" w = seqZ 1 40.
Proof.
  intros w.
  assert (Hnd : NoDup (PRODUCT_TYPES five_minutes))
    by (apply NoDup_singleton).
  assert (Hw : reachable five_minutes one_each [] 41
                 (at_import (constant_rng 1)) w).
  { apply (run_scenario_reachable five_minutes one_each [] 41 400
             (at_import (constant_rng 1)) 4%Z 40%Z w).
    vm_compute. reflexivity. }
  pose proof (produced_once_after_release five_minutes one_each [] 41
                (at_import (constant_rng 1)) w Hnd Hw)
    as (HP & _ & _ & _ & _ & Hids).
  split.
  - rewrite HP. vm_compute. reflexivity.
  - rewrite (Hids "Widget"). vm_compute. reflexivity.
Defined.

(** ** The breakdown process *)

Lemma timeout_nonneg p d w :
  (0 <= d)%Z ->
  timeout p (inject_Z d) w = schedule (Timeout p) NORMAL (inject_Z d) w.
Proof.
  intros Hd. unfold timeout.
  assert (H : Qle_bool 0 (inject_Z d) = true).
  { apply Qle_bool_iff. unfold Qle. simpl. lia. }
  by rewrite H.
Qed.

Lemma request_spec key p w :
  fst (request key p w)
  = Ok {| req_id := next_req w; req_proc := p; resource := key |} /\
  next_req (snd (request key p w)) = S (next_req w) /\
  (forall R, resources w !! key = Some R ->
     resources (snd (request key p w)) !! key
     = Some (serve_head
               (enqueue {| req_id := next_req w; req_proc := p;
                           resource := key |} R))) /\
  (forall k, k <> key ->
     resources (snd (request key p w)) !! k = resources w !! k).
Proof.
  destruct (request key p w) as [x w'] eqn:H. simpl.
  unfold request in H. exec;
    (split; [reflexivity|]); (split; [reflexivity|]); split.
  all: try (intros k Hk; rewrite ?lookup_insert_ne by done;
            by rewrite lookup_alter_ne by done).
  all: intros R HR; rewrite ?lookup_insert_eq;
    rewrite lookup_alter_eq, HR in *; simpl in *; simplify_eq;
    unfold serve_head, enqueue, grant in *; simpl in *.
  all: repeat match goal with
             | H : _ ++ _ = _ |- _ => rewrite H
             | H : (_ <? _)%Z = _ |- _ => rewrite H
             end; reflexivity.
Qed.

Lemma breakdown_request_in_run G nm ss h w0 w p self r :
  reachable G nm ss h w0 w ->
  gens w !! p = Some (generate_breakdown self (GB_yield_request r)) \/
  gens w !! p = Some (generate_breakdown self (GB_yield_repair r)) ->
  resource r = machine_type self /\ req_proc r = p /\
  (forall k r', holds w p k r' -> k = machine_type self /\ r' = r) /\
  (forall R, resources w !! machine_type self = Some R -> NoDup (users R)).
Proof.
  intros Hw Hp.
  destruct (reachable_pools _ _ _ _ _ _ Hw) as [[Hnd Hok] Hown].
  assert (Hr : resource r = machine_type self /\ req_proc r = p).
  { destruct Hp as [Hp|Hp];
      destruct (Hown _ _ r Hp eq_refl) as [? Hpool]; simpl in Hpool;
      split; congruence. }
  destruct Hr as [Hres Hproc]. repeat split; try done.
  - destruct (Hok k r' (holds_pending _ _ _ _ H)) as (Hk & _ & Hc).
    destruct H as (_ & _ & _ & Hproc'). rewrite Hproc' in Hc.
    unfold current in Hc.
    destruct Hp as [Hp|Hp]; rewrite Hp in Hc; simpl in Hc; congruence.
  - destruct (Hok k r' (holds_pending _ _ _ _ H)) as (Hk & _ & Hc).
    destruct H as (_ & _ & _ & Hproc'). rewrite Hproc' in Hc.
    unfold current in Hc.
    destruct Hp as [Hp|Hp]; rewrite Hp in Hc; simpl in Hc; congruence.
  - intros R HR. specialize (Hnd _ _ HR). by apply NoDup_app in Hnd as [? _].
Qed.

(** ** The clock and the heap *)

Lemma entry_lt_true a b : entry_lt a b = true -> entry_le a b.
Proof.
  unfold entry_lt, entry_le.
  destruct (e_time a ?= e_time b)%Q eqn:Hc.
  - apply Qeq_alt in Hc. intros H. right. split; [done|].
    destruct (e_prio a <? e_prio b) eqn:H1; [apply Nat.ltb_lt in H1; lia|].
    destruct (e_prio b <? e_prio a) eqn:H2; [discriminate|].
    apply Nat.ltb_ge in H1, H2. lia.
  - apply Qlt_alt in Hc. auto.
  - discriminate.
Qed.

Lemma entry_lt_false a b : entry_lt a b = false -> entry_le b a.
Proof.
  unfold entry_lt, entry_le.
  destruct (e_time a ?= e_time b)%Q eqn:Hc.
  - apply Qeq_alt in Hc. intros H. right. split; [by symmetry|].
    destruct (e_prio a <? e_prio b) eqn:H1; [discriminate|].
    apply Nat.ltb_ge in H1. done.
  - discriminate.
  - apply Qgt_alt in Hc. auto.
Qed.

Lemma entry_le_trans a b c : entry_le a b -> entry_le b c -> entry_le a c.
Proof.
  unfold entry_le. intros [H1|[H1 H1']] [H2|[H2 H2']].
  - left. lra.
  - left. lra.
  - left. lra.
  - right. split; [lra | lia].
Qed.

Lemma elem_of_heappush x e q : x ∈ heappush e q <-> x = e \/ x ∈ q.
Proof.
  induction q as [|y q IH]; simpl.
  - rewrite list_elem_of_singleton. split; [auto|].
    intros [->|H]; [done | by apply elem_of_nil in H].
  - destruct (entry_lt e y).
    + rewrite elem_of_cons. tauto.
    + rewrite !elem_of_cons, IH. tauto.
Qed.

Lemma heappush_sorted e q :
  StronglySorted entry_le q -> StronglySorted entry_le (heappush e q).
Proof.
  induction 1 as [|y q Hq IH Hy]; simpl.
  - repeat constructor.
  - destruct (entry_lt e y) eqn:Hlt.
    + apply entry_lt_true in Hlt. constructor.
      * by constructor.
      * constructor; [done|].
        eapply Forall_impl; [exact Hy|].
        intros z Hz. eapply entry_le_trans; eauto.
    + apply entry_lt_false in Hlt. constructor; [done|].
      apply Forall_forall. intros z Hz.
      apply elem_of_heappush in Hz as [->|Hz]; [done|].
      rewrite Forall_forall in Hy. auto.
Qed.

Lemma kernel_push H t q t' pr n ev :
  kernel_ok H t q -> (t <= t')%Q ->
  (pr = URGENT -> (t' == t)%Q) ->
  kernel_ok H t (heappush (Entry t' pr n ev) q).
Proof.
  intros [Hs Hn Hf Hu (eu & Heu & Hun) Hb] Ht Hpr. constructor.
  - by apply heappush_sorted.
  - done.
  - intros e [->|He]%elem_of_heappush; [done | auto].
  - intros e [->|He]%elem_of_heappush Hp; [right; auto | auto].
  - exists eu. split; [|done]. apply elem_of_heappush. auto.
  - done.
Qed.

Lemma kernel_pop H t h q :
  kernel_ok H t (h :: q) -> e_event h <> Until ->
  kernel_ok H (e_time h) q.
Proof.
  intros [Hs Hn Hf Hu (eu & Heu & Hev & Hpr & Htime) Hb] Hh.
  apply StronglySorted_inv in Hs as [Hs Hall].
  rewrite Forall_forall in Hall.
  assert (Hht : (t <= e_time h)%Q) by (apply Hf; left).
  assert (Heu' : eu ∈ q).
  { apply elem_of_cons in Heu as [->|Heu]; [congruence | done]. }
  constructor.
  - done.
  - lra.
  - intros e He. destruct (Hall e He) as [Hlt|[Heq _]]; lra.
  - intros e He Hp.
    destruct (Hu e (list_elem_of_further _ _ _ He) Hp) as [Hun|Heq];
      [auto|]. right.
    destruct (Hall e He) as [Hlt|[Heq' _]]; lra.
  - eauto.
  - destruct (Hall eu Heu') as [Hlt|[Heq Hle]]; [lra|].
    exfalso. rewrite Hpr in Hle.
    assert (Hp : e_prio h = URGENT) by (unfold URGENT in *; lia).
    destruct (Hu h (list_elem_of_here _ _) Hp) as [Hun|Hnow]; [done|]. lra.
Qed.

Ltac kernel_side :=
  repeat match goal with
         | E : Qle_bool _ _ = true |- _ => apply Qle_bool_iff in E
         end;
  first [ discriminate | intros _; lra | lra
        | match goal with
          | |- (_ <= _ + ?d)%Q =>
              assert (0 <= d)%Q by (vm_compute; discriminate); lra
          end ].

Ltac kernel_chain Hk :=
  repeat first
    [ exact Hk
    | apply kernel_push; [|kernel_side|kernel_side] ].

Lemma resume_kernel G H p th w :
  kernel_ok H (now w) (queue w) ->
  kernel_ok H (now (snd (_resume G p th w))) (queue (snd (_resume G p th w))).
Proof.
  intros Hk. unfold _resume.
  destruct (procs w !! p) as [P|] eqn:HP; [|done].
  destruct (finished (generator P)) eqn:Hfin; [done|].
  destruct (send G p (generator P) th w) as [r w'] eqn:Hsend.
  destruct (generator P) as [self pc|pt ms pc|pc|nm pt ms pc|self pt pc];
    destruct pc; try discriminate Hfin; destruct th; unfold_bodies.
  all: try match goal with
           | H : context [match ?rest with [] => _ | _ :: _ => _ end] |- _ =>
               is_var rest; destruct rest
           end.
  all: exec.
  all: kernel_chain Hk.
Qed.

Lemma trigger_put_kernel H key w :
  kernel_ok H (now w) (queue w) ->
  kernel_ok H (now (snd (_trigger_put key w)))
    (queue (snd (_trigger_put key w))).
Proof.
  intros Hk. destruct (_trigger_put key w) as [r w'] eqn:Hsend. simpl.
  exec; kernel_chain Hk.
Qed.

(** * Synchronisation: nothing resumes a process it does not wait for *)

Lemma heappush_perm e q : heappush e q ≡ₚ e :: q.
Proof.
  induction q as [|x q IH]; simpl; [done|].
  destruct (entry_lt e x); [done|].
  rewrite IH. apply Permutation_swap.
Qed.

Lemma tokens_perm q q' : q ≡ₚ q' -> tokens q ≡ₚ tokens q'.
Proof. intros H. unfold tokens. by rewrite H. Qed.

Lemma tokens_push e q :
  tokens (heappush e q) ≡ₚ
    match token_of (e_event e) with
    | Some t => t :: tokens q
    | None => tokens q
    end.
Proof.
  rewrite (tokens_perm _ _ (heappush_perm e q)). unfold tokens. simpl.
  by destruct (token_of (e_event e)).
Qed.

Lemma tokens_push_none t pr n ev q :
  token_of ev = None -> tokens (heappush (Entry t pr n ev) q) ≡ₚ tokens q.
Proof. intros H. rewrite tokens_push. simpl. by rewrite H. Qed.

Lemma tokens_push_some t pr n ev q tok :
  token_of ev = Some tok ->
  tokens (heappush (Entry t pr n ev) q) ≡ₚ tok :: tokens q.
Proof. intros H. rewrite tokens_push. simpl. by rewrite H. Qed.

Lemma sync_ext aw aw' P Q rs :
  sync_ok aw P Q rs -> (forall q, aw q = aw' q) -> sync_ok aw' P Q rs.
Proof.
  intros [] H. split; try done.
  - intros t q ??. rewrite <- H. eauto.
  - intros k R r ??. rewrite <- H. eauto.
  - intros s u ??. rewrite <- H. eauto.
  - intros q t. rewrite <- H. eauto.
Qed.

Lemma outstanding_push P Q s t pr n ev :
  outstanding P (heappush (Entry t pr n ev) Q) s ->
  outstanding P Q s \/ ev = ProcessEv s None \/ exists e, ev = ProcessEv s (Some e).
Proof.
  intros [H|H]; [left; by left|].
  rewrite tokens_push in H. simpl in H.
  destruct ev as [p|p|r|r|p f|]; simpl in H;
    try (apply elem_of_cons in H as [H|H]; [discriminate|]);
    try (left; by right).
  apply elem_of_cons in H as [H|H]; [|left; by right].
  injection H as ->. destruct f; eauto.
Qed.

(** An event that resumes nothing by itself. *)
Lemma sync_push_none aw P Q rs t pr n ev :
  sync_ok aw P Q rs -> token_of ev = None ->
  sync_ok aw P (heappush (Entry t pr n ev) Q) rs.
Proof.
  intros [] Hev.
  pose proof (tokens_push_none t pr n ev Q Hev) as Hp.
  split; try done.
  - by rewrite Hp.
  - intros ??. rewrite Hp. eauto.
  - intros ?. rewrite Hp. eauto.
  - intros k R r ??. rewrite Hp. eauto.
  - intros s u Hu [Hl|Ht]; apply s_link0; try done; [by left|].
    right. by rewrite Hp in Ht.
Qed.

Lemma sync_release aw P Q rs t pr n r :
  sync_ok aw P Q rs ->
  sync_ok aw P (heappush (Entry t pr n (Release r)) Q) rs.
Proof. intros. by apply sync_push_none. Qed.

(** An event for the running process. *)
Lemma sync_push_own aw P Q rs t pr n ev tok p :
  sync_ok aw P Q rs -> token_of ev = Some tok -> target tok = Some p ->
  aw p = None -> p < length P ->
  (forall k R r, rs !! k = Some R -> r ∈ put_queue R -> tok <> TRequest r) ->
  sync_ok (await aw p (Some tok)) P (heappush (Entry t pr n ev) Q) rs.
Proof.
  intros [] Hev Htg Hp Hlen Hrs.
  pose proof (tokens_push_some t pr n ev Q tok Hev) as Hperm.
  assert (Hfresh : tok ∉ tokens Q).
  { intros Hin. specialize (s_queue0 _ _ Hin Htg). congruence. }
  assert (Hnp : forall s, tok <> TProcess s).
  { intros s ->. discriminate. }
  split.
  - rewrite Hperm. by constructor.
  - intros t0 q. rewrite Hperm. unfold await.
    intros [->|Hin]%elem_of_cons Hq.
    + rewrite Htg in Hq. injection Hq as <-. by rewrite decide_True.
    + case_decide as Hd; [|eauto]. subst q.
      specialize (s_queue0 _ _ Hin Hq). congruence.
  - intros s. rewrite Hperm. intros [Heq|Hin]%elem_of_cons; [|eauto].
    by destruct (Hnp s).
  - intros k R r HR Hr. destruct (s_wait0 k R r HR Hr) as (? & Ha & Hn).
    split; [done|]. unfold await. split.
    + case_decide as Hd; [|done]. rewrite Hd in Ha. congruence.
    + rewrite Hperm. intros [Heq|Hin]%elem_of_cons; [|done].
      by eapply Hrs.
  - done.
  - intros s u Hu Hout. unfold await.
    assert (Hold : outstanding P Q s).
    { destruct Hout as [Hl|Ht]; [by left|right].
      rewrite Hperm in Ht. apply elem_of_cons in Ht as [Heq|Ht]; [|done].
      by destruct (Hnp s). }
    specialize (s_link0 s u Hu Hold).
    case_decide as Hd; [|done]. subst u. congruence.
  - done.
  - intros q t0. unfold await. case_decide; [by subst|eauto].
Qed.

Lemma sync_timeout aw P Q rs t pr n p :
  sync_ok aw P Q rs -> aw p = None -> p < length P ->
  sync_ok (await aw p (Some (TTimeout p))) P
    (heappush (Entry t pr n (Timeout p)) Q) rs.
Proof. intros. eapply sync_push_own; eauto; done. Qed.

(** [put_queue.append(request)] by the running process. *)
Lemma sync_enqueue aw P Q rs key r :
  sync_ok aw P Q rs -> aw (req_proc r) = None -> req_proc r < length P ->
  resource r = key ->
  sync_ok (await aw (req_proc r) (Some (TRequest r))) P Q
    (alter (enqueue r) key rs).
Proof.
  intros [] Hp Hlen Hkey.
  assert (Hnew : forall k R, rs !! k = Some R -> r ∉ put_queue R).
  { intros k R HR Hin. destruct (s_wait0 k R r HR Hin) as (_ & Ha & _).
    congruence. }
  split; try done.
  - intros t q Hin Hq. unfold await. case_decide as Hd; [|eauto].
    subst q. specialize (s_queue0 _ _ Hin Hq). congruence.
  - intros k R r' HR Hr'.
    assert (Hcases : r' = r /\ k = key \/
              exists R0, rs !! k = Some R0 /\ r' ∈ put_queue R0).
    { destruct (decide (k = key)) as [->|Hne].
      - rewrite lookup_alter_eq in HR.
        destruct (rs !! key) as [R0|] eqn:HR0; [|discriminate].
        injection HR as <-. simpl in Hr'.
        apply elem_of_app in Hr' as [Hr'| ->%list_elem_of_singleton];
          [right; eauto|left; done].
      - rewrite lookup_alter_ne in HR by done. right; eauto. }
    destruct Hcases as [[-> ->]|(R0 & HR0 & Hin)].
    + unfold await. rewrite decide_True by done. repeat split; [done..|].
      intros Hin. specialize (s_queue0 _ _ Hin eq_refl). congruence.
    + destruct (s_wait0 k R0 r' HR0 Hin) as (? & Ha & ?).
      repeat split; [done| |done]. unfold await.
      case_decide as Hd; [|done]. rewrite Hd in Ha. congruence.
  - intros k R HR. destruct (decide (k = key)) as [->|Hne].
    + rewrite lookup_alter_eq in HR.
      destruct (rs !! key) as [R0|] eqn:HR0; [|discriminate].
      injection HR as <-. simpl. apply NoDup_app. repeat split; eauto.
      * intros x Hx ->%list_elem_of_singleton. by eapply Hnew.
      * apply NoDup_singleton.
    + rewrite lookup_alter_ne in HR by done. eauto.
  - intros s u Hu Hout. specialize (s_link0 s u Hu Hout). unfold await.
    case_decide as Hd; [|done]. subst u. congruence.
  - intros q t. unfold await. case_decide; [by subst|eauto].
Qed.

(** [_do_put]: the head of the queue becomes a user and is triggered. *)
Lemma sync_grant aw P Q rs key R r waiting t pr n :
  sync_ok aw P Q rs -> rs !! key = Some R -> put_queue R = r :: waiting ->
  sync_ok aw P (heappush (Entry t pr n (Request r)) Q)
    (<[key := grant r waiting R]> rs).
Proof.
  intros [] HR Hq.
  pose proof (tokens_push_some t pr n (Request r) Q (TRequest r) eq_refl)
    as Hperm.
  destruct (s_wait0 key R r HR) as (Hkey & Ha & Hfresh);
    [rewrite Hq; left|].
  pose proof (s_wait_nodup0 key R HR) as Hnd. rewrite Hq in Hnd.
  apply NoDup_cons in Hnd as [Hhead Hnd].
  split.
  - rewrite Hperm. by constructor.
  - intros t0 q. rewrite Hperm. intros [->|Hin]%elem_of_cons Htg; [|eauto].
    simpl in Htg. injection Htg as <-. done.
  - intros s. rewrite Hperm. intros [Heq|Hin]%elem_of_cons; [done|eauto].
  - intros k R' r' HR' Hr'.
    assert (Hold : exists R0, rs !! k = Some R0 /\ r' ∈ put_queue R0 /\
              r' <> r).
    { destruct (decide (k = key)) as [->|Hne].
      - rewrite lookup_insert_eq in HR'. injection HR' as <-. simpl in Hr'.
        exists R. rewrite Hq. repeat split; [done|by right|].
        intros ->. done.
      - rewrite lookup_insert_ne in HR' by done.
        exists R'. repeat split; [done..|]. intros ->.
        destruct (s_wait0 k R' r HR' Hr') as (? & _). congruence. }
    destruct Hold as (R0 & HR0 & Hin & Hne).
    destruct (s_wait0 k R0 r' HR0 Hin) as (? & ? & ?).
    repeat split; [done..|]. rewrite Hperm.
    intros [Heq|?]%elem_of_cons; [congruence|done].
  - intros k R' HR'. destruct (decide (k = key)) as [->|Hne].
    + rewrite lookup_insert_eq in HR'. by injection HR' as <-.
    + rewrite lookup_insert_ne in HR' by done. eauto.
  - intros s u Hu Hout. apply s_link0; [done|].
    destruct Hout as [Hl|Ht]; [by left|right].
    rewrite Hperm in Ht. by apply elem_of_cons in Ht as [Heq|Ht].
  - done.
  - done.
Qed.

(** [Request.__exit__]: the request leaves the pool. *)
Lemma sync_take_out aw P Q rs r k :
  sync_ok aw P Q rs -> sync_ok aw P Q (alter (take_out r) k rs).
Proof.
  intros []. split; try done.
  - intros k' R' r' HR' Hr'.
    destruct (decide (k' = k)) as [->|Hne].
    + rewrite lookup_alter_eq in HR'.
      destruct (rs !! k) as [R0|] eqn:HR0; [|discriminate].
      injection HR' as <-. simpl in Hr'.
      apply elem_of_remove_first in Hr'. eauto.
    + rewrite lookup_alter_ne in HR' by done. eauto.
  - intros k' R' HR'. destruct (decide (k' = k)) as [->|Hne].
    + rewrite lookup_alter_eq in HR'.
      destruct (rs !! k) as [R0|] eqn:HR0; [|discriminate].
      injection HR' as <-. simpl. apply NoDup_remove_first. eauto.
    + rewrite lookup_alter_ne in HR' by done. eauto.
Qed.

Lemma live_app P X q : q < length P -> live (P ++ [X]) q = live P q.
Proof. intros H. unfold live. by rewrite lookup_app_l. Qed.

Lemma live_new P X :
  live (P ++ [X]) (length P) = negb (finished (generator X)).
Proof. unfold live. by rewrite list_lookup_middle. Qed.

Lemma live_lt P q : live P q = true -> q < length P.
Proof.
  unfold live. destruct (P !! q) eqn:E; [|done].
  intros _. by eapply lookup_lt_Some.
Qed.

Lemma waiters_app P X s : s < length P -> waiters (P ++ [X]) s = waiters P s.
Proof. intros H. unfold waiters. by rewrite lookup_app_l. Qed.

Lemma waiters_new P X : waiters (P ++ [X]) (length P) = callbacks X.
Proof. unfold waiters. by rewrite list_lookup_middle. Qed.

Lemma waiters_beyond P s : length P <= s -> waiters P s = [].
Proof. intros H. unfold waiters. by rewrite lookup_ge_None_2. Qed.

Lemma live_alter_callback P p s q :
  live (alter (with_callback p) s P) q = live P q.
Proof.
  unfold live. destruct (decide (q = s)) as [->|Hne].
  - rewrite list_lookup_alter_eq. by destruct (P !! s).
  - by rewrite list_lookup_alter_ne.
Qed.

Lemma live_alter_generator P p g q :
  live (alter (with_generator g) p P) q =
    if decide (q = p) then
      match P !! p with Some _ => negb (finished g) | None => false end
    else live P q.
Proof.
  unfold live. case_decide as Hd.
  - subst q. rewrite list_lookup_alter_eq. by destruct (P !! p).
  - by rewrite list_lookup_alter_ne.
Qed.

Lemma waiters_alter_generator P p g s :
  waiters (alter (with_generator g) p P) s = waiters P s.
Proof.
  unfold waiters. destruct (decide (s = p)) as [->|Hne].
  - rewrite list_lookup_alter_eq. by destruct (P !! p).
  - by rewrite list_lookup_alter_ne.
Qed.

Lemma waiters_alter_callback P p s s' :
  waiters (alter (with_callback p) s P) s' =
    if decide (s' = s) then
      match P !! s with Some _ => waiters P s ++ [p] | None => [] end
    else waiters P s'.
Proof.
  unfold waiters. case_decide as Hd.
  - subst s'. rewrite list_lookup_alter_eq. by destruct (P !! s).
  - by rewrite list_lookup_alter_ne.
Qed.

(** A new process, which nothing waits for and nothing resumes yet. *)
Lemma sync_append aw P Q rs X :
  sync_ok aw P Q rs -> callbacks X = [] ->
  sync_ok aw (P ++ [X]) Q rs.
Proof.
  intros [] HX. split; try done.
  - intros s Hs. destruct (s_done0 s Hs) as [Hlen Hl].
    rewrite length_app, live_app by done. simpl. split; [lia|done].
  - intros s u Hu Hout.
    destruct (decide (s < length P)) as [Hlt|Hge].
    + rewrite waiters_app in Hu by done. apply s_link0; [done|].
      destruct Hout as [Hl|Ht]; [left|by right].
      by rewrite live_app in Hl.
    + destruct (decide (s = length P)) as [->|Hne].
      * rewrite waiters_new, HX in Hu. by apply elem_of_nil in Hu.
      * rewrite waiters_beyond in Hu; [by apply elem_of_nil in Hu|].
        rewrite length_app. simpl. lia.
  - intros s. destruct (decide (s < length P)) as [Hlt|Hge].
    + by rewrite waiters_app.
    + destruct (decide (s = length P)) as [->|Hne].
      * rewrite waiters_new, HX. simpl. lia.
      * rewrite waiters_beyond; [simpl; lia|].
        rewrite length_app. simpl. lia.
  - intros q t Hq. rewrite length_app. simpl.
    specialize (s_known0 q t Hq). lia.
Qed.

(** [env.process(generator)] *)
Lemma sync_spawn aw P Q rs g t pr n :
  sync_ok aw P Q rs ->
  sync_ok (await aw (length P) (Some (TInit (length P))))
    (P ++ [{| generator := g; callbacks := [] |}])
    (heappush (Entry t pr n (Initialize (length P))) Q) rs.
Proof.
  intros H. eapply sync_push_own; [by apply sync_append|done|done| | |done].
  - destruct (aw (length P)) as [t0|] eqn:E; [|done].
    apply (s_known _ _ _ _ H) in E. lia.
  - rewrite length_app. simpl. lia.
Qed.

(** [yield process]: the running process becomes its callback. *)
Lemma sync_callback aw P Q rs p s :
  sync_ok aw P Q rs -> aw p = None -> p < length P -> waiters P s = [] ->
  sync_ok (await aw p (Some (TProcess s))) (alter (with_callback p) s P) Q rs.
Proof.
  intros [] Hp Hlen Hs. split; try done.
  - intros t q Hin Hq. unfold await. case_decide as Hd; [|eauto].
    subst q. specialize (s_queue0 _ _ Hin Hq). congruence.
  - intros s0 Hs0. rewrite length_alter, live_alter_callback. eauto.
  - intros k R r HR Hr. destruct (s_wait0 k R r HR Hr) as (? & Ha & ?).
    repeat split; [done| |done]. unfold await.
    case_decide as Hd; [|done]. rewrite Hd in Ha. congruence.
  - intros s0 u Hu Hout. unfold await.
    rewrite waiters_alter_callback in Hu.
    assert (Hold : outstanding P Q s0).
    { destruct Hout as [Hl|Ht]; [left|by right].
      by rewrite live_alter_callback in Hl. }
    case_decide as Hd.
    + subst s0. rewrite Hs in Hu. destruct (P !! s); simpl in Hu.
      * apply list_elem_of_singleton in Hu as ->. by rewrite decide_True.
      * by apply elem_of_nil in Hu.
    + specialize (s_link0 s0 u Hu Hold).
      case_decide as Hd'; [|done]. subst u. congruence.
  - intros s0. rewrite waiters_alter_callback. case_decide as Hd; [|done].
    rewrite Hs. destruct (P !! s); simpl; lia.
  - intros q t. rewrite length_alter. unfold await.
    case_decide as Hd; [|eauto]. by subst q.
Qed.

(** The generator of the running process stands at a new [yield]. *)
Lemma sync_generator aw P Q rs p g :
  sync_ok aw P Q rs -> live P p = true -> finished g = false ->
  sync_ok aw (alter (with_generator g) p P) Q rs.
Proof.
  intros [] Hp Hg.
  assert (Hlive : forall q, live (alter (with_generator g) p P) q = live P q).
  { intros q. rewrite live_alter_generator. case_decide as Hd; [|done].
    subst q. rewrite Hp, Hg. unfold live in Hp. by destruct (P !! p). }
  split; try done.
  - intros s Hs. rewrite length_alter, Hlive. eauto.
  - intros s u Hu Hout. rewrite waiters_alter_generator in Hu.
    apply (s_link0 s u Hu). destruct Hout as [Hl|Ht]; [left|by right].
    by rewrite Hlive in Hl.
  - intros s. by rewrite waiters_alter_generator.
  - intros q t. rewrite length_alter. eauto.
Qed.

(** The generator of the running process returned or raised: the
    process is triggered as an event. *)
Lemma sync_finish aw P Q rs p g t pr n f :
  sync_ok aw P Q rs -> live P p = true -> finished g = true ->
  sync_ok aw (alter (with_generator g) p P)
    (heappush (Entry t pr n (ProcessEv p f)) Q) rs.
Proof.
  intros [] Hp Hg.
  pose proof (tokens_push_some t pr n (ProcessEv p f) Q (TProcess p) eq_refl)
    as Hperm.
  assert (Hlive : forall q, q <> p ->
            live (alter (with_generator g) p P) q = live P q).
  { intros q Hq. rewrite live_alter_generator. by rewrite decide_False. }
  assert (Hfresh : TProcess p ∉ tokens Q).
  { intros Hin. destruct (s_done0 p Hin) as [_ Hl]. congruence. }
  split.
  - rewrite Hperm. by constructor.
  - intros t0 q. rewrite Hperm.
    intros [->|Hin]%elem_of_cons Hq; [discriminate|eauto].
  - intros s. rewrite Hperm, length_alter.
    intros [Heq|Hin]%elem_of_cons.
    + injection Heq as ->. split; [by apply live_lt|].
      rewrite live_alter_generator, decide_True by done.
      rewrite Hg. by destruct (P !! p).
    + destruct (s_done0 s Hin) as [Hlen Hl]. split; [done|].
      rewrite Hlive; [done|]. intros ->. congruence.
  - intros k R r HR Hr. destruct (s_wait0 k R r HR Hr) as (? & ? & ?).
    repeat split; [done..|]. rewrite Hperm.
    intros [Heq|?]%elem_of_cons; [discriminate|done].
  - done.
  - intros s u Hu Hout. rewrite waiters_alter_generator in Hu.
    apply (s_link0 s u Hu).
    destruct (decide (s = p)) as [->|Hne]; [by left|].
    destruct Hout as [Hl|Ht]; [left; by rewrite Hlive in Hl|right].
    rewrite Hperm in Ht. apply elem_of_cons in Ht as [Heq|Ht]; [|done].
    congruence.
  - intros s. by rewrite waiters_alter_generator.
  - intros q t0. rewrite length_alter. eauto.
Qed.

Lemma awaited_alter_generator P p g q :
  p < length P ->
  awaited (alter (with_generator g) p P) q =
    if decide (q = p) then awaits p g else awaited P q.
Proof.
  intros Hp. unfold awaited. case_decide as Hd.
  - subst q. rewrite list_lookup_alter_eq.
    destruct (lookup_lt_is_Some_2 P p Hp) as [X ->]. done.
  - by rewrite list_lookup_alter_ne.
Qed.

Lemma awaited_alter_callback P p s q :
  awaited (alter (with_callback p) s P) q = awaited P q.
Proof.
  unfold awaited. destruct (decide (q = s)) as [->|Hne].
  - rewrite list_lookup_alter_eq. by destruct (P !! s).
  - by rewrite list_lookup_alter_ne.
Qed.

Lemma awaited_app P X q :
  awaited (P ++ [X]) q =
    if decide (q = length P) then awaits q (generator X) else awaited P q.
Proof.
  unfold awaited. case_decide as Hd.
  - subst q. by rewrite list_lookup_middle.
  - destruct (decide (q < length P)) as [Hlt|Hge].
    + by rewrite lookup_app_l.
    + rewrite !lookup_ge_None_2; [done|lia|rewrite length_app; simpl; lia].
Qed.

Lemma awaited_beyond P q : length P <= q -> awaited P q = None.
Proof. intros H. unfold awaited. by rewrite lookup_ge_None_2. Qed.

Ltac sync_chain Hrun :=
  repeat lazymatch goal with
  | |- sync_ok _ (procs ?w) (queue ?w) (resources ?w) => exact Hrun
  | |- sync_ok _ (alter (with_generator _) _ _)
         (heappush (Entry _ _ _ (ProcessEv _ _)) _) _ =>
      eapply sync_finish
  | |- sync_ok _ (alter (with_generator _) _ _) _ _ =>
      eapply sync_generator
  | |- sync_ok _ (alter (with_callback _) _ _) _ _ =>
      eapply sync_callback
  | |- sync_ok _ (_ ++ [_]) (heappush (Entry _ _ _ (Initialize _)) _) _ =>
      eapply sync_spawn
  | |- sync_ok _ _ (heappush (Entry _ _ _ (Timeout _)) _) _ =>
      eapply sync_timeout
  | |- sync_ok _ _ (heappush (Entry _ _ _ (Request _)) _)
         (<[_ := grant _ _ _]> _) =>
      eapply sync_grant; [|eassumption|eassumption]
  | |- sync_ok _ _ _ (alter (enqueue _) _ _) => eapply sync_enqueue
  | |- sync_ok _ _ (heappush (Entry _ _ _ (Release _)) _) _ =>
      eapply sync_release
  | |- sync_ok _ _ _ (alter (take_out _) _ _) => eapply sync_take_out
  end.

Lemma resume_sync G p th w : Running p w -> Sync (snd (_resume G p th w)).
Proof.
  intros Hrun. unfold _resume.
  destruct (procs w !! p) as [X|] eqn:HP.
  2:{ simpl. eapply sync_ext; [exact Hrun|]. intros q. unfold await, awaited.
      case_decide; [subst; by rewrite HP|done]. }
  destruct (finished (generator X)) eqn:Hfin.
  { simpl. eapply sync_ext; [exact Hrun|]. intros q. unfold await, awaited.
    case_decide; [subst; rewrite HP; simpl|done].
    by destruct (generator X) as [? []|?? []|[]|??? []|?? []]. }
  assert (Hlive : live (procs w) p = true).
  { unfold live. by rewrite HP, Hfin. }
  assert (Hlen : p < length (procs w)) by (by eapply lookup_lt_Some).
  destruct (send G p (generator X) th w) as [r w'] eqn:H.
  destruct (generator X) as [self pc|pt ms pc|pc|nm pt ms pc|self pt pc];
    destruct pc; try discriminate Hfin; destruct th; unfold_bodies.
  all: try match goal with
           | H : context [match ?rest with [] => _ | _ :: _ => _ end] |- _ =>
               is_var rest; destruct rest
           end.
  all: exec.
  all: unfold Sync, Running in *; wsimpl.
  all: eapply sync_ext; [sync_chain Hrun|..].
  all: try lazymatch goal with
           | |- finished _ = _ => reflexivity
           | |- resource _ = _ => reflexivity
           end.
  all: rewrite ?live_alter_callback, ?waiters_new, ?length_alter,
         ?length_app; simpl.
  all: try exact Hlive.
  all: try exact Hlen.
  all: try lia.
  all: try (rewrite live_app by exact Hlen; exact Hlive).
  all: try (unfold await; repeat case_decide; first [done | lia]).
  all: try (intros q;
            rewrite ?awaited_alter_generator
              by (rewrite ?length_alter, ?length_app; simpl; lia);
            rewrite ?awaited_alter_callback, ?awaited_app; simpl;
            unfold await; repeat case_decide; subst; simpl;
            first [done | lia | congruence]).
Qed.

(** * Timing: no unit is ahead of the clock *)

Lemma after_S d n : (after d (S n) == after d n + inject_Z d)%Q.
Proof.
  unfold after. rewrite <- inject_Z_plus. apply inject_Z_injective. lia.
Qed.

Lemma after_mono d n m : (0 <= d)%Z -> n <= m -> (after d n <= after d m)%Q.
Proof. intros Hd Hnm. unfold after. rewrite <- Zle_Qle. nia. Qed.

Lemma after_0 d : (after d 0 == 0)%Q.
Proof. unfold after. by rewrite Z.mul_0_r. Qed.

Lemma elem_of_pushed Q es Q' e :
  pushed_onto Q es Q' -> e ∈ Q' -> e ∈ es \/ e ∈ Q.
Proof.
  induction 1 as [|x es Q' _ IH]; [by right|].
  intros [->|H]%elem_of_heappush; [left; by left|].
  destruct (IH H); [left; by right|by right].
Qed.

Lemma dict_get_elem_of {V} (d : dict V) k v :
  dict_get d k = Some v -> exists k', (k', v) ∈ d.
Proof.
  induction d as [|[k' v'] d IH]; simpl; [done|].
  destruct (String.eqb k k').
  - intros [= ->]. exists k'. by left.
  - intros H. destruct (IH H) as [k0 H0]. exists k0. by right.
Qed.

Lemma slow_rmin G d pt by_type mt t :
  slow G d = true ->
  dict_get (PROCESSING_TIMES G) pt = Some by_type ->
  dict_get by_type mt = Some t -> (d <= rmin t)%Z.
Proof.
  unfold slow. rewrite forallb_forall. intros Hs H1 H2.
  apply dict_get_elem_of in H1 as [k1 H1].
  apply dict_get_elem_of in H2 as [k2 H2].
  apply list_elem_of_In in H1. specialize (Hs _ H1). simpl in Hs.
  rewrite forallb_forall in Hs.
  apply list_elem_of_In in H2. specialize (Hs _ H2). simpl in Hs. lia.
Qed.

(** One resumption: the generator of [p] moves, processes are created,
    events are pushed. *)
Lemma timing_update d t Q Q' gs p g g' news pushed :
  timing_ok d t Q gs -> gs !! p = Some g ->
  pushed_onto Q pushed Q' ->
  is_stage g' = is_stage g ->
  (after d (stages_done g') <= t)%Q ->
  Forall (fun x => stages_done x = 0 /\ sub_of x = None) news ->
  (forall s, sub_of g' = Some s ->
     s = length gs /\ exists x, news = [x] /\ is_stage x = true) ->
  (forall e s, e ∈ pushed -> ends (e_event e) = Some s ->
     s = p /\
     (is_stage g = true -> forall u gu, gs !! u = Some gu ->
        sub_of gu = Some p -> (after d (S (stages_done gu)) <= e_time e)%Q)) ->
  timing_ok d t Q' (<[p := g']> (gs ++ news)).
Proof.
  intros [] Hp Hpush Hkind Hlevel Hnews Hsub Hpushed.
  assert (Hlen : p < length gs) by (by eapply lookup_lt_Some).
  assert (Hlook : forall u x, (<[p := g']> (gs ++ news)) !! u = Some x ->
            u = p /\ x = g' \/ u <> p /\ gs !! u = Some x \/
            u <> p /\ x ∈ news /\ length gs <= u).
  { intros u x Hu. destruct (decide (u = p)) as [->|Hne].
    - rewrite list_lookup_insert_eq in Hu by (rewrite length_app; lia).
      left. split; congruence.
    - rewrite list_lookup_insert_ne in Hu by done. right.
      apply lookup_app_Some in Hu as [Hu|[Hge Hu]]; [by left|right].
      split; [done|]. split; [by eapply list_elem_of_lookup_2|done]. }
  rewrite Forall_forall in Hnews.
  split.
  - done.
  - intros u x Hu.
    destruct (Hlook u x Hu) as [[-> ->]|[[_ Hx]|(_ & Hx & _)]]; [done|eauto|].
    destruct (Hnews x Hx) as [-> _]. by rewrite after_0.
  - intros u x s e Hu Hs He Hends.
    destruct (Hlook u x Hu) as [[-> ->]|[[Hne Hx]|(_ & Hx & _)]].
    + destruct (Hsub s Hs) as [-> _].
      destruct (elem_of_pushed _ _ _ _ Hpush He) as [Hin|Hin].
      * destruct (Hpushed e _ Hin Hends) as [Heq _]. lia.
      * specialize (t_known0 e _ Hin Hends). lia.
    + destruct (elem_of_pushed _ _ _ _ Hpush He) as [Hin|Hin]; [|eauto].
      destruct (Hpushed e _ Hin Hends) as [-> Hb].
      destruct (t_kind0 u x p Hx Hs) as (g0 & Hg0 & Hst).
      assert (g0 = g) as -> by congruence. eauto.
    + destruct (Hnews x Hx) as [_ Hnone]. congruence.
  - intros u x s Hu Hs.
    destruct (Hlook u x Hu) as [[-> ->]|[[Hne Hx]|(_ & Hx & _)]].
    + destruct (Hsub s Hs) as (-> & y & -> & Hy). exists y. split; [|done].
      rewrite list_lookup_insert_ne by lia. by rewrite list_lookup_middle.
    + destruct (t_kind0 u x s Hx Hs) as (g0 & Hg0 & Hst).
      destruct (decide (s = p)) as [->|Hsp].
      * exists g'. rewrite list_lookup_insert_eq by (rewrite length_app; lia).
        split; [done|]. assert (g0 = g) as -> by congruence. congruence.
      * exists g0. rewrite list_lookup_insert_ne by done.
        rewrite lookup_app_l by (by eapply lookup_lt_Some). done.
    + destruct (Hnews x Hx) as [_ Hnone]. congruence.
  - intros e s He Hends. rewrite length_insert, length_app.
    destruct (elem_of_pushed _ _ _ _ Hpush He) as [Hin|Hin].
    + destruct (Hpushed e _ Hin Hends) as [-> _]. lia.
    + specialize (t_known0 e _ Hin Hends). lia.
Qed.

Ltac pushed_chain :=
  repeat lazymatch goal with
  | |- pushed_onto ?Q _ ?Q => apply po_nil
  | |- pushed_onto _ _ (heappush _ _) => eapply po_cons
  end.

Lemma resume_timing G d p th w :
  slow G d = true -> (0 <= d)%Z -> Timing d w ->
  (th = None -> in_time d (now w) (gens w) p) ->
  Timing d (snd (_resume G p th w)).
Proof.
  intros Hslow Hd Ht Hin. unfold _resume.
  destruct (procs w !! p) as [X|] eqn:HP; [|done].
  destruct (finished (generator X)) eqn:Hfin; [done|].
  assert (Hg : gens w !! p = Some (generator X)).
  { unfold gens. change (map generator (procs w)) with (generator <$> procs w).
    by rewrite list_lookup_fmap, HP. }
  assert (Hlen : p < length (gens w)) by (by eapply lookup_lt_Some).
  pose proof (t_level _ _ _ _ Ht p _ Hg) as Hlevel.
  pose proof (t_now _ _ _ _ Ht) as Hnow. rewrite <- (after_0 d) in Hnow.
  pose proof (t_level _ _ _ _ Ht) as Hlevels.
  pose proof (fun E => Hin E _ Hg) as Hready. clear Hin.
  destruct (send G p (generator X) th w) as [r w'] eqn:H.
  destruct (generator X) as [self pc|pt ms pc|pc|nm pt ms pc|self pt pc];
    destruct pc; try discriminate Hfin; destruct th; unfold_bodies.
  all: try match goal with
           | H : context [match ?rest with [] => _ | _ :: _ => _ end] |- _ =>
               is_var rest; destruct rest
           end.
  all: exec.
  all: unfold Timing, gens in *; wsimpl;
    rewrite ?gens_with_generator, ?gens_with_callback, ?map_app; simpl;
    repeat match goal with
           | |- context [map generator (procs ?x)] =>
               change (map generator (procs x)) with (gens x)
           | H : context [map generator (procs ?x)] |- _ =>
               change (map generator (procs x)) with (gens x) in H
           end.
  all: try match goal with
           | |- context [<[?q := ?g]> (gens ?x)] =>
               rewrite (insert_app_nil q g (gens x))
           end.
  all: eapply timing_update;
    [exact Ht|exact Hg|pushed_chain|reflexivity|..].
  all: try (repeat constructor; fail).
  all: try (intros s_ Hs_; simpl in Hs_;
            first [ discriminate Hs_
                  | injection Hs_ as <-; split;
                    [symmetry; apply length_map
                    |eexists; split; reflexivity] ]).
  all: try (destruct (Hready eq_refl) as [Hr1 Hr2];
            try specialize (Hr1 _ eq_refl)).
  all: try match goal with
           | H : (after ?dd ?m <= now _)%Q, Hdd : (0 <= ?dd)%Z
             |- (after ?dd ?n <= _)%Q =>
               refine (Qle_trans _ _ _ (after_mono dd _ m Hdd _) H);
               simpl in *; lia
           end.
  all: try (intros x_ s_ Hx_ Hends_;
            repeat (apply elem_of_cons in Hx_ as [->|Hx_]);
            try (by apply elem_of_nil in Hx_);
            simpl in Hends_;
            first [ discriminate Hends_
                  | injection Hends_ as <-; split; [reflexivity|];
                    intros Hst_; first [discriminate Hst_ | idtac] ]).
  - intros u gu Hu Hsub. simpl. rewrite after_S.
    pose proof (Hlevels u gu Hu) as Hl.
    pose proof (slow_rmin _ _ _ _ _ _ Hslow E1 E2) as Hmin.
    apply Z.ltb_ge in E3.
    pose proof (Z.mod_pos_bound
                  (Qfloor (Qabs (oracle (rng w1) (consumed (rng w1)))))
                  (rmax a1 - rmin a1 + 1)) as Hmod.
    assert (Hdraw : (inject_Z d <=
              inject_Z (rmin a1 +
                Qfloor (Qabs (oracle (rng w1) (consumed (rng w1))))
                `mod` (rmax a1 - rmin a1 + 1)))%Q).
    { rewrite <- Zle_Qle. lia. }
    lra.
  - intros u gu Hu Hsub. simpl. rewrite Qplus_0_r. eapply Hr2; eauto.
Qed.

(** * One step of the event loop *)

Lemma tokens_cons e Q :
  tokens (e :: Q) =
    match token_of (e_event e) with
    | Some t => t :: tokens Q
    | None => tokens Q
    end.
Proof. unfold tokens. simpl. by destruct (token_of (e_event e)). Qed.

(** The popped event resumes nothing. *)
Lemma sync_pop_none aw P e Q rs :
  sync_ok aw P (e :: Q) rs -> token_of (e_event e) = None ->
  sync_ok aw P Q rs.
Proof.
  intros [] He. rewrite tokens_cons, He in *.
  split; try done.
  intros s u Hu [Hl|Ht]; apply s_link0; try done; [by left|right].
  by rewrite tokens_cons, He.
Qed.

(** The popped event resumes process [q], which then runs. *)
Lemma sync_pop_own aw P e Q rs tok q :
  sync_ok aw P (e :: Q) rs -> token_of (e_event e) = Some tok ->
  target tok = Some q ->
  aw q = Some tok /\ sync_ok (await aw q None) P Q rs.
Proof.
  intros [] He Hq.
  assert (Htok : tokens (e :: Q) = tok :: tokens Q)
    by (by rewrite tokens_cons, He).
  rewrite Htok in *.
  apply NoDup_cons in s_nodup0 as [Hfresh Hnd].
  assert (Hawq : aw q = Some tok) by (apply s_queue0; [by left|done]).
  split; [done|]. split.
  - done.
  - intros t q' Hin Ht. unfold await. case_decide as Hd.
    + subst q'. assert (aw q = Some t) by (apply s_queue0; [by right|done]).
      congruence.
    + apply s_queue0; [by right|done].
  - intros s Hs. apply s_done0. by right.
  - intros k R r HR Hr. destruct (s_wait0 k R r HR Hr) as (? & Ha & Hn).
    repeat split; [done| |].
    + unfold await. case_decide as Hd; [|done]. exfalso. apply Hn.
      rewrite Hd in Ha. assert (tok = TRequest r) as -> by congruence.
      by left.
    + intros Hin. apply Hn. by right.
  - done.
  - intros s u Hu Hout. unfold await.
    assert (Ha : aw u = Some (TProcess s)).
    { apply s_link0; [done|]. destruct Hout as [Hl|Hin]; [by left|right].
      rewrite Htok. by right. }
    case_decide as Hd; [|done]. subst u.
    assert (tok = TProcess s) by congruence. subst tok. discriminate.
  - done.
  - intros q' t. unfold await. case_decide; [done|eauto].
Qed.

(** The popped event is the end of process [s]: its callbacks run. *)
Lemma sync_pop_process aw P e Q rs s f :
  sync_ok aw P (e :: Q) rs -> e_event e = ProcessEv s f ->
  sync_ok aw P Q rs /\
  forall u, u ∈ waiters P s ->
    aw u = Some (TProcess s) /\ sync_ok (await aw u None) P Q rs.
Proof.
  intros Hs He.
  assert (Htok : tokens (e :: Q) = TProcess s :: tokens Q)
    by (by rewrite tokens_cons, He).
  assert (Hfresh : (TProcess s ∉ tokens Q) /\ live P s = false).
  { destruct Hs. rewrite Htok in *.
    apply NoDup_cons in s_nodup0 as [? _]. split; [done|].
    apply s_done0. by left. }
  destruct Hfresh as [Hfresh Hdead].
  assert (Hgone : ~ outstanding P Q s).
  { intros [Hl|Hin]; [congruence|done]. }
  assert (Hout : forall s', outstanding P Q s' -> outstanding P (e :: Q) s').
  { intros s' [Hl|Hin]; [by left|right]. rewrite Htok. by right. }
  assert (Hmono : sync_ok aw P Q rs).
  { destruct Hs. rewrite Htok in *.
    apply NoDup_cons in s_nodup0 as [_ Hnd]. split; try done.
    - intros t q Hin Ht. apply s_queue0; [by right|done].
    - intros s' Hs'. apply s_done0. by right.
    - intros k R r HR Hr. destruct (s_wait0 k R r HR Hr) as (? & ? & Hn).
      repeat split; [done..|]. intros Hin. apply Hn. by right.
    - intros s' u Hu Ho. apply s_link0; [done|]. auto. }
  split; [done|]. intros u Hu.
  assert (Hawu : aw u = Some (TProcess s)).
  { apply (s_link _ _ _ _ Hs s u Hu). right. rewrite Htok. by left. }
  split; [done|]. destruct Hmono. split; try done.
  - intros t q Hin Ht. unfold await. case_decide as Hd; [|eauto].
    subst q. specialize (s_queue0 _ _ Hin Ht).
    assert (t = TProcess s) by congruence. subst t. discriminate.
  - intros k R r HR Hr. destruct (s_wait0 k R r HR Hr) as (? & Ha & ?).
    repeat split; [done| |done]. unfold await.
    case_decide as Hd; [|done]. rewrite Hd in Ha. congruence.
  - intros s' u' Hu' Ho. unfold await.
    specialize (s_link0 s' u' Hu' Ho).
    case_decide as Hd; [|done]. subst u'.
    assert (s' = s) by congruence. subst s'. done.
  - intros q t. unfold await. case_decide; [done|eauto].
Qed.

Lemma trigger_put_sync key w : Sync w -> Sync (snd (_trigger_put key w)).
Proof.
  intros Hs. destruct (_trigger_put key w) as [r w'] eqn:H. simpl.
  exec; try done. unfold Sync in *; wsimpl. eapply sync_grant; eauto.
Qed.

(** The clock moves to the time of the popped event. *)
Lemma timing_pop d t e Q gs :
  timing_ok d t (e :: Q) gs -> (t <= e_time e)%Q ->
  timing_ok d (e_time e) Q gs.
Proof.
  intros [] Ht. split.
  - lra.
  - intros u g Hu. specialize (t_level0 u g Hu). lra.
  - intros u g s x Hu Hs Hx. apply (t_sub0 u g s x Hu Hs). by right.
  - done.
  - intros x s Hx. apply t_known0. by right.
Qed.

Lemma timing_push d t Q gs e :
  timing_ok d t Q gs -> ends (e_event e) = None ->
  timing_ok d t (heappush e Q) gs.
Proof.
  intros [] He. split; try done.
  - intros u g s x Hu Hs [->|Hx]%elem_of_heappush; [congruence|eauto].
  - intros x s [->|Hx]%elem_of_heappush; [congruence|eauto].
Qed.

Lemma trigger_put_timing d key w :
  Timing d w -> Timing d (snd (_trigger_put key w)).
Proof.
  intros Ht. destruct (_trigger_put key w) as [r w'] eqn:H. simpl.
  exec; try done. unfold Timing, gens in *; wsimpl.
  by apply timing_push.
Qed.

Lemma awaited_gens w q g :
  gens w !! q = Some g -> awaited (procs w) q = awaits q g.
Proof.
  unfold gens, awaited.
  change (map generator (procs w)) with (generator <$> procs w).
  rewrite list_lookup_fmap. destruct (procs w !! q); [|done].
  simpl. by intros [= ->].
Qed.

(** A process resumed by its own event is resumed in time. *)
Lemma in_time_own d w e Q tok q :
  Timing d w -> queue w = e :: Q ->
  token_of (e_event e) = Some tok -> target tok = Some q ->
  awaited (procs w) q = Some tok ->
  in_time d (e_time e) (gens w) q.
Proof.
  intros Ht HQ He Hq Ha g Hg.
  rewrite (awaited_gens _ _ _ Hg) in Ha. split.
  - intros s Hs. destruct g as [? ?|? ? ?|?|? ? ? []|? ? ?]; try discriminate.
    simpl in Ha. injection Ha as <-. discriminate.
  - intros m pt u gu -> Hu Hsub. simpl in Ha. injection Ha as <-.
    destruct (e_event e) eqn:Hev; try discriminate. injection He as ->.
    destruct Ht. rewrite HQ in *.
    apply (t_sub0 u gu q e Hu Hsub); [by left|]. by rewrite Hev.
Qed.

(** A unit resumed by the successful end of the process it waits for is
    resumed in time. *)
Lemma in_time_callback d w e Q s u :
  Timing d w -> queue w = e :: Q -> e_event e = ProcessEv s None ->
  awaited (procs w) u = Some (TProcess s) ->
  in_time d (e_time e) (gens w) u.
Proof.
  intros Ht HQ He Ha g Hg.
  rewrite (awaited_gens _ _ _ Hg) in Ha. split.
  - intros s' Hs'. destruct g as [? ?|? ? ?|?|? ? ? []|? ? ?]; try discriminate.
    simpl in Ha, Hs'. injection Ha as ->. destruct Ht. rewrite HQ in *.
    eapply t_sub0; [exact Hg|reflexivity|by left|]. by rewrite He.
  - intros m pt u' gu ->. discriminate.
Qed.

Lemma resume_counted G p th w :
  counted (gens w) (stdout w) (PRODUCTS_PRODUCED w) (RAW_MATERIALS_USED w) ->
  let w' := snd (_resume G p th w) in
  counted (gens w') (stdout w') (PRODUCTS_PRODUCED w')
    (RAW_MATERIALS_USED w').
Proof.
  intros Hc. apply (resume_on_world G counted); [|exact Hc].
  intros. eapply counted_effect; eauto.
Qed.

(** The popped event has resumed process [p], in time. *)
Lemma resume_on_time G H d p th w :
  slow G d = true -> (0 <= d)%Z ->
  kernel_ok H (now w) (queue w) -> Running p w -> Timing d w ->
  (th = None -> in_time d (now w) (gens w) p) ->
  counted (gens w) (stdout w) (PRODUCTS_PRODUCED w) (RAW_MATERIALS_USED w) ->
  on_time H d (snd (_resume G p th w)).
Proof.
  intros Hslow Hd Hk Hr Ht Hin Hc.
  split; [by apply resume_kernel|]. split; [by apply resume_sync|].
  split; [by apply resume_timing|]. by apply resume_counted.
Qed.

Lemma step_on_time G H d w w' :
  slow G d = true -> (0 <= d)%Z ->
  on_time H d w -> step G w = (Ok Continue, w') -> on_time H d w'.
Proof.
  intros Hslow Hd (Hk & Hs & Ht & Hc). unfold step.
  destruct (queue w) as [|e Q] eqn:HQ; [discriminate|].
  set (w1 := set_now (e_time e) (set_heap (eid w) Q w)).
  assert (Hle : (now w <= e_time e)%Q).
  { apply (k_future _ _ _ Hk). left. }
  unfold Sync, Timing in Hs, Ht. rewrite HQ in Hs, Ht.
  pose proof (timing_pop _ _ _ _ _ Ht Hle) as Ht1.
  assert (Hown : forall tok q th,
            token_of (e_event e) = Some tok -> target tok = Some q ->
            e_event e <> Until ->
            on_time H d (snd (_resume G q th w1))).
  { intros tok q th Htok Hq Hne.
    destruct (sync_pop_own _ _ _ _ _ _ _ Hs Htok Hq) as [Ha Hrun].
    apply resume_on_time; try done.
    - by eapply kernel_pop.
    - intros _. eapply (in_time_own d w e Q tok q); try done.
      unfold Timing. by rewrite HQ. }
  destruct (e_event e) as [p|p|r|r|s f|] eqn:Hev; simpl; unfold bind.
  - pose proof (resume_ok G p None w1) as Hok.
    specialize (Hown (TInit p) p None eq_refl eq_refl).
    destruct (_resume G p None w1) as [[[]|?] w2]; [|discriminate].
    intros [= <-]. by apply Hown.
  - pose proof (resume_ok G p None w1) as Hok.
    specialize (Hown (TTimeout p) p None eq_refl eq_refl).
    destruct (_resume G p None w1) as [[[]|?] w2]; [|discriminate].
    intros [= <-]. by apply Hown.
  - pose proof (resume_ok G (req_proc r) None w1) as Hok.
    specialize (Hown (TRequest r) (req_proc r) None eq_refl eq_refl).
    destruct (_resume G (req_proc r) None w1) as [[[]|?] w2]; [|discriminate].
    intros [= <-]. by apply Hown.
  - destruct (trigger_put_frame (resource r) w1)
      as (Hok & Hp & Ho & Hpp & Hru & _).
    assert (Hk1 : kernel_ok H (now w1) (queue w1)).
    { eapply kernel_pop; [exact Hk|]. by rewrite Hev. }
    pose proof (trigger_put_kernel H (resource r) w1 Hk1) as Hk2.
    assert (Hs1 : Sync w1).
    { eapply sync_pop_none; [exact Hs|]. by rewrite Hev. }
    pose proof (trigger_put_sync (resource r) w1 Hs1) as Hs2.
    pose proof (trigger_put_timing d (resource r) w1 Ht1) as Ht2.
    destruct (_trigger_put (resource r) w1) as [[[]|?] w2]; [|discriminate].
    intros [= <-]. simpl in *.
    split; [done|]. split; [done|]. split; [done|].
    unfold gens. by rewrite Hp, Ho, Hpp, Hru.
  - unfold gets, ret. simpl.
    change (from_option callbacks [] (procs w !! s))
      with (waiters (procs w) s).
    destruct (sync_pop_process _ _ _ _ _ s f Hs Hev) as [Hs1 Hcb].
    assert (Hk1 : kernel_ok H (now w1) (queue w1)).
    { eapply kernel_pop; [exact Hk|]. by rewrite Hev. }
    pose proof (s_single _ _ _ _ Hs s) as Hlen.
    destruct (waiters (procs w) s) as [|u [|u' l]] eqn:Hw;
      [|clear Hlen|simpl in Hlen; lia].
    + simpl. destruct f; [discriminate|]. intros [= <-].
      split; [done|]. split; [done|]. split; done.
    + simpl. unfold bind.
      pose proof (resume_ok G u f w1) as Hok.
      destruct (Hcb u) as [Ha Hrun]; [by left|].
      assert (Hon : on_time H d (snd (_resume G u f w1))).
      { apply resume_on_time; try done.
        intros ->. eapply (in_time_callback d w e Q s u); try done.
        unfold Timing. by rewrite HQ. }
      destruct (_resume G u f w1) as [[[]|?] w2]; [|discriminate].
      simpl in *. destruct f; intros [= <-]; done.
  - discriminate.
Qed.

(** * From [run_scenario] to the loop of [env.run] *)

Lemma keeps_bind {A B} I (m : M A) (k : A -> M B) :
  keeps I m -> (forall a, keeps I (k a)) -> keeps I (bind m k).
Proof.
  intros Hm Hk w Hw. unfold bind. specialize (Hm w Hw).
  destruct (m w) as [[a|e] w1]; simpl in *; [by apply Hk|done].
Qed.

Lemma keeps_ret {A} I (a : A) : keeps I (ret a).
Proof. by intros w Hw. Qed.

Lemma keeps_subscript {V} I (d : dict V) k : keeps I (subscript d k).
Proof. intros w Hw. unfold subscript. by destruct (dict_get d k). Qed.

Lemma keeps_for_each {A} I (l : list A) (f : A -> M unit) :
  (forall x, keeps I (f x)) -> keeps I (for_each l f).
Proof.
  intros Hf. induction l as [|x l IH]; simpl; [apply keeps_ret|].
  apply keeps_bind; [apply Hf|]. by intros [].
Qed.

Lemma sync_new_resource aw P Q rs key cap :
  sync_ok aw P Q rs ->
  sync_ok aw P Q
    (<[key := {| capacity := cap; users := []; put_queue := [] |}]> rs).
Proof.
  intros [? ? ? Hwait Hwnd ? ? ?]. split; try done.
  - intros k R r HR Hr. destruct (decide (k = key)) as [->|Hne].
    + rewrite lookup_insert_eq in HR. injection HR as <-.
      by apply elem_of_nil in Hr.
    + rewrite lookup_insert_ne in HR by done. eauto.
  - intros k R HR. destruct (decide (k = key)) as [->|Hne].
    + rewrite lookup_insert_eq in HR. injection HR as <-. constructor.
    + rewrite lookup_insert_ne in HR by done. eauto.
Qed.

Lemma timing_spawn d t Q gs g e :
  timing_ok d t Q gs -> stages_done g = 0 -> sub_of g = None ->
  ends (e_event e) = None ->
  timing_ok d t (heappush e Q) (gs ++ [g]).
Proof.
  intros Ht Hg Hsub He. apply (timing_push _ _ _ _ e) in Ht; [|done].
  destruct Ht as [t_now0 t_level0 t_sub0 t_kind0 t_known0]. split.
  - done.
  - intros u x [Hu|[_ Hu]]%lookup_app_Some; [eauto|].
    apply list_elem_of_lookup_2, list_elem_of_singleton in Hu as ->.
    rewrite Hg, after_0. done.
  - intros u x s y [Hu|[_ Hu]]%lookup_app_Some; [eauto|].
    apply list_elem_of_lookup_2, list_elem_of_singleton in Hu as ->.
    congruence.
  - intros u x s [Hu|[_ Hu]]%lookup_app_Some Hs.
    + destruct (t_kind0 u x s Hu Hs) as (g' & Hg' & Hst).
      exists g'. split; [|done].
      rewrite lookup_app_l; [done|by eapply lookup_lt_Some].
    + apply list_elem_of_lookup_2, list_elem_of_singleton in Hu as ->.
      congruence.
  - intros y s Hy Hs. rewrite length_app. specialize (t_known0 y s Hy Hs).
    lia.
Qed.

Lemma keeps_process d g :
  not_started g = true -> keeps (booting d) (process g).
Proof.
  intros Hg w (Hnow & Hsort & Hq & Hs & Ht).
  unfold process, gets, modify, schedule, bind, ret. simpl.
  unfold booting, Sync, Timing, gens in *. wsimpl.
  split; [done|]. split; [by apply heappush_sorted|]. split.
  { intros e [->|He]%elem_of_heappush; [|eauto]. simpl.
    rewrite Hnow. split; [lra|]. split; done. }
  split.
  - eapply sync_ext; [by apply sync_spawn|]. intros q.
    rewrite awaited_app. unfold await. case_decide; [|done]. subst q.
    simpl. by destruct g as [? []|?? []|[]|??? []|?? []].
  - rewrite map_app. simpl. apply timing_spawn; try done.
    + by destruct g as [? []|?? []|[]|??? []|?? []].
    + by destruct g as [? []|?? []|[]|??? []|?? []].
Qed.

Lemma keeps_new_Resource d key cap : keeps (booting d) (new_Resource key cap).
Proof.
  intros w (Hnow & Hsort & Hq & Hs & Ht). unfold new_Resource.
  destruct (cap <=? 0)%Z; [done|]. unfold modify. simpl.
  unfold booting, Sync in *. wsimpl.
  repeat (split; [done|]). split; [|done]. by apply sync_new_resource.
Qed.

Lemma keeps_build_machines G d nm keys :
  keeps (booting d) (build_machines G nm keys).
Proof.
  induction keys as [|k keys IH]; simpl; [apply keeps_ret|].
  apply keeps_bind; [apply keeps_subscript|]. intros q.
  apply keeps_bind.
  { unfold Machine_init. apply keeps_bind; [apply keeps_new_Resource|].
    intros []. apply keeps_bind; [apply keeps_subscript|]. intros bt.
    apply keeps_bind; [apply keeps_subscript|]. intros rt. apply keeps_ret. }
  intros m. apply keeps_bind; [exact IH|]. intros ms. apply keeps_ret.
Qed.

Lemma booting_Environment d w : booting d (Environment w).
Proof.
  unfold booting, Environment, Sync, Timing, gens. simpl.
  split; [done|]. split; [constructor|]. split.
  { intros e He. by apply elem_of_nil in He. }
  split.
  - split; simpl.
    + constructor.
    + intros t q Ht. by apply elem_of_nil in Ht.
    + intros s Hs. by apply elem_of_nil in Hs.
    + intros k R r HR. by rewrite lookup_empty in HR.
    + intros k R HR. by rewrite lookup_empty in HR.
    + intros s u Hu. by apply elem_of_nil in Hu.
    + intros s. simpl. lia.
    + intros q t Hq. discriminate.
  - split; simpl.
    + lra.
    + intros u g Hu. discriminate.
    + intros u g s e Hu. discriminate.
    + intros u g s Hu. discriminate.
    + intros e s He. by apply elem_of_nil in He.
Qed.

Lemma keeps_start_scenario G d nm ss :
  keeps (booting d) (start_scenario G nm ss).
Proof.
  unfold start_scenario.
  apply keeps_bind; [by intros w Hw|]. intros [].
  apply keeps_bind; [by intros w Hw|]. intros [].
  apply keeps_bind; [apply keeps_build_machines|]. intros ms.
  apply keeps_bind.
  { apply keeps_for_each. intros mt.
    apply keeps_bind; [apply keeps_subscript|]. intros m.
    apply keeps_bind; [by apply keeps_process|]. intros s. apply keeps_ret. }
  intros [].
  apply keeps_bind.
  { apply keeps_for_each. intros pt.
    apply keeps_bind; [by apply keeps_process|]. intros s. apply keeps_ret. }
  intros [].
  apply keeps_bind; [by apply keeps_process|]. intros s. apply keeps_ret.
Qed.

(** [env.run] enters its loop on time. *)
Lemma run_starts_on_time G d nm ss h w0 w :
  run_starts G nm ss h w0 w -> on_time (inject_Z h) d w.
Proof.
  intros Hrun. pose proof (counted_at_start _ _ _ _ _ _ Hrun) as Hc.
  destruct Hrun as (w1 & Hs & Hh & ->).
  pose proof (keeps_start_scenario G d nm ss (Environment w0)
                (booting_Environment d w0)) as Hb.
  rewrite Hs in Hb. simpl in Hb.
  destruct Hb as (Hnow & Hsort & Hq & Hsync & Ht).
  assert (Hpos : (0 < inject_Z h)%Q).
  { rewrite Hnow in Hh. destruct (Qlt_le_dec 0 (inject_Z h)) as [|Hle]; [done|].
    apply Qle_bool_iff in Hle. congruence. }
  unfold schedule, modify in *. simpl in *.
  unfold on_time, Sync, Timing, gens in *. wsimpl.
  split; [|split; [|split]].
  - rewrite Hnow. split.
    + by apply heappush_sorted.
    + lra.
    + intros e [->|He]%elem_of_heappush; simpl; [lra|].
      destruct (Hq e He) as (-> & _). lra.
    + intros e [->|He]%elem_of_heappush; simpl; [by left|].
      destruct (Hq e He) as (-> & _). by right.
    + eexists. split; [apply elem_of_heappush; by left|]. simpl.
      split; [done|]. split; [done|]. lra.
    + done.
  - by apply sync_push_none.
  - by apply timing_push.
  - exact Hc.
Qed.

(** * A run that is too short to complete a unit *)

Lemma count_none f (l : list Gen) :
  (forall g, g ∈ l -> f g = false) -> count f l = 0.
Proof.
  induction l as [|g l IH]; simpl; [done|]. intros H.
  rewrite (H g) by left. rewrite IH; [done|]. intros x Hx. apply H. by right.
Qed.

(** Before four processing times have passed, no unit is completed. *)
Lemma on_time_nothing_done H d w :
  on_time H d w -> (H <= after d 4)%Q -> PRODUCTS_PRODUCED w = 0%Z.
Proof.
  intros (Hk & _ & Ht & [Hp _]) HH. rewrite Hp.
  rewrite count_none; [done|]. intros g Hg.
  destruct (is_completed g) eqn:Hc; [exfalso|done].
  apply list_elem_of_lookup_1 in Hg as [u Hu].
  pose proof (t_level _ _ _ _ Ht u g Hu) as Hl.
  pose proof (k_before _ _ _ Hk) as Hb.
  destruct g as [? ?|? ? ?|?|? ? ? []|? ? ?]; try discriminate Hc.
  simpl in Hl. lra.
Qed.

(** The event that stops the loop resumes nothing. *)
Lemma step_stop G w w' :
  step G w = (Ok StopSimulation, w') ->
  PRODUCTS_PRODUCED w' = PRODUCTS_PRODUCED w.
Proof.
  unfold step. destruct (queue w) as [|e Q]; [discriminate|].
  set (w1 := set_now (e_time e) (set_heap (eid w) Q w)).
  destruct (e_event e) as [p|p|r|r|s f|]; simpl; unfold bind.
  - by destruct (_resume G p None w1) as [[[]|?] ?].
  - by destruct (_resume G p None w1) as [[[]|?] ?].
  - by destruct (_resume G (req_proc r) None w1) as [[[]|?] ?].
  - by destruct (_trigger_put (resource r) w1) as [[[]|?] ?].
  - unfold gets. simpl.
    destruct (run_callbacks G (from_option callbacks [] (procs w !! s)) f w1)
      as [[[]|?] ?]; [|done].
    by destruct f, (from_option callbacks [] (procs w !! s)).
  - by intros [= <-].
Qed.

Lemma run_loop_nothing_done G H d fuel w w' :
  slow G d = true -> (0 <= d)%Z -> (H <= after d 4)%Q ->
  on_time H d w -> run_loop G fuel w = Some (Ok tt, w') ->
  PRODUCTS_PRODUCED w' = 0%Z.
Proof.
  intros Hslow Hd HH. revert w.
  induction fuel as [|fuel IH]; simpl; intros w Hw; [discriminate|].
  destruct (step G w) as [[[]|e] w1] eqn:Hstep.
  - apply IH. by eapply step_on_time.
  - intros [= <-]. rewrite (step_stop _ _ _ Hstep).
    by eapply on_time_nothing_done.
  - discriminate.
Qed.

(** When every stage takes at least [d] and the run ends at [4 * d] or
    before, [run_scenario] returns no completed unit. *)
Lemma short_run_completes_nothing G d nm ss h fuel w0 P U w' :
  slow G d = true -> (0 <= d)%Z -> (h <= 4 * d)%Z ->
  run_scenario G nm ss h fuel (Environment w0) = Some (Ok (P, U), w') ->
  P = 0%Z.
Proof.
  intros Hslow Hd Hh. unfold run_scenario.
  destruct (start_scenario G nm ss (Environment w0)) as [[[]|e] w1] eqn:Hs;
    [|discriminate].
  unfold run. destruct (Qle_bool (inject_Z h) (now w1)) eqn:Hle; [discriminate|].
  destruct (schedule Until URGENT (inject_Z h - now w1) w1) as [r1 w2] eqn:Hsch.
  destruct (run_loop G fuel w2) as [[[[]|e] w3]|] eqn:Hloop; try discriminate.
  intros [= <- _ _].
  eapply (run_loop_nothing_done G (inject_Z h) d); try done.
  - unfold after. rewrite <- Zle_Qle. lia.
  - apply (run_starts_on_time G d nm ss h w0). exists w1.
    split; [done|]. split; [done|]. by rewrite Hsch.
Qed.

(** C4 as stated fails: in the scenario, with a [random] module that
    always delivers 1, the run of twenty minutes completes no unit; the
    packaging of the first unit ends in the 21st minute, and the run of 41
    minutes completes four. *)
Lemma four_units_in_twenty_minutes_fails :
  option_map fst
    (run_scenario five_minutes one_each [] 20 100
       (Environment (at_import (constant_rng 1))))
  = Some (Ok (0, 19)%Z) /\
  option_map fst
    (run_scenario five_minutes one_each [] 21 400
       (Environment (at_import (constant_rng 1))))
  = Some (Ok (0, 20)%Z) /\
  option_map fst
    (run_scenario five_minutes one_each [] 22 400
       (Environment (at_import (constant_rng 1))))
  = Some (Ok (1, 21)%Z).
Proof. repeat split; vm_compute; reflexivity. Qed.

(** C4, amended: in the scenario (capacity 1 at every stage, one product
    type, every processing time exactly 5 minutes, no breakdown before the
    21st minute, horizon 20 minutes) the run completes no unit, whatever
    the [random] module delivers: a unit needs 20 minutes of processing
    after its arrival, and [env.run(until=20)] stops before the events of
    minute 20. *)
Theorem no_unit_in_twenty_minutes shift_schedules fuel w0 produced used w' :
  run_scenario five_minutes one_each shift_schedules 20 fuel (Environment w0)
  = Some (Ok (produced, used), w') ->
  produced = 0%Z.
Proof.
  apply (short_run_completes_nothing five_minutes 5); [reflexivity|lia|lia].
Qed.

Lemma no_unit_in_twenty_minutes_witness :
  let r := run_scenario five_minutes one_each [] 20 100
             (Environment (at_import (constant_rng 1))) in
  r = Some (Ok (0, 19)%Z, world_of r) /\ 0%Z = 0%Z.
Proof.
  intros r.
  assert (Hr : r = Some (Ok (0, 19)%Z, world_of r))
    by (vm_compute; reflexivity).
  split; [exact Hr|].
  exact (no_unit_in_twenty_minutes [] 100 (at_import (constant_rng 1))
           0%Z 19%Z (world_of r) Hr).
Defined.

(** * Further properties of a run *)

(** ** Every event resumes a process that waits for it *)

Lemma step_sync G w : Sync w -> Sync (snd (step G w)).
Proof.
  intros Hs. unfold step. destruct (queue w) as [|e Q] eqn:HQ; [done|].
  set (w1 := set_now (e_time e) (set_heap (eid w) Q w)).
  unfold Sync in Hs. rewrite HQ in Hs.
  assert (Hown : forall tok q th,
            token_of (e_event e) = Some tok -> target tok = Some q ->
            Sync (snd (_resume G q th w1))).
  { intros tok q th Htok Hq.
    destruct (sync_pop_own _ _ _ _ _ _ _ Hs Htok Hq) as [_ Hrun].
    by apply resume_sync. }
  destruct (e_event e) as [p|p|r|r|s f|] eqn:Hev; simpl; unfold bind.
  - specialize (Hown (TInit p) p None eq_refl eq_refl).
    by destruct (_resume G p None w1) as [[[]|?] w2].
  - specialize (Hown (TTimeout p) p None eq_refl eq_refl).
    by destruct (_resume G p None w1) as [[[]|?] w2].
  - specialize (Hown (TRequest r) (req_proc r) None eq_refl eq_refl).
    by destruct (_resume G (req_proc r) None w1) as [[[]|?] w2].
  - assert (Hs1 : Sync w1).
    { eapply sync_pop_none; [exact Hs|]. by rewrite Hev. }
    pose proof (trigger_put_sync (resource r) w1 Hs1) as Hs2.
    by destruct (_trigger_put (resource r) w1) as [[[]|?] w2].
  - unfold gets, ret. simpl.
    change (from_option callbacks [] (procs w !! s))
      with (waiters (procs w) s).
    destruct (sync_pop_process _ _ _ _ _ s f Hs Hev) as [Hs1 Hcb].
    pose proof (s_single _ _ _ _ Hs s) as Hlen.
    destruct (waiters (procs w) s) as [|u [|u' l]] eqn:Hw;
      [|clear Hlen|simpl in Hlen; lia].
    + simpl. by destruct f.
    + simpl. unfold bind.
      destruct (Hcb u) as [_ Hrun]; [by left|].
      pose proof (resume_sync G u f w1 Hrun) as Hs2.
      destruct (_resume G u f w1) as [[[]|?] w2]; simpl in *; [|done].
      by destruct f.
  - simpl. eapply sync_pop_none; [exact Hs|]. by rewrite Hev.
Qed.

Lemma steps_sync G w w' : steps G w w' -> Sync w -> Sync w'.
Proof.
  induction 1 as [|w r w1 w2 Hstep _ IH]; [done|].
  intros Hw. apply IH. pose proof (step_sync G w Hw) as H.
  by rewrite Hstep in H.
Qed.

Lemma reachable_sync G nm ss h w0 w : reachable G nm ss h w0 w -> Sync w.
Proof.
  intros (wi & Hi & Hsteps). eapply steps_sync; [exact Hsteps|].
  by destruct (run_starts_on_time G 0 nm ss h w0 wi Hi) as (_ & Hs & _).
Qed.

Lemma awaited_Some w q tok :
  awaited (procs w) q = Some tok ->
  exists g, gens w !! q = Some g /\ awaits q g = Some tok.
Proof.
  unfold awaited, gens.
  change (map generator (procs w)) with (generator <$> procs w).
  rewrite list_lookup_fmap. destruct (procs w !! q) as [X|]; [|done].
  simpl. intros H. by exists (generator X).
Qed.

Lemma elem_of_tokens e Q tok :
  e ∈ Q -> token_of (e_event e) = Some tok -> tok ∈ tokens Q.
Proof.
  intros He Ht. unfold tokens. apply list_elem_of_omap. by exists e.
Qed.

(** X4: in every state of a run the queue holds no event twice, and each
    of its events belongs to a process that waits for it: an
    [Initialize] event to a process that has not started, a [Timeout] to
    a process suspended at the [yield env.timeout(...)] that made it, a
    triggered request to a process suspended at [yield request] on that
    request, and the end of a process to a process whose generator has
    returned or raised. *)
Theorem queued_events_are_awaited G num_machines shift_schedules
    simulation_time w0 w :
  reachable G num_machines shift_schedules simulation_time w0 w ->
  NoDup (tokens (queue w)) /\
  (forall e p, e ∈ queue w -> e_event e = Initialize p ->
     exists g, gens w !! p = Some g /\ not_started g = true) /\
  (forall e p, e ∈ queue w -> e_event e = Timeout p ->
     exists g, gens w !! p = Some g /\ awaits p g = Some (TTimeout p)) /\
  (forall e r, e ∈ queue w -> e_event e = Request r ->
     exists g, gens w !! req_proc r = Some g /\
       awaits (req_proc r) g = Some (TRequest r) /\
       current_request g = Some r) /\
  (forall e s f, e ∈ queue w -> e_event e = ProcessEv s f ->
     exists g, gens w !! s = Some g /\ finished g = true).
Proof.
  intros Hw. apply reachable_sync in Hw.
  destruct Hw as [Hnd Hq Hdone _ _ _ _ _].
  split; [exact Hnd|]. split; [|split; [|split]].
  - intros e p He Hev.
    destruct (awaited_Some w p (TInit p)) as (g & Hg & Ha).
    { apply Hq; [|done]. eapply elem_of_tokens; [exact He|]. by rewrite Hev. }
    exists g. split; [done|].
    by destruct g as [? []|?? []|[]|??? []|?? []].
  - intros e p He Hev. apply awaited_Some.
    apply Hq; [|done]. eapply elem_of_tokens; [exact He|]. by rewrite Hev.
  - intros e r He Hev.
    destruct (awaited_Some w (req_proc r) (TRequest r)) as (g & Hg & Ha).
    { apply Hq; [|done]. eapply elem_of_tokens; [exact He|]. by rewrite Hev. }
    exists g. split; [done|]. split; [done|].
    destruct g as [? []|?? []|[]|??? []|?? []]; simpl in *; congruence.
  - intros e s f He Hev.
    destruct (Hdone s) as [Hlen Hlive].
    { eapply elem_of_tokens; [exact He|]. by rewrite Hev. }
    unfold live in Hlive. unfold gens.
    change (map generator (procs w)) with (generator <$> procs w).
    rewrite list_lookup_fmap.
    destruct (procs w !! s) as [X|] eqn:HX.
    + exists (generator X). split; [done|].
      by destruct (finished (generator X)).
    + apply lookup_ge_None in HX. lia.
Qed.

(** X5: in every state of a run, a request that waits in the queue of a
    pool is there once, in the pool it was made on, belongs to a process
    suspended at [yield request] on it, and has not been triggered; and a
    process has at most one callback, a unit suspended at the
    [yield env.process(...)] that started it, as long as its end has not
    been dispatched. *)
Theorem waiting_requests_are_awaited G num_machines shift_schedules
    simulation_time w0 w :
  reachable G num_machines shift_schedules simulation_time w0 w ->
  (forall k R, resources w !! k = Some R -> NoDup (put_queue R)) /\
  (forall k R r, resources w !! k = Some R -> r ∈ put_queue R ->
     resource r = k /\
     (exists g, gens w !! req_proc r = Some g /\
        awaits (req_proc r) g = Some (TRequest r)) /\
     forall e, e ∈ queue w -> e_event e <> Request r) /\
  (forall s, length (waiters (procs w) s) <= 1) /\
  (forall s u, u ∈ waiters (procs w) s -> outstanding (procs w) (queue w) s ->
     exists g, gens w !! u = Some g /\ sub_of g = Some s).
Proof.
  intros Hw. apply reachable_sync in Hw.
  destruct Hw as [_ _ _ Hwait Hnd Hlink Hsingle _].
  split; [exact Hnd|]. split; [|split; [exact Hsingle|]].
  - intros k R r HR Hr. destruct (Hwait k R r HR Hr) as (Hk & Ha & Hn).
    split; [done|]. split; [by apply awaited_Some|].
    intros e He Hev. apply Hn. eapply elem_of_tokens; [exact He|].
    by rewrite Hev.
  - intros s u Hu Hout.
    destruct (awaited_Some w u _ (Hlink s u Hu Hout)) as (g & Hg & Ha).
    exists g. split; [done|].
    destruct g as [? []|?? []|[]|??? []|?? []]; simpl in *; congruence.
Qed.

Lemma queued_events_are_awaited_witness :
  let w := world_of (run_scenario five_minutes one_each [] 20 100
                       (Environment (at_import (constant_rng 1)))) in
  NoDup (tokens (queue w)) /\ length (queue w) = 10.
Proof.
  intros w.
  assert (Hw : reachable five_minutes one_each [] 20
                 (at_import (constant_rng 1)) w).
  { apply (run_scenario_reachable five_minutes one_each [] 20 100
             (at_import (constant_rng 1)) 0%Z 19%Z w).
    vm_compute. reflexivity. }
  split; [|vm_compute; reflexivity].
  exact (proj1 (queued_events_are_awaited five_minutes one_each [] 20
                  (at_import (constant_rng 1)) w Hw)).
Defined.

Lemma waiting_requests_are_awaited_witness :
  let w := world_of (run_scenario five_minutes one_each [] 20 100
                       (Environment (at_import (constant_rng 1)))) in
  waiters (procs w) 31 = [10] /\
  exists g, gens w !! 10 = Some g /\ sub_of g = Some 31.
Proof.
  intros w.
  assert (Hw : reachable five_minutes one_each [] 20
                 (at_import (constant_rng 1)) w).
  { apply (run_scenario_reachable five_minutes one_each [] 20 100
             (at_import (constant_rng 1)) 0%Z 19%Z w).
    vm_compute. reflexivity. }
  assert (Hwait : waiters (procs w) 31 = [10]) by (vm_compute; reflexivity).
  split; [exact Hwait|].
  apply (proj2 (proj2 (proj2
           (waiting_requests_are_awaited five_minutes one_each [] 20
              (at_import (constant_rng 1)) w Hw))) 31 10).
  - rewrite Hwait. left.
  - left. vm_compute. reflexivity.
Defined.

(** ** The clock and the log *)

Lemma until_push H q t pr n ev :
  until_at H q -> ev <> Until -> until_at H (heappush (Entry t pr n ev) q).
Proof.
  intros Hq Hev e [->|He]%elem_of_heappush; [done|auto].
Qed.

Ltac until_chain Hu :=
  repeat lazymatch goal with
  | |- until_at _ (queue _) => exact Hu
  | |- until_at _ (heappush _ _) => apply until_push; [|discriminate]
  end.

Lemma resume_until G H p th w :
  until_at H (queue w) -> until_at H (queue (snd (_resume G p th w))).
Proof.
  intros Hu. unfold _resume.
  destruct (procs w !! p) as [X|] eqn:HP; [|done].
  destruct (finished (generator X)) eqn:Hfin; [done|].
  destruct (send G p (generator X) th w) as [r w'] eqn:H0.
  destruct (generator X) as [self pc|pt ms pc|pc|nm pt ms pc|self pt pc];
    destruct pc; try discriminate Hfin; destruct th; unfold_bodies.
  all: try match goal with
           | H : context [match ?rest with [] => _ | _ :: _ => _ end] |- _ =>
               is_var rest; destruct rest
           end.
  all: exec.
  all: until_chain Hu.
Qed.

Lemma trigger_put_until H key w :
  until_at H (queue w) -> until_at H (queue (snd (_trigger_put key w))).
Proof.
  intros Hu. destruct (_trigger_put key w) as [r w'] eqn:H0. simpl.
  exec; until_chain Hu.
Qed.

Lemma log_ok_later old t t' out :
  log_ok old t out -> (t <= t')%Q -> log_ok old t' out.
Proof.
  intros (new & -> & Hs & Hb) Ht. exists new. split; [done|]. split; [done|].
  intros l Hl. specialize (Hb l Hl). lra.
Qed.

Lemma log_ok_app old t out lines :
  log_ok old t out -> (0 <= t)%Q ->
  Forall (fun l => line_time l = t) lines ->
  log_ok old t (out ++ lines).
Proof.
  intros (new & -> & Hs & Hb) Ht Hl. rewrite Forall_forall in Hl.
  exists (new ++ lines). split; [by rewrite app_assoc|]. split.
  - clear Ht. induction Hs as [|x new Hnew IH Hx]; simpl.
    + induction lines as [|y lines IHl]; constructor.
      * apply IHl. intros z Hz. apply Hl. by right.
      * apply Forall_forall. intros z Hz. unfold earlier.
        rewrite (Hl y) by left. rewrite (Hl z) by (by right). lra.
    + constructor.
      * apply IH. intros l Hin. apply Hb. by right.
      * apply Forall_app. split; [done|]. apply Forall_forall.
        intros z Hz. unfold earlier. rewrite (Hl z Hz).
        apply (Hb x). left.
  - intros l [Hin|Hin]%elem_of_app; [auto|]. rewrite (Hl l Hin). lra.
Qed.

(** A resumption prints its lines with the time of the clock. *)
Lemma resume_lines G p th w :
  exists lines,
    stdout (snd (_resume G p th w)) = stdout w ++ lines /\
    Forall (fun l => line_time l = now w) lines /\
    now (snd (_resume G p th w)) = now w.
Proof.
  unfold _resume.
  destruct (procs w !! p) as [X|] eqn:HP;
    [|exists []; by rewrite app_nil_r].
  destruct (finished (generator X)) eqn:Hfin;
    [exists []; by rewrite app_nil_r|].
  destruct (send G p (generator X) th w) as [r w'] eqn:H0.
  destruct (generator X) as [self pc|pt ms pc|pc|nm pt ms pc|self pt pc];
    destruct pc; try discriminate Hfin; destruct th; unfold_bodies.
  all: try match goal with
           | H : context [match ?rest with [] => _ | _ :: _ => _ end] |- _ =>
               is_var rest; destruct rest
           end.
  all: exec.
  all: eexists; split;
    [rewrite <- ?app_assoc; simpl;
     first [reflexivity | symmetry; apply app_nil_r]|].
  all: split; [repeat constructor|reflexivity].
Qed.

Lemma resume_clock G H old p th w :
  clock_ok H old w -> clock_ok H old (snd (_resume G p th w)).
Proof.
  intros (Hk & Hu & Hl).
  destruct (resume_lines G p th w) as (lines & Hout & Hlines & Hnow).
  split; [by apply resume_kernel|]. split; [by apply resume_until|].
  rewrite Hout, Hnow. apply log_ok_app; [done| |done].
  exact (k_now _ _ _ Hk).
Qed.

Lemma trigger_put_clock H old key w :
  clock_ok H old w -> clock_ok H old (snd (_trigger_put key w)).
Proof.
  intros (Hk & Hu & Hl).
  destruct (trigger_put_frame key w) as (_ & _ & Ho & _ & _ & _ & Hnow & _).
  split; [by apply trigger_put_kernel|]. split; [by apply trigger_put_until|].
  by rewrite Ho, Hnow.
Qed.

Lemma step_clock G H old w e Q :
  clock_ok H old w -> queue w = e :: Q -> e_event e <> Until ->
  clock_ok H old (snd (step G w)).
Proof.
  intros (Hk & Hu & Hl) HQ Hev. unfold step. rewrite HQ.
  apply dispatch_invariant.
  - intros. by apply resume_clock.
  - intros. by apply trigger_put_clock.
  - rewrite HQ in Hk, Hu. split; [by eapply kernel_pop|]. split.
    + intros x Hx. apply Hu. by right.
    + simpl. eapply log_ok_later; [exact Hl|].
      apply (k_future _ _ _ Hk). left.
Qed.

(** What [step] does when it stops the loop, and when it does not. *)
Lemma step_cases G w s w' :
  step G w = (Ok s, w') ->
  exists e Q, queue w = e :: Q /\
    match s with
    | StopSimulation =>
        e_event e = Until /\ w' = set_now (e_time e) (set_heap (eid w) Q w)
    | Continue => e_event e <> Until
    end.
Proof.
  unfold step. destruct (queue w) as [|e Q]; [discriminate|].
  intros H. exists e, Q. split; [done|].
  set (w1 := set_now (e_time e) (set_heap (eid w) Q w)) in *.
  destruct (e_event e) as [p|p|r|r|x f|]; simpl in H; unfold bind in H.
  - destruct (_resume G p None w1) as [[[]|?] ?]; [|discriminate].
    injection H as Hs Hw'; subst; done.
  - destruct (_resume G p None w1) as [[[]|?] ?]; [|discriminate].
    injection H as Hs Hw'; subst; done.
  - destruct (_resume G (req_proc r) None w1) as [[[]|?] ?]; [|discriminate].
    injection H as Hs Hw'; subst; done.
  - destruct (_trigger_put (resource r) w1) as [[[]|?] ?]; [|discriminate].
    injection H as Hs Hw'; subst; done.
  - unfold gets in H. simpl in H.
    destruct (run_callbacks G (from_option callbacks [] (procs w !! x)) f w1)
      as [[[]|?] ?]; [|discriminate].
    destruct f, (from_option callbacks [] (procs w !! x));
      try discriminate; injection H as Hs Hw'; subst; done.
  - injection H as Hs Hw'; subst; done.
Qed.

Lemma run_loop_clock G H old fuel w w' :
  clock_ok H old w -> run_loop G fuel w = Some (Ok tt, w') ->
  (now w' == H)%Q /\
  (forall e, e ∈ queue w' -> (H <= e_time e)%Q) /\
  exists new, stdout w' = old ++ new /\ StronglySorted earlier new /\
    forall l, l ∈ new -> (0 <= line_time l < H)%Q.
Proof.
  revert w. induction fuel as [|fuel IH]; simpl; intros w Hw; [discriminate|].
  destruct (step G w) as [[[]|e] w1] eqn:Hstep.
  - apply IH. destruct (step_cases _ _ _ _ Hstep) as (e & Q & HQ & Hev).
    pose proof (step_clock G H old w e Q Hw HQ Hev) as Hc.
    by rewrite Hstep in Hc.
  - intros [= <-].
    destruct (step_cases _ _ _ _ Hstep) as (e & Q & HQ & Hev & ->).
    destruct Hw as (Hk & Hu & new & Hout & Hs & Hb).
    rewrite HQ in Hk, Hu. simpl.
    assert (He : (e_time e == H)%Q) by (apply Hu; [left|done]).
    split; [done|]. split.
    + intros x Hx. pose proof (k_sorted _ _ _ Hk) as Hsort.
      apply StronglySorted_inv in Hsort as [_ Hall].
      rewrite Forall_forall in Hall.
      destruct (Hall x Hx) as [Hlt|[Heq _]]; lra.
    + exists new. split; [done|]. split; [done|].
      intros l Hl. specialize (Hb l Hl).
      pose proof (k_before _ _ _ Hk). lra.
  - discriminate.
Qed.

Lemma run_starts_clock G nm ss h w0 w :
  run_starts G nm ss h w0 w -> clock_ok (inject_Z h) (stdout w0) w.
Proof.
  intros Hrun.
  destruct (run_starts_on_time G 0 nm ss h w0 w Hrun) as (Hk & _).
  split; [done|].
  destruct Hrun as (w1 & Hs & Hh & ->).
  pose proof (keeps_start_scenario G 0 nm ss (Environment w0)
                (booting_Environment 0 w0)) as Hb.
  rewrite Hs in Hb. simpl in Hb. destruct Hb as (Hnow & _ & Hq & _).
  apply start_scenario_shape in Hs as (_ & _ & _ & _ & Ho & _).
  unfold schedule, modify. simpl. split.
  - intros e [->|He]%elem_of_heappush Hev; simpl.
    + rewrite Hnow. lra.
    + by destruct (Hq e He) as (_ & _ & Hne).
  - exists []. rewrite Ho, app_nil_r. split; [done|]. split; [constructor|].
    intros l Hl. by apply elem_of_nil in Hl.
Qed.

Lemma run_scenario_clock G nm ss h fuel w0 P U w' :
  run_scenario G nm ss h fuel (Environment w0) = Some (Ok (P, U), w') ->
  (0 < h)%Z /\ (now w' == inject_Z h)%Q /\
  (forall e, e ∈ queue w' -> (inject_Z h <= e_time e)%Q) /\
  exists new, stdout w' = stdout w0 ++ new /\ StronglySorted earlier new /\
    forall l, l ∈ new -> (0 <= line_time l < inject_Z h)%Q.
Proof.
  unfold run_scenario.
  destruct (start_scenario G nm ss (Environment w0)) as [[[]|e] w1] eqn:Hs;
    [|discriminate].
  unfold run. destruct (Qle_bool (inject_Z h) (now w1)) eqn:Hle; [discriminate|].
  destruct (schedule Until URGENT (inject_Z h - now w1) w1) as [r1 w2] eqn:Hsch.
  destruct (run_loop G fuel w2) as [[[[]|e] w3]|] eqn:Hloop; try discriminate.
  intros [= _ _ <-].
  assert (Hc : clock_ok (inject_Z h) (stdout w0) w2).
  { apply (run_starts_clock G nm ss h w0). exists w1.
    split; [done|]. split; [done|]. by rewrite Hsch. }
  split.
  - destruct Hc as (Hk & _). pose proof (k_now _ _ _ Hk).
    pose proof (k_before _ _ _ Hk). rewrite Zlt_Qlt.
    change (inject_Z 0) with 0%Q. lra.
  - eapply run_loop_clock; eauto.
Qed.

(** X2: when [run_scenario] returns, the horizon was positive, the clock
    of the environment stands at the horizon, and everything left in the
    queue is dated at the horizon or later: the events dated before it
    were all processed, none dated at it or after it was. *)
Theorem run_ends_at_the_horizon G num_machines shift_schedules
    simulation_time fuel w0 produced used w' :
  run_scenario G num_machines shift_schedules simulation_time fuel
    (Environment w0) = Some (Ok (produced, used), w') ->
  (0 < simulation_time)%Z /\
  (now w' == inject_Z simulation_time)%Q /\
  (forall e, e ∈ queue w' -> (inject_Z simulation_time <= e_time e)%Q).
Proof.
  intros H. apply run_scenario_clock in H as (? & ? & ? & _). auto.
Qed.

(** ** Rounding to two decimals *)

Lemma round_half_even_cases q :
  let f := Qfloor q in
  (inject_Z f <= q < inject_Z (f + 1))%Q /\
  ((round_half_even q = f /\ (q - inject_Z f <= 1 # 2)%Q) \/
   (round_half_even q = (f + 1)%Z /\ (1 # 2 <= q - inject_Z f)%Q)).
Proof.
  intros f. split; [split; [apply Qfloor_le | apply Qlt_floor]|].
  unfold round_half_even. fold f.
  destruct (Qcompare_spec (q - inject_Z f) (1 # 2)) as [H|H|H].
  - destruct (Z.even f); [left | right]; split; try done; lra.
  - left. split; [done | lra].
  - right. split; [done | lra].
Qed.

Lemma round_half_even_mono q q' :
  (q <= q')%Q -> (round_half_even q <= round_half_even q')%Z.
Proof.
  intros Hle.
  pose proof (Qfloor_resp_le _ _ Hle) as Hf.
  destruct (round_half_even_cases q) as [[Hq1 Hq2] Hq].
  destruct (round_half_even_cases q') as [[Hq1' Hq2'] Hq'].
  destruct (Z.eq_dec (Qfloor q) (Qfloor q')) as [Heq|Hne].
  - unfold round_half_even. rewrite <- Heq.
    destruct (Qcompare_spec (q - inject_Z (Qfloor q)) (1 # 2)) as [H|H|H];
      destruct (Qcompare_spec (q' - inject_Z (Qfloor q)) (1 # 2))
        as [H'|H'|H']; try lia; try lra; destruct (Z.even (Qfloor q)); lia.
  - destruct Hq as [[-> _]|[-> _]], Hq' as [[-> _]|[-> _]]; lia.
Qed.

Lemma round_half_even_Z (n : Z) q :
  (q == inject_Z n)%Q -> round_half_even q = n.
Proof.
  intros Hq.
  assert (Hf : Qfloor q = n) by (rewrite Hq; apply Qfloor_Z).
  unfold round_half_even. rewrite Hf.
  destruct (Qcompare_spec (q - inject_Z n) (1 # 2)) as [H|H|H];
    [lra | done | lra].
Qed.

Lemma hundredths_mono x y :
  (x <= y)%Q -> (hundredths x <= hundredths y)%Z.
Proof. intros H. apply round_half_even_mono. lra. Qed.

Lemma hundredths_Z (n : Z) x :
  (x == inject_Z n)%Q -> hundredths x = (100 * n)%Z.
Proof.
  intros H. apply round_half_even_Z. rewrite H, inject_Z_mult.
  change (inject_Z 100) with 100%Q. ring.
Qed.

(** X3: the lines a run prints are in the order of the clock: the
    clock values they format never decrease down the output, and each is
    at zero or later and before the horizon.  The time stamps the lines
    show are these values rounded to two decimals, so they never
    decrease either, and lie between [0.00] and the horizon itself; a
    line printed less than half a hundredth before the horizon shows the
    horizon. *)
Theorem log_is_chronological G num_machines shift_schedules
    simulation_time fuel w0 produced used w' :
  run_scenario G num_machines shift_schedules simulation_time fuel
    (Environment w0) = Some (Ok (produced, used), w') ->
  exists new, stdout w' = stdout w0 ++ new /\
    StronglySorted earlier new /\ StronglySorted not_after new /\
    forall l, l ∈ new ->
      (0 <= line_time l < inject_Z simulation_time)%Q /\
      (0 <= line_stamp l <= 100 * simulation_time)%Z.
Proof.
  intros H. apply run_scenario_clock in H as (_ & _ & _ & new & Ho & Hs & Hb).
  exists new. split; [done|]. split; [done|]. split.
  - clear Ho Hb. induction Hs as [|l new _ IH Hl]; [constructor|].
    constructor; [done|].
    eapply Forall_impl; [exact Hl|]. intros l' Hl'.
    by apply hundredths_mono.
  - intros l Hl. specialize (Hb l Hl). split; [done|].
    unfold line_stamp. split.
    + pose proof (hundredths_mono 0 (line_time l)) as H0.
      rewrite (hundredths_Z 0 0) in H0 by apply Qeq_refl. apply H0. lra.
    + pose proof (hundredths_mono (line_time l) (inject_Z simulation_time))
        as H1.
      rewrite (hundredths_Z simulation_time (inject_Z simulation_time))
        in H1 by apply Qeq_refl. apply H1. lra.
Qed.

Lemma run_ends_at_the_horizon_witness :
  let r := run_scenario five_minutes one_each [] 20 100
             (Environment (at_import (constant_rng 1))) in
  r = Some (Ok (0, 19)%Z, world_of r) /\
  (0 < 20)%Z /\ (now (world_of r) == inject_Z 20)%Q.
Proof.
  intros r.
  assert (Hr : r = Some (Ok (0, 19)%Z, world_of r))
    by (vm_compute; reflexivity).
  split; [exact Hr|].
  pose proof (run_ends_at_the_horizon five_minutes one_each [] 20 100
                (at_import (constant_rng 1)) 0%Z 19%Z (world_of r) Hr)
    as (H1 & H2 & _).
  split; assumption.
Defined.

Lemma log_is_chronological_witness :
  let r := run_scenario five_minutes one_each [] 20 100
             (Environment (at_import (constant_rng (39992 # 10000)))) in
  r = Some (Ok (0, 5)%Z, world_of r) /\
  last (map render (stdout (world_of r)))
  = Some "20.00: Product Widget-5 (Widget) entered the production line." /\
  exists new, stdout (world_of r) = [] ++ new /\
    StronglySorted earlier new /\ StronglySorted not_after new /\
    forall l, l ∈ new ->
      (0 <= line_time l < inject_Z 20)%Q /\
      (0 <= line_stamp l <= 100 * 20)%Z.
Proof.
  intros r.
  assert (Hr : r = Some (Ok (0, 5)%Z, world_of r))
    by (vm_compute; reflexivity).
  split; [exact Hr|]. split; [vm_compute; reflexivity|].
  exact (log_is_chronological five_minutes one_each [] 20 100
           (at_import (constant_rng (39992 # 10000))) 0%Z 5%Z (world_of r) Hr).
Defined.

(** ** Capacities *)

Lemma length_remove_first r (l : list Req) :
  length (list_remove_first r l) <= length l.
Proof.
  induction l as [|x l IH]; simpl; [done|]. case_decide; simpl; lia.
Qed.

Lemma cap_enqueue nm rs r k :
  within_capacity nm rs -> within_capacity nm (alter (enqueue r) k rs).
Proof.
  intros H k' R'. destruct (decide (k' = k)) as [->|Hne].
  - rewrite lookup_alter_eq. destruct (rs !! k) as [R|] eqn:HR; [|done].
    intros [= <-]. simpl. eauto.
  - rewrite lookup_alter_ne by done. eauto.
Qed.

Lemma cap_take_out nm rs r k :
  within_capacity nm rs -> within_capacity nm (alter (take_out r) k rs).
Proof.
  intros H k' R'. destruct (decide (k' = k)) as [->|Hne].
  - rewrite lookup_alter_eq. destruct (rs !! k) as [R|] eqn:HR; [|done].
    intros [= <-]. simpl. destruct (H k R HR) as (? & ? & ?).
    pose proof (length_remove_first r (users R)). repeat split; [done..|lia].
  - rewrite lookup_alter_ne by done. eauto.
Qed.

Lemma cap_grant nm rs key R r waiting :
  within_capacity nm rs -> rs !! key = Some R ->
  (Z.of_nat (length (users R)) <? capacity R)%Z = true ->
  within_capacity nm (<[key := grant r waiting R]> rs).
Proof.
  intros H HR Hlt k' R'. destruct (decide (k' = key)) as [->|Hne].
  - rewrite lookup_insert_eq. intros [= <-]. simpl.
    destruct (H key R HR) as (? & ? & ?). apply Z.ltb_lt in Hlt.
    rewrite length_app. simpl. repeat split; [done..|lia].
  - rewrite lookup_insert_ne by done. eauto.
Qed.

Ltac cap_chain Hc :=
  repeat lazymatch goal with
  | |- within_capacity _ (resources _) => exact Hc
  | |- within_capacity _ (<[_ := grant _ _ _]> _) =>
      eapply cap_grant; [|eassumption|eassumption]
  | |- within_capacity _ (alter (enqueue _) _ _) => apply cap_enqueue
  | |- within_capacity _ (alter (take_out _) _ _) => apply cap_take_out
  end.

Lemma resume_capacity G nm p th w :
  within_capacity nm (resources w) ->
  within_capacity nm (resources (snd (_resume G p th w))).
Proof.
  intros Hc. unfold _resume.
  destruct (procs w !! p) as [X|] eqn:HP; [|done].
  destruct (finished (generator X)) eqn:Hfin; [done|].
  destruct (send G p (generator X) th w) as [r w'] eqn:H0.
  destruct (generator X) as [self pc|pt ms pc|pc|n pt ms pc|self pt pc];
    destruct pc; try discriminate Hfin; destruct th; unfold_bodies.
  all: try match goal with
           | H : context [match ?rest with [] => _ | _ :: _ => _ end] |- _ =>
               is_var rest; destruct rest
           end.
  all: exec.
  all: cap_chain Hc.
Qed.

Lemma trigger_put_capacity nm key w :
  within_capacity nm (resources w) ->
  within_capacity nm (resources (snd (_trigger_put key w))).
Proof.
  intros Hc. destruct (_trigger_put key w) as [r w'] eqn:H0. simpl.
  exec; cap_chain Hc.
Qed.

Lemma keeps_capacity_build G nm keys :
  keeps (fun w => within_capacity nm (resources w))
    (build_machines G nm keys).
Proof.
  induction keys as [|k keys IH]; simpl; [apply keeps_ret|].
  intros w Hw. unfold bind at 1, subscript.
  destruct (dict_get nm k) as [q|] eqn:Hq; [|done].
  unfold ret at 1. revert w Hw.
  change (keeps (fun w => within_capacity nm (resources w))
            (do m <- Machine_init G k q;
             do ms <- build_machines G nm keys; ret ((k, m) :: ms))).
  apply keeps_bind.
  { unfold Machine_init. apply keeps_bind.
    - intros w Hw. unfold new_Resource.
      destruct (q <=? 0)%Z eqn:Hle; [done|]. unfold modify. simpl.
      apply Z.leb_gt in Hle.
      intros k' R'. destruct (decide (k' = k)) as [->|Hne].
      + rewrite lookup_insert_eq. intros [= <-]. simpl.
        repeat split; [done|lia|lia].
      + rewrite lookup_insert_ne by done. eauto.
    - intros []. apply keeps_bind; [apply keeps_subscript|]. intros bt.
      apply keeps_bind; [apply keeps_subscript|]. intros rt. apply keeps_ret. }
  intros m. apply keeps_bind; [exact IH|]. intros ms. apply keeps_ret.
Qed.

Lemma keeps_capacity_start G nm ss :
  keeps (fun w => within_capacity nm (resources w))
    (start_scenario G nm ss).
Proof.
  assert (Hproc : forall g,
            keeps (fun w => within_capacity nm (resources w)) (process g))
    by (by intros g w Hw).
  unfold start_scenario.
  apply keeps_bind; [by intros w Hw|]. intros [].
  apply keeps_bind; [by intros w Hw|]. intros [].
  apply keeps_bind; [apply keeps_capacity_build|]. intros ms.
  apply keeps_bind.
  { apply keeps_for_each. intros mt.
    apply keeps_bind; [apply keeps_subscript|]. intros m.
    apply keeps_bind; [apply Hproc|]. intros s. apply keeps_ret. }
  intros [].
  apply keeps_bind.
  { apply keeps_for_each. intros pt.
    apply keeps_bind; [apply Hproc|]. intros s. apply keeps_ret. }
  intros [].
  apply keeps_bind; [apply Hproc|]. intros s. apply keeps_ret.
Qed.

Lemma reachable_capacity G nm ss h w0 w :
  reachable G nm ss h w0 w -> within_capacity nm (resources w).
Proof.
  intros (wi & (w1 & Hs & _ & ->) & Hsteps).
  eapply (steps_invariant G (fun w => within_capacity nm (resources w)));
    [| | |exact Hsteps|].
  - done.
  - intros. by apply resume_capacity.
  - intros. by apply trigger_put_capacity.
  - pose proof (keeps_capacity_start G nm ss (Environment w0)) as Hk.
    rewrite Hs in Hk. simpl in *. apply Hk.
    intros k R HR. by rewrite lookup_empty in HR.
Qed.

(** X1: in every state of a run, every pool of machines has the capacity
    that [num_machines] gives its machine type, a positive one, and the
    requests that hold a machine of the pool are at most that many,
    breakdowns included. *)
Theorem capacity_is_respected G num_machines shift_schedules
    simulation_time w0 w :
  reachable G num_machines shift_schedules simulation_time w0 w ->
  forall k R, resources w !! k = Some R ->
    dict_get num_machines k = Some (capacity R) /\
    (0 < capacity R)%Z /\
    (Z.of_nat (length (users R)) <= capacity R)%Z.
Proof. intros Hw. by apply reachable_capacity in Hw. Qed.

Lemma capacity_is_respected_witness :
  let w := world_of (run_scenario five_minutes one_each [] 20 100
                       (Environment (at_import (constant_rng 1)))) in
  let R := default {| capacity := 0; users := []; put_queue := [] |}
             (resources w !! "Machining") in
  dict_get one_each "Machining" = Some (capacity R) /\
  (0 < capacity R)%Z /\
  (Z.of_nat (length (users R)) <= capacity R)%Z.
Proof.
  intros w R.
  assert (Hw : reachable five_minutes one_each [] 20
                 (at_import (constant_rng 1)) w).
  { apply (run_scenario_reachable five_minutes one_each [] 20 100
             (at_import (constant_rng 1)) 0%Z 19%Z w).
    vm_compute. reflexivity. }
  apply (capacity_is_respected five_minutes one_each [] 20
           (at_import (constant_rng 1)) w Hw "Machining" R).
  vm_compute. reflexivity.
Defined.

(** ** The horizon and the counters *)

(** X7: with a horizon of zero or less [run_scenario] never enters the
    event loop and never returns a result: when the construction of the
    scenario succeeds, [env.run] raises the [ValueError] of a horizon
    that is not after the clock, whatever the fuel, with the processes
    created but none of them started. *)
Theorem nonpositive_horizon_is_rejected G num_machines shift_schedules
    simulation_time fuel w0 :
  (simulation_time <= 0)%Z ->
  exists e w',
    run_scenario G num_machines shift_schedules simulation_time fuel
      (Environment w0) = Some (Raise e, w') /\
    stdout w' = stdout w0 /\
    forall w1,
      start_scenario G num_machines shift_schedules (Environment w0)
      = (Ok tt, w1) ->
      e = ValueError UntilNotAfterNow /\ w' = w1.
Proof.
  intros Hh. unfold run_scenario.
  destruct (start_scenario G num_machines shift_schedules (Environment w0))
    as [[[]|e] w1] eqn:Hs.
  - pose proof (start_scenario_shape _ _ _ _ _ Hs)
      as (_ & _ & _ & _ & Ho & _ & _ & _ & Hnow & _).
    unfold run. rewrite Hnow.
    assert (Hle : Qle_bool (inject_Z simulation_time) 0 = true).
    { apply Qle_bool_iff. change 0%Q with (inject_Z 0). rewrite <- Zle_Qle.
      done. }
    rewrite Hle. eexists _, _. split; [reflexivity|]. split; [done|].
    by intros ? [= <-].
  - exists e, w1. split; [reflexivity|]. split; [|discriminate].
    pose proof (keeps_start_scenario G 0 num_machines shift_schedules) as _.
    revert Hs. unfold start_scenario.
    unfold bind at 1, modify at 1. unfold bind at 1, modify at 1.
    unfold bind at 1.
    destruct (build_machines _ _ _ _) as [[ms|e1] wa] eqn:HB.
    + pose proof (build_machines_frame _ _ _ _ _ _ HB)
        as (_ & _ & _ & Hoa & _ & _).
      unfold bind at 1.
      destruct (for_each (dict_keys ms) _ wa) as [[[]|e2] wb] eqn:H1.
      * apply for_each_breakdowns in H1 as (_ & _ & _ & Hob & _).
        unfold bind at 1.
        destruct (for_each_arrivals ms (PRODUCT_TYPES G) wb)
          as (wc & H2 & _ & Hoc & _).
        rewrite H2. intros H. exec.
      * apply for_each_breakdowns in H1 as (_ & _ & _ & Hob & _).
        intros [= <- <-]. by rewrite Hob, Hoa.
    + pose proof (build_machines_frame _ _ _ _ _ _ HB)
        as (_ & _ & _ & Hoa & _ & _).
      intros [= <- <-]. by rewrite Hoa.
Qed.

(** X8: [run_scenario] sets both counters to zero before anything else,
    and a scenario of the sweep runs in a new environment: what it
    returns and the state it leaves depend neither on what the counters
    held nor on the clock, the queue, the processes and the resources of
    an earlier environment, so no scenario of a sweep counts the units or
    sees the machines of another. *)
Theorem scenarios_start_afresh G num_machines shift_schedules
    simulation_time fuel :
  (forall produced used w,
     run_scenario G num_machines shift_schedules simulation_time fuel
       (set_used used (set_produced produced w))
     = run_scenario G num_machines shift_schedules simulation_time fuel w) /\
  (forall produced used t n q P rs w,
     run_scenario G num_machines shift_schedules simulation_time fuel
       (Environment
          (set_used used (set_produced produced
             (set_now t (set_heap n q (set_procs P (set_resources rs w)))))))
     = run_scenario G num_machines shift_schedules simulation_time fuel
         (Environment w)).
Proof. split; reflexivity. Qed.


Lemma nonpositive_horizon_is_rejected_witness :
  exists e w',
    run_scenario five_minutes one_each [] 0 100
      (Environment (at_import (constant_rng 1))) = Some (Raise e, w') /\
    stdout w' = stdout (at_import (constant_rng 1)) /\
    forall w1,
      start_scenario five_minutes one_each []
        (Environment (at_import (constant_rng 1))) = (Ok tt, w1) ->
      e = ValueError UntilNotAfterNow /\ w' = w1.
Proof.
  apply (nonpositive_horizon_is_rejected five_minutes one_each [] 0 100
           (at_import (constant_rng 1))).
  lia.
Defined.


(** ** Missing keys and bad numbers *)

(** X9: [process_product] looks the product type up, then the machine
    type, and raises [KeyError] for the first that is missing, with
    nothing drawn and nothing scheduled; with a range that has
    [0 <= min <= max] it draws one number of the range and sleeps that
    long; with a range below zero the draw is made and [env.timeout]
    raises [ValueError]; resumed after its sleep it returns. *)
Theorem process_product_draws_in_range G p self product_type :
  (forall w,
     dict_get (PROCESSING_TIMES G) product_type = None ->
     process_product_body G p self product_type PPr_start None w
     = (Raise (KeyError product_type), w)) /\
  (forall by_type w,
     dict_get (PROCESSING_TIMES G) product_type = Some by_type ->
     dict_get by_type (machine_type self) = None ->
     process_product_body G p self product_type PPr_start None w
     = (Raise (KeyError (machine_type self)), w)) /\
  (forall by_type t w,
     dict_get (PROCESSING_TIMES G) product_type = Some by_type ->
     dict_get by_type (machine_type self) = Some t ->
     (0 <= rmin t <= rmax t)%Z ->
     exists n, (rmin t <= n <= rmax t)%Z /\
       process_product_body G p self product_type PPr_start None w
       = (Ok (Yield PPr_yield),
          snd (schedule (Timeout p) NORMAL (inject_Z n)
                 (set_rng (snd (next_draw (rng w))) w)))) /\
  (forall by_type t w,
     dict_get (PROCESSING_TIMES G) product_type = Some by_type ->
     dict_get by_type (machine_type self) = Some t ->
     (rmin t <= rmax t < 0)%Z ->
     process_product_body G p self product_type PPr_start None w
     = (Raise (ValueError NegativeDelay),
        set_rng (snd (next_draw (rng w))) w)) /\
  (forall w,
     process_product_body G p self product_type PPr_yield None w
     = (Ok StopIteration, w)).
Proof.
  split; [|split; [|split; [|split]]].
  - intros w H. unfold process_product_body, bind, subscript. by rewrite H.
  - intros bt w H1 H2. unfold process_product_body, bind, subscript.
    rewrite H1. unfold ret. by rewrite H2.
  - intros bt t w H1 H2 Ht.
    destruct (randint_in_range (rmin t) (rmax t) w) as (n & Hn & Hr); [lia|].
    exists n. split; [done|].
    unfold process_product_body, bind, subscript. rewrite H1. unfold ret.
    rewrite H2, Hr. rewrite timeout_nonneg by lia. reflexivity.
  - intros bt t w H1 H2 Ht.
    destruct (randint_in_range (rmin t) (rmax t) w) as (n & Hn & Hr); [lia|].
    unfold process_product_body, bind, subscript. rewrite H1. unfold ret.
    rewrite H2, Hr. unfold timeout.
    assert (Hneg : Qle_bool 0 (inject_Z n) = false).
    { destruct (Qle_bool 0 (inject_Z n)) eqn:E; [|done].
      apply Qle_bool_iff in E. change 0%Q with (inject_Z 0) in E.
      rewrite <- Zle_Qle in E. lia. }
    by rewrite Hneg.
  - reflexivity.
Qed.

(** X10: [send_raw_material] looks the mean interarrival time of its
    product type up and takes its inverse before it draws.  A product
    type that is missing from [RAW_MATERIAL_ARRIVAL_TIME] raises
    [KeyError], a mean of zero [ZeroDivisionError], a mean too large for
    a float [OverflowError], all three with nothing drawn and nothing
    scheduled.  With a positive mean the process draws once and sleeps,
    for a time that is not negative; with a negative mean it draws once
    and [env.timeout] raises [ValueError], unless the number drawn is
    zero. *)
Theorem arrival_needs_a_positive_mean G p product_type machines :
  (forall w,
     dict_get (RAW_MATERIAL_ARRIVAL_TIME G) product_type = None ->
     send_raw_material_body G p product_type machines SRM_start None w
     = (Raise (KeyError product_type), w)) /\
  (forall w,
     dict_get (RAW_MATERIAL_ARRIVAL_TIME G) product_type = Some 0%Z ->
     send_raw_material_body G p product_type machines SRM_start None w
     = (Raise ZeroDivisionError, w)) /\
  (forall mean w,
     dict_get (RAW_MATERIAL_ARRIVAL_TIME G) product_type = Some mean ->
     (FLOAT_OVERFLOW <= Z.abs mean)%Z ->
     send_raw_material_body G p product_type machines SRM_start None w
     = (Raise OverflowError, w)) /\
  (forall mean w,
     dict_get (RAW_MATERIAL_ARRIVAL_TIME G) product_type = Some mean ->
     (0 < mean < FLOAT_OVERFLOW)%Z ->
     exists delay,
       (0 <= delay)%Q /\
       send_raw_material_body G p product_type machines SRM_start None w
       = (Ok (SRM_yield 1),
          snd (schedule (Timeout p) NORMAL delay
                 (set_rng (snd (next_draw (rng w))) w)))) /\
  (forall mean w,
     dict_get (RAW_MATERIAL_ARRIVAL_TIME G) product_type = Some mean ->
     (- FLOAT_OVERFLOW < mean < 0)%Z ->
     ~ (oracle (rng w) (consumed (rng w)) == 0)%Q ->
     send_raw_material_body G p product_type machines SRM_start None w
     = (Raise (ValueError NegativeDelay),
        set_rng (snd (next_draw (rng w))) w)).
Proof.
  assert (Hinv : forall mean : Z, mean <> 0%Z ->
            Qeq_bool (1 / inject_Z mean) 0 = false).
  { intros mean Hm. destruct (Qeq_bool (1 / inject_Z mean) 0) eqn:E'; [|done].
    apply Qeq_bool_iff in E'. exfalso.
    assert (Hne : ~ (inject_Z mean == 0)%Q).
    { change 0%Q with (inject_Z 0). rewrite inject_Z_injective. exact Hm. }
    assert (H1 : (1 / inject_Z mean * inject_Z mean == 1)%Q)
      by (field; exact Hne).
    rewrite E' in H1. lra. }
  split; [|split; [|split; [|split]]].
  - intros w H.
    unfold send_raw_material_body, send_raw_material_loop, bind, subscript.
    by rewrite H.
  - intros w H.
    unfold send_raw_material_body, send_raw_material_loop, bind, subscript.
    by rewrite H.
  - intros mean w H Hm.
    unfold send_raw_material_body, send_raw_material_loop, bind, subscript.
    rewrite H. unfold ret, one_over.
    destruct (FLOAT_OVERFLOW <=? Z.abs mean)%Z eqn:E; [done|lia].
  - intros mean w H Hm.
    unfold send_raw_material_body, send_raw_material_loop, bind, subscript.
    rewrite H. unfold ret, one_over.
    destruct (FLOAT_OVERFLOW <=? Z.abs mean)%Z eqn:E0; [lia|].
    destruct (mean =? 0)%Z eqn:E; [lia|]. unfold ret, expovariate. simpl.
    rewrite Hinv by lia.
    set (q := oracle (rng w) (consumed (rng w))).
    assert (Hpos : (0 < inject_Z mean)%Q).
    { change 0%Q with (inject_Z 0). rewrite <- Zlt_Qlt. lia. }
    assert (Hd : (Qabs q / (1 / inject_Z mean) == Qabs q * inject_Z mean)%Q).
    { field. lra. }
    assert (Hnn : (0 <= Qabs q / (1 / inject_Z mean))%Q).
    { rewrite Hd. pose proof (Qabs_nonneg q). nra. }
    exists (Qabs q / (1 / inject_Z mean))%Q. split; [exact Hnn|].
    unfold timeout. apply Qle_bool_iff in Hnn. by rewrite Hnn.
  - intros mean w H Hm Hq.
    unfold send_raw_material_body, send_raw_material_loop, bind, subscript.
    rewrite H. unfold ret, one_over.
    destruct (FLOAT_OVERFLOW <=? Z.abs mean)%Z eqn:E0; [lia|].
    destruct (mean =? 0)%Z eqn:E; [lia|]. unfold ret, expovariate. simpl.
    rewrite Hinv by lia.
    set (q := oracle (rng w) (consumed (rng w))) in *.
    assert (Hneg : (inject_Z mean < 0)%Q).
    { change 0%Q with (inject_Z 0). rewrite <- Zlt_Qlt. lia. }
    assert (Hd : (Qabs q / (1 / inject_Z mean) == Qabs q * inject_Z mean)%Q).
    { field. lra. }
    assert (Hpos : (0 < Qabs q)%Q).
    { pose proof (Qabs_nonneg q) as H0.
      destruct (Qlt_le_dec 0 (Qabs q)) as [|Hle]; [done|].
      exfalso. apply Hq.
      assert (Hz : (Qabs q == 0)%Q) by lra.
      revert Hz. apply Qabs_case; intros _ Hz; lra. }
    unfold timeout.
    assert (Hb : Qle_bool 0 (Qabs q / (1 / inject_Z mean)) = false).
    { destruct (Qle_bool 0 (Qabs q / (1 / inject_Z mean))) eqn:Eb; [|done].
      apply Qle_bool_iff in Eb. rewrite Hd in Eb. nra. }
    by rewrite Hb.
Qed.

Lemma process_product_draws_in_range_witness :
  exists n, (5 <= n <= 5)%Z /\
    process_product_body five_minutes 7
      {| machine_type := "Assembly"; breakdown_time := Range 21 21;
         repair_time := Range 1 1 |} "Widget" PPr_start None
      (at_import (constant_rng 1))
    = (Ok (Yield PPr_yield),
       snd (schedule (Timeout 7) NORMAL (inject_Z n)
              (set_rng (snd (next_draw (rng (at_import (constant_rng 1)))))
                 (at_import (constant_rng 1))))).
Proof.
  apply (proj1 (proj2 (proj2
           (process_product_draws_in_range five_minutes 7
              {| machine_type := "Assembly"; breakdown_time := Range 21 21;
                 repair_time := Range 1 1 |} "Widget")))
           (every_stage (Range 5 5)) (Range 5 5)
           (at_import (constant_rng 1)) eq_refl eq_refl).
  simpl. lia.
Defined.

Lemma arrival_needs_a_positive_mean_witness :
  exists delay,
    (0 <= delay)%Q /\
    send_raw_material_body five_minutes 4 "Widget" [] SRM_start None
      (at_import (constant_rng 1))
    = (Ok (SRM_yield 1),
       snd (schedule (Timeout 4) NORMAL delay
              (set_rng (snd (next_draw (rng (at_import (constant_rng 1)))))
                 (at_import (constant_rng 1))))).
Proof.
  apply (proj1 (proj2 (proj2 (proj2
           (arrival_needs_a_positive_mean five_minutes 4 "Widget" []))))
           1%Z (at_import (constant_rng 1)) eq_refl).
  vm_compute. split; [reflexivity|reflexivity].
Defined.

(** X11: a machine type of [num_machines] that is missing from
    [MACHINE_BREAKDOWN_TIME] or from [MACHINE_REPAIR_TIME] makes
    [run_scenario] raise [KeyError] for the first such type when all the
    capacities are positive: the resource of that machine has been
    created, but no process, and nothing runs. *)
Theorem unknown_machine_type_is_rejected G num_machines shift_schedules
    simulation_time fuel w0 mt :
  (forall k q, dict_get num_machines k = Some q -> (0 < q)%Z) ->
  mt ∈ dict_keys num_machines -> ~ known G mt ->
  exists k w',
    run_scenario G num_machines shift_schedules simulation_time fuel
      (Environment w0) = Some (Raise (KeyError k), w') /\
    k ∈ dict_keys num_machines /\ ~ known G k /\
    is_Some (resources w' !! k) /\
    procs w' = [] /\ queue w' = [] /\ stdout w' = stdout w0.
Proof.
  intros Hpos Hmt Hun.
  assert (Hb : forall keys w,
            (forall k, k ∈ keys -> k ∈ dict_keys num_machines) ->
            mt ∈ keys ->
            exists k w',
              build_machines G num_machines keys w
              = (Raise (KeyError k), w') /\
              k ∈ keys /\ ~ known G k /\ is_Some (resources w' !! k)).
  { induction keys as [|k0 keys IH]; intros w Hsub Hin.
    - by apply elem_of_nil in Hin.
    - simpl. unfold bind at 1, subscript.
      destruct (dict_keys_get num_machines k0) as [q Hq];
        [apply Hsub; left|].
      rewrite Hq. unfold ret at 1, bind at 1.
      pose proof (Hpos k0 q Hq) as Hq0.
      unfold Machine_init, bind at 1, new_Resource.
      destruct (q <=? 0)%Z eqn:Hle; [lia|]. unfold modify at 1.
      unfold bind at 1, subscript.
      set (w1 := set_resources _ w).
      destruct (dict_get (MACHINE_BREAKDOWN_TIME G) k0) as [bt|] eqn:Hbt.
      2:{ exists k0, w1. split; [done|]. split; [left|]. split.
          - intros [[? Hx] _]. congruence.
          - subst w1. simpl. rewrite lookup_insert_eq. eauto. }
      unfold ret at 1, bind at 1, subscript.
      destruct (dict_get (MACHINE_REPAIR_TIME G) k0) as [rt|] eqn:Hrt.
      2:{ exists k0, w1. split; [done|]. split; [left|]. split.
          - intros [_ [? Hx]]. congruence.
          - subst w1. simpl. rewrite lookup_insert_eq. eauto. }
      unfold ret at 1. unfold bind at 1.
      assert (Hin' : mt ∈ keys).
      { apply elem_of_cons in Hin as [->|Hin]; [|done].
        exfalso. apply Hun. split; eauto. }
      destruct (IH w1) as (k & w' & Hbuild & Hk & Hkn & Hres);
        [intros x Hx; apply Hsub; by right|done|].
      unfold ret at 1. unfold bind. rewrite Hbuild.
      exists k, w'. split; [done|]. split; [by right|]. done. }
  unfold run_scenario, start_scenario.
  unfold bind at 1, modify at 1. unfold bind at 1, modify at 1.
  unfold bind at 1.
  set (wa := set_used 0 (set_produced 0 (Environment w0))).
  destruct (Hb (dict_keys num_machines) wa) as (k & w' & Hbuild & Hk & Hkn & Hres);
    [done..|].
  rewrite Hbuild.
  apply build_machines_frame in Hbuild as (Hq & _ & Hp & Ho & _ & _).
  exists k, w'. split; [done|]. by repeat split.
Qed.

(** ** The sweep *)

Lemma run_scenario_bounds G nm ss h fuel w0 p u w' :
  run_scenario G nm ss h fuel (Environment w0) = Some (Ok (p, u), w') ->
  (0 <= p <= u)%Z.
Proof.
  intros H. apply run_scenario_reachable in H as (Hw & -> & ->).
  apply reachable_counted in Hw as [HP HR]. rewrite HP, HR. split; [lia|].
  apply inj_le, count_le. by intros [].
Qed.

Lemma runs_in_order_bounds G h fuel l w rows w' :
  runs_in_order G h fuel l w rows w' ->
  Forall (fun r => (0 <= Products_Produced r <= Raw_Materials_Used r)%Z)
    rows.
Proof.
  induction 1 as [|nm ss rest w p u w1 rows w2 Hrun _ IH]; constructor.
  - simpl. by eapply run_scenario_bounds.
  - exact IH.
Qed.

(** X12: every row of the results of the sweep has a number of products
    between zero and its number of raw materials, and there is one row
    for every pair of a capacity configuration and a shift schedule. *)
Theorem sweep_rows_are_bounded G num_machines_list shift_schedules_list
    simulation_time fuel w rows w' :
  perform_scenario_analysis G num_machines_list shift_schedules_list
    simulation_time fuel w = Some (Ok rows, w') ->
  length rows = length num_machines_list * length shift_schedules_list /\
  Forall (fun r => (0 <= Products_Produced r <= Raw_Materials_Used r)%Z)
    rows.
Proof.
  unfold perform_scenario_analysis. rewrite outer_loop_spec.
  intros (rows0 & -> & H). simpl. split.
  - apply runs_in_order_inputs in H.
    rewrite <- (length_map inputs), H. apply length_prod.
  - by eapply runs_in_order_bounds.
Qed.

Lemma inner_loop_combinations G nm ssl h fuel acc w :
  inner_loop G nm ssl h fuel acc w
  = combinations_loop G h fuel (map (pair nm) ssl) acc w.
Proof.
  revert acc w. induction ssl as [|ss ssl IH]; simpl; intros acc w; [done|].
  destruct (run_scenario G nm ss h fuel (Environment w))
    as [[[[p u]|e] w1]|]; [apply IH|done..].
Qed.

Lemma combinations_loop_app G h fuel l1 l2 acc w :
  combinations_loop G h fuel (l1 ++ l2) acc w
  = match combinations_loop G h fuel l1 acc w with
    | Some (Ok acc', w') => combinations_loop G h fuel l2 acc' w'
    | r => r
    end.
Proof.
  revert acc w. induction l1 as [|[nm ss] l1 IH]; simpl; intros acc w; [done|].
  destruct (run_scenario G nm ss h fuel (Environment w))
    as [[[[p u]|e] w1]|]; [apply IH|done..].
Qed.

Lemma outer_loop_combinations G nml ssl h fuel acc w :
  outer_loop G nml ssl h fuel acc w
  = combinations_loop G h fuel (list_prod nml ssl) acc w.
Proof.
  revert acc w. induction nml as [|nm nml IH]; simpl; intros acc w; [done|].
  rewrite combinations_loop_app, inner_loop_combinations.
  destruct (combinations_loop G h fuel (map (pair nm) ssl) acc w)
    as [[[acc'|e] w1]|]; [apply IH|done..].
Qed.

Lemma combinations_loop_raises G h fuel l acc w e w' :
  combinations_loop G h fuel l acc w = Some (Raise e, w') <->
  exists before nm ss rest rows w1,
    l = before ++ (nm, ss) :: rest /\
    runs_in_order G h fuel before w rows w1 /\
    run_scenario G nm ss h fuel (Environment w1) = Some (Raise e, w').
Proof.
  revert acc w. induction l as [|[nm ss] l IH]; simpl; intros acc w.
  - split; [discriminate|].
    intros (before & ? & ? & ? & ? & ? & H & _). by destruct before.
  - destruct (run_scenario G nm ss h fuel (Environment w))
      as [[[[p u]|e0] w1]|] eqn:Hrun.
    + rewrite IH. split.
      * intros (before & nm' & ss' & rest & rows & w2 & -> & Hruns & Hr).
        exists ((nm, ss) :: before), nm', ss', rest. eexists _, w2.
        split; [done|]. split; [|done]. econstructor; eauto.
      * intros (before & nm' & ss' & rest & rows & w2 & Heq & Hruns & Hr).
        destruct before as [|[nm0 ss0] before]; simpl in Heq.
        -- injection Heq as <- <- <-. inversion Hruns; subst. congruence.
        -- injection Heq as <- <- ->.
           apply runs_cons_inv in Hruns
             as (p' & u' & w1' & rows' & -> & Hrun' & Hruns).
           rewrite Hrun in Hrun'. injection Hrun' as <- <- <-.
           exists before, nm', ss', rest, rows', w2. done.
    + split.
      * intros [= <- <-]. exists [], nm, ss, l, [], w.
        split; [done|]. split; [constructor|done].
      * intros (before & nm' & ss' & rest & rows & w2 & Heq & Hruns & Hr).
        destruct before as [|[nm0 ss0] before]; simpl in Heq.
        -- injection Heq as <- <- <-. inversion Hruns; subst. congruence.
        -- injection Heq as <- <- ->.
           apply runs_cons_inv in Hruns
             as (p' & u' & w1' & rows' & -> & Hrun' & Hruns).
           congruence.
    + split; [discriminate|].
      intros (before & nm' & ss' & rest & rows & w2 & Heq & Hruns & Hr).
      destruct before as [|[nm0 ss0] before]; simpl in Heq.
      * injection Heq as <- <- <-. inversion Hruns; subst. congruence.
      * injection Heq as <- <- ->.
        apply runs_cons_inv in Hruns
          as (p' & u' & w1' & rows' & -> & Hrun' & Hruns).
        congruence.
Qed.

(** X13: the sweep raises an exception exactly when, in the order of the
    Cartesian product, the scenarios before some combination all return
    and the scenario of that combination raises it; the rows collected so
    far are lost and the combinations after it are not run. *)
Theorem sweep_stops_at_the_first_failure G num_machines_list
    shift_schedules_list simulation_time fuel w e w' :
  perform_scenario_analysis G num_machines_list shift_schedules_list
    simulation_time fuel w = Some (Raise e, w') <->
  exists before num_machines shift_schedule rest rows w1,
    list_prod num_machines_list shift_schedules_list
    = before ++ (num_machines, shift_schedule) :: rest /\
    runs_in_order G simulation_time fuel before w rows w1 /\
    run_scenario G num_machines shift_schedule simulation_time fuel
      (Environment w1) = Some (Raise e, w').
Proof.
  unfold perform_scenario_analysis.
  rewrite outer_loop_combinations. apply combinations_loop_raises.
Qed.

Lemma unknown_machine_type_is_rejected_witness :
  exists k w',
    run_scenario five_minutes [("Machining", 1); ("Welding", 2)]%Z [] 20 100
      (Environment (at_import (constant_rng 1)))
    = Some (Raise (KeyError k), w') /\
    k ∈ dict_keys [("Machining", 1); ("Welding", 2)]%Z /\
    ~ known five_minutes k /\
    is_Some (resources w' !! k) /\
    procs w' = [] /\ queue w' = [] /\
    stdout w' = stdout (at_import (constant_rng 1)).
Proof.
  apply (unknown_machine_type_is_rejected five_minutes
           [("Machining", 1); ("Welding", 2)]%Z [] 20 100
           (at_import (constant_rng 1)) "Welding").
  - intros k q. simpl.
    destruct (String.eqb k "Machining"); [intros [= <-]; lia|].
    destruct (String.eqb k "Welding"); [intros [= <-]; lia|discriminate].
  - simpl. right. left.
  - intros [[x Hx] _]. vm_compute in Hx. discriminate.
Defined.

Lemma sweep_rows_are_bounded_witness :
  let r := perform_scenario_analysis five_minutes [one_each] [[]] 20 100
             (at_import (constant_rng 1)) in
  let w' := match r with
            | Some (_, w) => w
            | None => at_import (constant_rng 0)
            end in
  let rows := [{| Num_Machines := one_each; Shift_Schedule := [];
                  Products_Produced := 0; Raw_Materials_Used := 19 |}] in
  r = Some (Ok rows, w') /\
  length rows = 1 * 1 /\
  Forall (fun x => (0 <= Products_Produced x <= Raw_Materials_Used x)%Z) rows.
Proof.
  intros r w' rows.
  assert (Hr : r = Some (Ok rows, w')) by (vm_compute; reflexivity).
  split; [exact Hr|].
  exact (sweep_rows_are_bounded five_minutes [one_each] [[]] 20 100
           (at_import (constant_rng 1)) rows w' Hr).
Defined.

(** ** No failure is lost *)

Lemma fail_push_other ex t P Q t' pr n ev :
  fail_ok ex t P Q -> (forall p f, ev <> ProcessEv p f) ->
  fail_ok ex t P (heappush (Entry t' pr n ev) Q).
Proof.
  intros [Hp Ht Hs Hu] Hev. split; try done.
  - intros p X HX Hex Hf. destruct (Hp p X HX Hex Hf) as [(e & x & He & Hx)|H];
      [left|by right].
    exists e, x. split; [|done]. apply elem_of_heappush. by right.
  - intros e p f [->|He]%elem_of_heappush Hx; [|eauto].
    simpl in Hx. by destruct (Hev p f).
Qed.

Lemma fail_append ex t P Q g :
  fail_ok ex t P Q -> failed g = false ->
  fail_ok ex t (P ++ [{| generator := g; callbacks := [] |}]) Q.
Proof.
  intros [Hp Ht Hs Hu] Hg.
  assert (Hold : forall p X,
            (P ++ [{| generator := g; callbacks := [] |}]) !! p = Some X ->
            P !! p = Some X \/
            X = {| generator := g; callbacks := [] |}).
  { intros p X [H|[_ H]]%lookup_app_Some; [by left|right].
    by apply list_elem_of_lookup_2, list_elem_of_singleton in H. }
  assert (Hkeep : forall u Y, P !! u = Some Y ->
            (P ++ [{| generator := g; callbacks := [] |}]) !! u = Some Y).
  { intros u Y HY. rewrite lookup_app_l; [done|by eapply lookup_lt_Some]. }
  split; try done.
  - intros p X HX Hex Hf. destruct (Hold p X HX) as [H| ->];
      [|simpl in Hf; congruence].
    destruct (Hp p X H Hex Hf) as [?|(u & Y & Hin & HY & HfY)]; [by left|right].
    exists u, Y. auto.
  - intros p X HX Hc. destruct (Hold p X HX) as [H| ->]; [eauto|done].
  - intros p X u HX Hin. destruct (Hold p X HX) as [H| ->];
      [|by apply elem_of_nil in Hin].
    destruct (Hu p X u H Hin) as (Y & HY & HYu). exists Y. auto.
Qed.

(** [yield env.process(...)]: the unit [p] becomes the callback of the
    new process [s]. *)
Lemma fail_callback ex t P Q s p X Y :
  fail_ok ex t P Q -> P !! s = Some X -> is_stage (generator X) = true ->
  failed (generator X) = false ->
  P !! p = Some Y -> is_unit (generator Y) = true ->
  fail_ok ex t (alter (with_callback p) s P) Q.
Proof.
  intros [Hp Ht Hs Hu] HX HXs HXf HY HYu.
  assert (Hold : forall q Z, alter (with_callback p) s P !! q = Some Z ->
            exists Z0, P !! q = Some Z0 /\ generator Z = generator Z0 /\
              (q <> s -> Z = Z0) /\
              (forall u, u ∈ callbacks Z -> u ∈ callbacks Z0 \/ q = s /\ u = p)).
  { intros q Z. destruct (decide (q = s)) as [->|Hne].
    - rewrite list_lookup_alter_eq, HX. simpl. intros [= <-].
      exists X. split; [done|]. split; [done|]. split; [done|].
      simpl. intros u [Hin| ->%list_elem_of_singleton]%elem_of_app; auto.
    - rewrite list_lookup_alter_ne by done. intros HZ. exists Z.
      repeat split; auto. }
  assert (Hkeep : forall u Z0, P !! u = Some Z0 ->
            exists Z, alter (with_callback p) s P !! u = Some Z /\
              generator Z = generator Z0).
  { intros u Z0 HZ0. destruct (decide (u = s)) as [->|Hne].
    - rewrite list_lookup_alter_eq, HZ0. simpl. eauto.
    - rewrite list_lookup_alter_ne by done. eauto. }
  split; try done.
  - intros q Z HZ Hex Hf.
    destruct (Hold q Z HZ) as (Z0 & HZ0 & Hg & Hsame & Hcb).
    rewrite Hg in Hf.
    assert (q <> s) by (intros ->; congruence).
    rewrite (Hsame H) in *.
    destruct (Hp q Z0 HZ0 Hex Hf) as [?|(u & Y0 & Hin & HY0 & HfY)];
      [by left|right].
    destruct (Hkeep u Y0 HY0) as (Y1 & HY1 & Hg1).
    exists u, Y1. rewrite Hg1. auto.
  - intros q Z HZ Hc.
    destruct (Hold q Z HZ) as (Z0 & HZ0 & Hg & Hsame & Hcb). rewrite Hg.
    destruct (decide (q = s)) as [->|Hne]; [congruence|].
    rewrite (Hsame Hne) in Hc. eauto.
  - intros q Z u HZ Hin.
    destruct (Hold q Z HZ) as (Z0 & HZ0 & Hg & Hsame & Hcb).
    destruct (Hcb u Hin) as [Hin0|[-> ->]].
    + destruct (Hu q Z0 u HZ0 Hin0) as (Y0 & HY0 & HY0u).
      destruct (Hkeep u Y0 HY0) as (Y1 & HY1 & Hg1).
      exists Y1. by rewrite Hg1.
    + destruct (Hkeep p Y HY) as (Y1 & HY1 & Hg1).
      exists Y1. by rewrite Hg1.
Qed.

(** The generator of the running process [p] moves on, returns or
    raises; when it raised, its failure is in the queue [Q]. *)
Lemma fail_generator ex t P Q p X g :
  fail_ok ex t P Q -> P !! p = Some X -> failed (generator X) = false ->
  kind g = kind (generator X) ->
  (failed g = true -> pending_failure Q p) ->
  fail_ok ex t (alter (with_generator g) p P) Q.
Proof.
  intros [Hp Ht Hs Hu] HX HXf Hk Hg.
  assert (Hst : is_stage g = is_stage (generator X)).
  { by destruct g, (generator X). }
  assert (Hun : is_unit g = is_unit (generator X)).
  { by destruct g, (generator X). }
  assert (Hold : forall q Z, alter (with_generator g) p P !! q = Some Z ->
            exists Z0, P !! q = Some Z0 /\ callbacks Z = callbacks Z0 /\
              is_stage (generator Z) = is_stage (generator Z0) /\
              is_unit (generator Z) = is_unit (generator Z0) /\
              (q <> p -> Z = Z0) /\ (q = p -> generator Z = g)).
  { intros q Z. destruct (decide (q = p)) as [->|Hne].
    - rewrite list_lookup_alter_eq, HX. simpl. intros [= <-].
      exists X. simpl. repeat split; done.
    - rewrite list_lookup_alter_ne by done. intros HZ. exists Z.
      repeat split; done. }
  assert (Hkeep : forall u Z0, P !! u = Some Z0 ->
            exists Z, alter (with_generator g) p P !! u = Some Z /\
              is_unit (generator Z) = is_unit (generator Z0) /\
              (failed (generator Z0) = true -> failed (generator Z) = true)).
  { intros u Z0 HZ0. destruct (decide (u = p)) as [->|Hne].
    - rewrite list_lookup_alter_eq, HZ0. simpl. eexists. split; [done|].
      assert (Z0 = X) as -> by congruence. split; [done|]. congruence.
    - rewrite list_lookup_alter_ne by done. eauto. }
  split; try done.
  - intros q Z HZ Hex Hf.
    destruct (Hold q Z HZ) as (Z0 & HZ0 & Hcb & _ & _ & Hsame & Hself).
    destruct (decide (q = p)) as [->|Hne].
    + left. apply Hg. by rewrite <- (Hself eq_refl).
    + rewrite (Hsame Hne) in *.
      destruct (Hp q Z0 HZ0 Hex Hf) as [?|(u & Y0 & Hin & HY0 & HfY)];
        [by left|right].
      destruct (Hkeep u Y0 HY0) as (Y1 & HY1 & _ & Hf1).
      exists u, Y1. auto.
  - intros q Z HZ Hc.
    destruct (Hold q Z HZ) as (Z0 & HZ0 & Hcb & Hs0 & _).
    rewrite Hs0. apply (Hs q Z0 HZ0). by rewrite <- Hcb.
  - intros q Z u HZ Hin.
    destruct (Hold q Z HZ) as (Z0 & HZ0 & Hcb & _).
    rewrite Hcb in Hin.
    destruct (Hu q Z0 u HZ0 Hin) as (Y0 & HY0 & HY0u).
    destruct (Hkeep u Y0 HY0) as (Y1 & HY1 & Hu1 & _).
    exists Y1. by rewrite Hu1.
Qed.

(** The end of the running process is scheduled, for now. *)
Lemma fail_push_end ex t P Q t' pr n p f :
  fail_ok ex t P Q -> (t' <= t)%Q ->
  fail_ok ex t P (heappush (Entry t' pr n (ProcessEv p f)) Q).
Proof.
  intros [Hp Ht Hs Hu] Ht'. split; try done.
  - intros q X HX Hex Hf.
    destruct (Hp q X HX Hex Hf) as [(e & x & He & Hx)|H];
      [left|by right].
    exists e, x. split; [|done]. apply elem_of_heappush. by right.
  - intros e q f' [->|He]%elem_of_heappush Hx; [done|eauto].
Qed.

Lemma kind_at_app P X p : p < length P -> kind_at (P ++ [X]) p = kind_at P p.
Proof. intros H. unfold kind_at. by rewrite lookup_app_l. Qed.

Lemma kind_at_new P X : kind_at (P ++ [X]) (length P) = Some (kind (generator X)).
Proof. unfold kind_at. by rewrite list_lookup_middle. Qed.

Lemma kind_at_alter_callback P p s q :
  kind_at (alter (with_callback p) s P) q = kind_at P q.
Proof.
  unfold kind_at. destruct (decide (q = s)) as [->|Hne].
  - rewrite list_lookup_alter_eq. by destruct (P !! s).
  - by rewrite list_lookup_alter_ne.
Qed.

Lemma live_kind P p k :
  live P p = true -> kind_at P p = Some k ->
  exists X, P !! p = Some X /\ failed (generator X) = false /\
    kind (generator X) = k.
Proof.
  unfold live, kind_at. destruct (P !! p) as [X|]; [|done].
  simpl. intros Hl [= <-]. exists X. split; [done|]. split; [|done].
  by destruct (generator X) as [? []|?? []|[]|??? []|?? []].
Qed.

Lemma fail_moves ex t P Q p g :
  fail_ok ex t P Q -> live P p = true -> kind_at P p = Some (kind g) ->
  failed g = false ->
  fail_ok ex t (alter (with_generator g) p P) Q.
Proof.
  intros Hf Hl Hk Hg. destruct (live_kind _ _ _ Hl Hk) as (X & HX & HXf & HXk).
  eapply fail_generator; eauto. congruence.
Qed.

Lemma fail_finish ex t P Q p g t' pr n f :
  fail_ok ex t P Q -> live P p = true -> kind_at P p = Some (kind g) ->
  (t' <= t)%Q -> (failed g = true -> exists x, f = Some x) ->
  fail_ok ex t (alter (with_generator g) p P)
    (heappush (Entry t' pr n (ProcessEv p f)) Q).
Proof.
  intros Hf Hl Hk Ht Hg.
  destruct (live_kind _ _ _ Hl Hk) as (X & HX & HXf & HXk).
  eapply fail_generator; eauto using fail_push_end.
  intros [x ->]%Hg. exists (Entry t' pr n (ProcessEv p (Some x))), x.
  split; [|reflexivity]. apply elem_of_heappush. by left.
Qed.

Lemma fail_waits ex t P Q s p :
  fail_ok ex t P Q -> live P s = true -> kind_at P s = Some 4 ->
  kind_at P p = Some 3 ->
  fail_ok ex t (alter (with_callback p) s P) Q.
Proof.
  intros Hf Hl Hs Hp.
  destruct (live_kind _ _ _ Hl Hs) as (X & HX & HXf & HXk).
  unfold kind_at in Hp. destruct (P !! p) as [Y|] eqn:HY; [|done].
  simpl in Hp. injection Hp as Hp.
  eapply fail_callback; eauto.
  - by destruct (generator X).
  - by destruct (generator Y).
Qed.

Lemma fail_spawn ex t P Q g t' pr n :
  fail_ok ex t P Q -> failed g = false ->
  fail_ok ex t (P ++ [{| generator := g; callbacks := [] |}])
    (heappush (Entry t' pr n (Initialize (length P))) Q).
Proof. intros Hf Hg. apply fail_push_other; [by apply fail_append|done]. Qed.

Ltac fail_chain Hf :=
  repeat lazymatch goal with
  | |- fail_ok _ _ (procs ?w) (queue ?w) => exact Hf
  | |- fail_ok _ _ (alter (with_generator _) _ _)
         (heappush (Entry _ _ _ (ProcessEv _ _)) _) =>
      eapply fail_finish
  | |- fail_ok _ _ (alter (with_generator _) _ _) _ => eapply fail_moves
  | |- fail_ok _ _ (alter (with_callback _) _ _) _ => eapply fail_waits
  | |- fail_ok _ _ (_ ++ [_]) (heappush (Entry _ _ _ (Initialize _)) _) =>
      eapply fail_spawn
  | |- fail_ok _ _ _ (heappush (Entry _ _ _ _) _) =>
      apply fail_push_other; [|discriminate]
  end.

Lemma resume_fail G ex p th w :
  fail_ok ex (now w) (procs w) (queue w) ->
  let w' := snd (_resume G p th w) in
  fail_ok ex (now w') (procs w') (queue w').
Proof.
  intros Hf. unfold _resume.
  destruct (procs w !! p) as [X|] eqn:HP; [|done].
  destruct (finished (generator X)) eqn:Hfin; [done|].
  assert (Hlive : live (procs w) p = true).
  { unfold live. by rewrite HP, Hfin. }
  assert (Hlen : p < length (procs w)) by (by eapply lookup_lt_Some).
  assert (Hkind : kind_at (procs w) p = Some (kind (generator X))).
  { unfold kind_at. by rewrite HP. }
  destruct (send G p (generator X) th w) as [r w'] eqn:H.
  destruct (generator X) as [self pc|pt ms pc|pc|nm pt ms pc|self pt pc];
    destruct pc; try discriminate Hfin; destruct th; unfold_bodies.
  all: try match goal with
           | H : context [match ?rest with [] => _ | _ :: _ => _ end] |- _ =>
               is_var rest; destruct rest
           end.
  all: exec.
  all: fail_chain Hf.
  all: rewrite ?live_alter_callback, ?kind_at_alter_callback, ?kind_at_new,
         ?length_alter; simpl.
  all: try lazymatch goal with
           | |- failed _ = _ => reflexivity
           | |- _ = true -> _ => first [discriminate | intros _; eauto]
           | |- (_ <= _)%Q => lra
           | |- live (_ ++ [_]) (length _) = true =>
               by rewrite live_new
           | |- live (_ ++ [_]) _ = true =>
               rewrite live_app by exact Hlen; exact Hlive
           | |- live _ _ = true => exact Hlive
           | |- kind_at (_ ++ [_]) _ = _ =>
               rewrite kind_at_app by exact Hlen; exact Hkind
           | |- kind_at _ _ = _ => exact Hkind
           | |- Some _ = Some _ => reflexivity
           end.
  all: reflexivity.
Qed.

Lemma trigger_put_fail ex key w :
  fail_ok ex (now w) (procs w) (queue w) ->
  let w' := snd (_trigger_put key w) in
  fail_ok ex (now w') (procs w') (queue w').
Proof.
  intros Hf. destruct (_trigger_put key w) as [r w'] eqn:H. simpl.
  exec; try done. by apply fail_push_other.
Qed.

Lemma fail_pop ex t e Q P :
  fail_ok None t P (e :: Q) -> (t <= e_time e)%Q ->
  (forall p x, e_event e = ProcessEv p (Some x) -> ex = Some p) ->
  fail_ok ex (e_time e) P Q.
Proof.
  intros [Hp Ht Hs Hu] Hle Hev. split; try done.
  - intros p X HX Hex Hf.
    destruct (Hp p X HX) as [(y & x & Hy & Hx)|H]; [done|done|left|by right].
    exists y, x. split; [|done].
    apply elem_of_cons in Hy as [->|Hy]; [|done].
    by destruct Hex, (Hev p x Hx).
  - intros y p f Hy Hx. assert (e_time y <= t)%Q; [|lra].
    eapply Ht; [by right|done].
Qed.

(** An exception thrown into a process that has not finished makes it
    fail. *)
Lemma resume_thrown G p x w X :
  procs w !! p = Some X -> finished (generator X) = false ->
  exists Y, procs (snd (_resume G p (Some x) w)) !! p = Some Y /\
    failed (generator Y) = true.
Proof.
  intros HP Hfin. unfold _resume. rewrite HP, Hfin.
  assert (Hlen : p < length (procs w)) by (by eapply lookup_lt_Some).
  destruct (send G p (generator X) (Some x) w) as [r w'] eqn:H.
  destruct (generator X) as [self pc|pt ms pc|pc|nm pt ms pc|self pt pc];
    destruct pc; try discriminate Hfin; unfold_bodies.
  all: exec.
  all: rewrite list_lookup_alter_eq, HP; simpl; eauto.
Qed.

(** The failure of [s] was thrown into its callback [u], which failed. *)
Lemma fail_delivered s t P Q X u Y :
  fail_ok (Some s) t P Q -> P !! s = Some X -> u ∈ callbacks X ->
  P !! u = Some Y -> failed (generator Y) = true ->
  fail_ok None t P Q.
Proof.
  intros [Hp Ht Hs Hu] HX Hin HY HfY. split; try done.
  intros p Z HZ _ Hf. destruct (decide (p = s)) as [->|Hne].
  - right. assert (Z = X) as -> by congruence. eauto.
  - apply Hp; [done| |done]. congruence.
Qed.

(** A resumption leaves the callbacks of the processes that exist. *)
Lemma resume_waiters G p th w s :
  s < length (procs w) ->
  waiters (procs (snd (_resume G p th w))) s = waiters (procs w) s.
Proof.
  intros Hs. unfold _resume.
  destruct (procs w !! p) as [X|] eqn:HP; [|done].
  destruct (finished (generator X)) eqn:Hfin; [done|].
  destruct (send G p (generator X) th w) as [r w'] eqn:H.
  destruct (generator X) as [self pc|pt ms pc|pc|nm pt ms pc|self pt pc];
    destruct pc; try discriminate Hfin; destruct th; unfold_bodies.
  all: try match goal with
           | H : context [match ?rest with [] => _ | _ :: _ => _ end] |- _ =>
               is_var rest; destruct rest
           end.
  all: exec.
  all: rewrite ?waiters_alter_generator, ?waiters_alter_callback.
  all: repeat case_decide; try lia.
  all: rewrite ?waiters_app by exact Hs; reflexivity.
Qed.

Lemma step_sound G H w w' :
  sound H w -> step G w = (Ok Continue, w') -> sound H w'.
Proof.
  intros (Hk & Hs & Hf & Hu) Hstep.
  assert (Hu' : until_at H (queue w')).
  { destruct (step_cases _ _ _ _ Hstep) as (e & Q & HQ & Hev).
    assert (Hc : clock_ok H (stdout w) w).
    { split; [done|]. split; [done|]. exists []. rewrite app_nil_r.
      split; [done|]. split; [constructor|].
      intros l Hl. by apply elem_of_nil in Hl. }
    pose proof (step_clock G H (stdout w) w e Q Hc HQ Hev) as (_ & Hx & _).
    by rewrite Hstep in Hx. }
  cut (kernel_ok H (now w') (queue w') /\ Sync w' /\
       fail_ok None (now w') (procs w') (queue w')).
  { intros (? & ? & ?). by split; [|split; [|split]]. }
  clear Hu Hu'. revert Hstep. unfold step.
  destruct (queue w) as [|e Q] eqn:HQ; [discriminate|].
  set (w1 := set_now (e_time e) (set_heap (eid w) Q w)).
  assert (Hle : (now w <= e_time e)%Q).
  { apply (k_future _ _ _ Hk). left. }
  unfold Sync in Hs. rewrite HQ in Hs.
  assert (Hown : forall tok q th,
            token_of (e_event e) = Some tok -> target tok = Some q ->
            e_event e <> Until ->
            let w2 := snd (_resume G q th w1) in
            kernel_ok H (now w2) (queue w2) /\ Sync w2 /\
            fail_ok None (now w2) (procs w2) (queue w2)).
  { intros tok q th Htok Hq Hne.
    destruct (sync_pop_own _ _ _ _ _ _ _ Hs Htok Hq) as [Ha Hrun].
    split; [|split].
    - apply resume_kernel. by eapply kernel_pop.
    - by apply resume_sync.
    - apply (resume_fail G None q th w1). simpl.
      eapply fail_pop; [exact Hf|exact Hle|].
      intros p x Hev. rewrite Hev in Htok. injection Htok as <-.
      discriminate. }
  destruct (e_event e) as [p|p|r|r|s f|] eqn:Hev; simpl; unfold bind.
  - pose proof (resume_ok G p None w1) as Hok.
    specialize (Hown (TInit p) p None eq_refl eq_refl).
    destruct (_resume G p None w1) as [[[]|?] w2]; [|discriminate].
    intros [= <-]. by apply Hown.
  - pose proof (resume_ok G p None w1) as Hok.
    specialize (Hown (TTimeout p) p None eq_refl eq_refl).
    destruct (_resume G p None w1) as [[[]|?] w2]; [|discriminate].
    intros [= <-]. by apply Hown.
  - pose proof (resume_ok G (req_proc r) None w1) as Hok.
    specialize (Hown (TRequest r) (req_proc r) None eq_refl eq_refl).
    destruct (_resume G (req_proc r) None w1) as [[[]|?] w2]; [|discriminate].
    intros [= <-]. by apply Hown.
  - destruct (trigger_put_frame (resource r) w1) as (Hok & _).
    assert (Hk1 : kernel_ok H (now w1) (queue w1)).
    { eapply kernel_pop; [exact Hk|]. by rewrite Hev. }
    pose proof (trigger_put_kernel H (resource r) w1 Hk1) as Hk2.
    assert (Hs1 : Sync w1).
    { eapply sync_pop_none; [exact Hs|]. by rewrite Hev. }
    pose proof (trigger_put_sync (resource r) w1 Hs1) as Hs2.
    assert (Hf1 : fail_ok None (now w1) (procs w1) (queue w1)).
    { simpl. eapply fail_pop; [exact Hf|exact Hle|].
      intros p x. by rewrite Hev. }
    pose proof (trigger_put_fail None (resource r) w1 Hf1) as Hf2.
    destruct (_trigger_put (resource r) w1) as [[[]|?] w2]; [|discriminate].
    intros [= <-]. by split; [|split].
  - unfold gets, ret. simpl.
    change (from_option callbacks [] (procs w !! s))
      with (waiters (procs w) s).
    destruct (sync_pop_process _ _ _ _ _ s f Hs Hev) as [Hs1 Hcb].
    assert (Hk1 : kernel_ok H (now w1) (queue w1)).
    { eapply kernel_pop; [exact Hk|]. by rewrite Hev. }
    pose proof (s_single _ _ _ _ Hs s) as Hlen.
    destruct (waiters (procs w) s) as [|u [|u' l]] eqn:Hw;
      [|clear Hlen|simpl in Hlen; lia].
    + simpl. destruct f; [discriminate|]. intros [= <-].
      split; [done|]. split; [done|]. simpl.
      eapply fail_pop; [exact Hf|exact Hle|]. intros p x. by rewrite Hev.
    + simpl. unfold bind.
      pose proof (resume_ok G u f w1) as Hok.
      destruct (Hcb u) as [Ha Hrun]; [by left|].
      assert (Hon : let w2 := snd (_resume G u f w1) in
                kernel_ok H (now w2) (queue w2) /\ Sync w2 /\
                fail_ok None (now w2) (procs w2) (queue w2)).
      { split; [by apply resume_kernel|]. split; [by apply resume_sync|].
        destruct f as [x|].
        - (* the failure of [s] is thrown into the unit [u] *)
          assert (Hex : fail_ok (Some s) (now w1) (procs w1) (queue w1)).
          { simpl. eapply fail_pop; [exact Hf|exact Hle|].
            intros p y. rewrite Hev. by intros [= -> _]. }
          pose proof (resume_fail G (Some s) u (Some x) w1 Hex) as Hex'.
          simpl in Hex'.
          destruct (awaited_Some w u _ Ha) as (g & Hg & Hawaits).
          unfold gens in Hg.
          change (map generator (procs w)) with (generator <$> procs w) in Hg.
          rewrite list_lookup_fmap in Hg.
          destruct (procs w !! u) as [U|] eqn:HU; [|done].
          simpl in Hg. injection Hg as <-.
          assert (Hlive : finished (generator U) = false).
          { by destruct (generator U) as [? []|?? []|[]|??? []|?? []]. }
          destruct (resume_thrown G u x w1 U HU Hlive) as (Y & HY & HfY).
          destruct (s_done _ _ _ _ Hs s) as [Hslen _].
          { rewrite tokens_cons, Hev. left. }
          pose proof (resume_waiters G u (Some x) w1 s Hslen) as Hwait.
          simpl in Hwait. rewrite Hw in Hwait. unfold waiters in Hwait.
          destruct (procs (snd (_resume G u (Some x) w1)) !! s)
            as [S'|] eqn:HS'; [|done].
          simpl in Hwait.
          eapply fail_delivered; [exact Hex'|exact HS'| |exact HY|exact HfY].
          rewrite Hwait. left.
        - apply (resume_fail G None u None w1). simpl.
          eapply fail_pop; [exact Hf|exact Hle|].
          intros p y. by rewrite Hev. }
      destruct (_resume G u f w1) as [[[]|?] w2]; [|discriminate].
      simpl in *. destruct f; intros [= <-]; done.
  - discriminate.
Qed.

(** When the loop is about to stop, no process has failed. *)
Lemma sound_at_stop H w e Q p X :
  sound H w -> queue w = e :: Q -> e_event e = Until ->
  procs w !! p = Some X -> failed (generator X) = false.
Proof.
  intros (Hk & _ & Hf & Hu) HQ Hev.
  rewrite HQ in Hk, Hf, Hu.
  assert (He : (e_time e == H)%Q) by (apply Hu; [left|done]).
  assert (Hnone : forall q, ~ pending_failure (e :: Q) q).
  { intros q (y & x & Hy & Hx).
    pose proof (f_time _ _ _ _ Hf y q _ Hy Hx) as Hty.
    pose proof (k_before _ _ _ Hk) as Hb.
    apply elem_of_cons in Hy as [->|Hy]; [congruence|].
    pose proof (k_sorted _ _ _ Hk) as Hsort.
    apply StronglySorted_inv in Hsort as [_ Hall].
    rewrite Forall_forall in Hall.
    destruct (Hall y Hy) as [Hlt|[Heq _]]; lra. }
  intros HX. destruct (failed (generator X)) eqn:HfX; [exfalso|done].
  destruct (f_pending _ _ _ _ Hf p X HX) as [Hp|(u & Y & Hin & HY & HfY)];
    [done|done|by eapply Hnone|].
  destruct (f_unit _ _ _ _ Hf p X u HX Hin) as (Y' & HY' & HYu).
  assert (Y' = Y) as -> by congruence.
  destruct (f_pending _ _ _ _ Hf u Y HY) as [Hp|(u' & Z & Hin' & _)];
    [done|done|by eapply Hnone|].
  assert (Hst : is_stage (generator Y) = true).
  { apply (f_stage _ _ _ _ Hf u Y HY). intros Hnil. rewrite Hnil in Hin'.
    by apply elem_of_nil in Hin'. }
  by destruct (generator Y).
Qed.

Lemma run_loop_sound G H fuel w w' p X :
  sound H w -> run_loop G fuel w = Some (Ok tt, w') ->
  procs w' !! p = Some X -> failed (generator X) = false.
Proof.
  revert w. induction fuel as [|fuel IH]; simpl; intros w Hw; [discriminate|].
  destruct (step G w) as [[[]|e] w1] eqn:Hstep.
  - apply IH. by eapply step_sound.
  - intros [= <-].
    destruct (step_cases _ _ _ _ Hstep) as (e & Q & HQ & Hev & ->).
    simpl. by eapply sound_at_stop.
  - discriminate.
Qed.

Lemma keeps_fail_start G nm ss :
  keeps (fun w => fail_ok None (now w) (procs w) (queue w))
    (start_scenario G nm ss).
Proof.
  assert (Hproc : forall g, failed g = false ->
            keeps (fun w => fail_ok None (now w) (procs w) (queue w))
              (process g)).
  { intros g Hg w Hw. unfold process, gets, modify, schedule, bind, ret.
    simpl. by apply fail_spawn. }
  assert (Hbuild : forall keys,
            keeps (fun w => fail_ok None (now w) (procs w) (queue w))
              (build_machines G nm keys)).
  { intros keys w Hw.
    destruct (build_machines G nm keys w) as [r w'] eqn:HB. simpl.
    apply build_machines_frame in HB as (Hq & _ & Hp & _ & Hnow & _).
    by rewrite Hq, Hp, Hnow. }
  unfold start_scenario.
  apply keeps_bind; [by intros w Hw|]. intros [].
  apply keeps_bind; [by intros w Hw|]. intros [].
  apply keeps_bind; [apply Hbuild|]. intros ms.
  apply keeps_bind.
  { apply keeps_for_each. intros mt.
    apply keeps_bind; [apply keeps_subscript|]. intros m.
    apply keeps_bind; [by apply Hproc|]. intros s. apply keeps_ret. }
  intros [].
  apply keeps_bind.
  { apply keeps_for_each. intros pt.
    apply keeps_bind; [by apply Hproc|]. intros s. apply keeps_ret. }
  intros [].
  apply keeps_bind; [by apply Hproc|]. intros s. apply keeps_ret.
Qed.

Lemma run_starts_sound G nm ss h w0 w :
  run_starts G nm ss h w0 w -> sound (inject_Z h) w.
Proof.
  intros Hrun.
  destruct (run_starts_on_time G 0 nm ss h w0 w Hrun) as (Hk & Hs & _).
  destruct (run_starts_clock G nm ss h w0 w Hrun) as (_ & Hu & _).
  split; [done|]. split; [done|]. split; [|done].
  destruct Hrun as (w1 & Hstart & _ & ->).
  pose proof (keeps_fail_start G nm ss (Environment w0)) as Hf.
  rewrite Hstart in Hf. unfold schedule, modify. simpl in *.
  apply fail_push_other; [|done]. apply Hf.
  split; simpl; try done.
  intros e p f He. by apply elem_of_nil in He.
Qed.

(** X14: an exception in a process is never lost: when [run_scenario]
    returns a result, no generator of the run has raised; every process
    is at a [yield] or has returned.  A failure inside [env.run], such as
    the [ValueError] of an empty range or the [KeyError] of a missing
    table entry, ends the run with an exception. *)
Theorem a_result_means_no_failure G num_machines shift_schedules
    simulation_time fuel w0 produced used w' :
  run_scenario G num_machines shift_schedules simulation_time fuel
    (Environment w0) = Some (Ok (produced, used), w') ->
  forall p g, gens w' !! p = Some g -> failed g = false.
Proof.
  unfold run_scenario.
  destruct (start_scenario G num_machines shift_schedules (Environment w0))
    as [[[]|e] w1] eqn:Hs; [|discriminate].
  unfold run.
  destruct (Qle_bool (inject_Z simulation_time) (now w1)) eqn:Hle;
    [discriminate|].
  destruct (schedule Until URGENT (inject_Z simulation_time - now w1) w1)
    as [r1 w2] eqn:Hsch.
  destruct (run_loop G fuel w2) as [[[[]|e] w3]|] eqn:Hloop; try discriminate.
  intros [= _ _ <-] p g Hg.
  unfold gens in Hg.
  change (map generator (procs w3)) with (generator <$> procs w3) in Hg.
  rewrite list_lookup_fmap in Hg.
  destruct (procs w3 !! p) as [X|] eqn:HX; [|done].
  simpl in Hg. injection Hg as <-.
  eapply (run_loop_sound G (inject_Z simulation_time)); [|exact Hloop|exact HX].
  apply (run_starts_sound G num_machines shift_schedules simulation_time w0).
  exists w1. split; [done|]. split; [done|]. by rewrite Hsch.
Qed.

Lemma a_result_means_no_failure_witness :
  let r := run_scenario five_minutes one_each [] 20 100
             (Environment (at_import (constant_rng 1))) in
  r = Some (Ok (0, 19)%Z, world_of r) /\
  forall p g, gens (world_of r) !! p = Some g -> failed g = false.
Proof.
  intros r.
  assert (Hr : r = Some (Ok (0, 19)%Z, world_of r))
    by (vm_compute; reflexivity).
  split; [exact Hr|].
  exact (a_result_means_no_failure five_minutes one_each [] 20 100
           (at_import (constant_rng 1)) 0%Z 19%Z (world_of r) Hr).
Defined.

(** The run of thirty minutes with repair ranges that have [min > max]:
    the first repair, in the 21st minute, draws from the empty range. *)
Example a_failure_ends_the_run :
  option_map fst
    (run_scenario bad_repair one_each [] 30 400
       (Environment (at_import (constant_rng 1))))
  = Some (Raise (ValueError EmptyRange)).
Proof. vm_compute. reflexivity. Qed.

(** ** The shifts *)

(** What a resumption does, for the processes other than the one
    resumed: the generator of [q] keeps its function, the new processes
    are units and stages, the events pushed are for [q] or for the new
    processes, and only [change_shift] prints shift lines. *)
Lemma resume_summary G q th w X :
  procs w !! q = Some X -> finished (generator X) = false ->
  let w' := snd (_resume G q th w) in
  exists g' news lines pushed,
    gens w' = <[q := g']> (gens w ++ news) /\
    stdout w' = stdout w ++ lines /\
    pushed_onto (queue w) pushed (queue w') /\
    kind g' = kind (generator X) /\
    Forall (fun x => kind x <> 2) news /\
    Forall (fun e => match e_event e with
                     | Timeout x => x = q
                     | Initialize x => length (procs w) <= x
                     | _ => True
                     end) pushed /\
    (kind (generator X) <> 2 -> Forall (fun l => shift_line l = None) lines).
Proof.
  intros HP Hfin. unfold _resume. rewrite HP, Hfin.
  destruct (send G q (generator X) th w) as [r w'] eqn:H.
  destruct (generator X) as [self pc|pt ms pc|pc|nm pt ms pc|self pt pc];
    destruct pc; try discriminate Hfin; destruct th; unfold_bodies.
  all: try match goal with
           | H : context [match ?rest with [] => _ | _ :: _ => _ end] |- _ =>
               is_var rest; destruct rest
           end.
  all: exec.
  all: eexists _, _, _, _.
  all: split;
    [unfold gens; wsimpl;
     rewrite ?gens_with_generator, ?gens_with_callback, ?map_app; simpl;
     first [reflexivity | apply insert_app_nil]|].
  all: split;
    [rewrite <- ?app_assoc; simpl;
     first [reflexivity | symmetry; apply app_nil_r]|].
  all: split; [pushed_chain|].
  all: split; [reflexivity|].
  all: split; [repeat constructor; discriminate|].
  all: split; [repeat (constructor; simpl)|].
  all: intros Hk; first [by destruct Hk | repeat constructor].
Qed.

Lemma shift_lines_app a b : shift_lines (a ++ b) = shift_lines a ++ shift_lines b.
Proof. unfold shift_lines. apply omap_app. Qed.

Lemma shift_lines_none lines :
  Forall (fun l => shift_line l = None) lines -> shift_lines lines = [].
Proof.
  induction 1 as [|l lines Hl _ IH]; [done|].
  unfold shift_lines in *. simpl. by rewrite Hl.
Qed.

(** A process other than the shift process is resumed. *)
Lemma resume_shift_other G old q th w :
  shift_ok old w ->
  (forall pc, gens w !! q <> Some (change_shift pc)) ->
  shift_ok old (snd (_resume G q th w)).
Proof.
  intros [(new & Hout & Hsched & Hat) Hone] Hq.
  destruct (procs w !! q) as [X|] eqn:HP;
    [|unfold _resume; rewrite HP; by split; [exists new|]].
  destruct (finished (generator X)) eqn:Hfin;
    [unfold _resume; rewrite HP, Hfin; by split; [exists new|]|].
  assert (Hg : gens w !! q = Some (generator X)).
  { unfold gens. change (map generator (procs w)) with (generator <$> procs w).
    by rewrite list_lookup_fmap, HP. }
  assert (Hk : kind (generator X) <> 2).
  { intros Hk. destruct (generator X) as [| |pc| |]; try discriminate.
    by destruct (Hq pc). }
  destruct (resume_summary G q th w X HP Hfin)
    as (g' & news & lines & pushed & Hgens & Hstd & Hpush & Hkind & Hnews
        & Hpushed & Hlines).
  specialize (Hlines Hk). apply shift_lines_none in Hlines.
  assert (Hlen : q < length (gens w)) by (by eapply lookup_lt_Some).
  assert (Hold : forall p pc,
            gens (snd (_resume G q th w)) !! p = Some (change_shift pc) ->
            p <> q /\ gens w !! p = Some (change_shift pc)).
  { intros p pc. rewrite Hgens. intros Hp.
    destruct (decide (p = q)) as [->|Hne].
    - rewrite list_lookup_insert_eq in Hp by (rewrite length_app; lia).
      injection Hp as ->. simpl in Hkind. congruence.
    - split; [done|]. rewrite list_lookup_insert_ne in Hp by done.
      apply lookup_app_Some in Hp as [Hp|[_ Hp]]; [done|].
      apply list_elem_of_lookup_2 in Hp. rewrite Forall_forall in Hnews.
      by destruct (Hnews _ Hp). }
  split.
  - exists (new ++ lines). rewrite Hstd, Hout, app_assoc. split; [done|].
    rewrite shift_lines_app, Hlines, app_nil_r. split; [done|].
    intros p pc Hp. destruct (Hold p pc Hp) as [Hne Hp0].
    specialize (Hat p pc Hp0).
    assert (Hplen : p < length (procs w)).
    { apply lookup_lt_Some in Hp0. unfold gens in Hp0.
      by rewrite length_map in Hp0. }
    assert (Hnew : forall e, e ∈ queue (snd (_resume G q th w)) ->
              e_event e = Timeout p \/ e_event e = Initialize p ->
              e ∈ queue w).
    { intros e He Hev.
      destruct (elem_of_pushed _ _ _ _ Hpush He) as [Hin|Hin]; [|done].
      rewrite Forall_forall in Hpushed. specialize (Hpushed e Hin).
      destruct Hev as [Hev|Hev]; rewrite Hev in Hpushed;
        [congruence|lia]. }
    destruct pc as [|s|]; simpl in *; [| |done].
    + destruct Hat as [Hk0 Hat]. split; [done|].
      intros e He Hev. apply Hat; [|done]. apply Hnew; auto.
    + destruct Hat as [Hs Hat]. split; [done|].
      intros e He Hev. apply Hat; [|done]. apply Hnew; auto.
  - intros p p' pc pc' Hp Hp'.
    destruct (Hold p pc Hp) as [_ Hp0].
    destruct (Hold p' pc' Hp') as [_ Hp0']. eauto.
Qed.

(** The shift process is resumed by its own event, at the time that
    event was due. *)
Lemma resume_shift_self G old p pc th w :
  shift_ok old w -> gens w !! p = Some (change_shift pc) ->
  (forall e, e ∈ queue w ->
     e_event e <> Timeout p /\ e_event e <> Initialize p) ->
  (forall new, stdout w = old ++ new ->
     match pc with
     | CS_start => (now w == 0)%Q
     | CS_yield _ =>
         (now w == inject_Z (8 * 60 * Z.of_nat (S (length (shift_lines new)))))%Q
     | CS_raised => True
     end) ->
  shift_ok old (snd (_resume G p th w)).
Proof.
  intros [(new & Hout & Hsched & Hat) Hone] Hp Hfree Hnow.
  specialize (Hnow new Hout). specialize (Hat p pc Hp) as Hself.
  assert (Hlen : p < length (gens w)) by (by eapply lookup_lt_Some).
  assert (Honly : forall g' q pc',
            (<[p := g']> (gens w)) !! q = Some (change_shift pc') ->
            q = p).
  { intros g' q pc' Hq. destruct (decide (q = p)) as [|Hne]; [done|].
    rewrite list_lookup_insert_ne in Hq by done. eauto. }
  unfold gens in Hp.
  change (map generator (procs w)) with (generator <$> procs w) in Hp.
  rewrite list_lookup_fmap in Hp.
  destruct (procs w !! p) as [X|] eqn:HP; [|done].
  simpl in Hp. injection Hp as Hp.
  unfold _resume. rewrite HP, Hp.
  destruct pc as [|s|], th as [x|]; simpl; unfold_prims; simpl.
  all: try (by split; [exists new|]).
  all: split;
    [|intros q q' c c';
      unfold gens; wsimpl; rewrite gens_with_generator;
      intros Hq Hq'; rewrite (Honly _ _ _ Hq), (Honly _ _ _ Hq'); done].
  - exists new. split; [done|]. split; [done|].
    intros q c. unfold gens; wsimpl. rewrite gens_with_generator.
    intros Hq. pose proof (Honly _ _ _ Hq) as Hqp. subst q.
    rewrite list_lookup_insert_eq in Hq by done. by injection Hq as <-.
  - exists new. split; [done|]. split; [done|].
    intros q c. unfold gens; wsimpl. rewrite gens_with_generator.
    intros Hq. pose proof (Honly _ _ _ Hq) as Hqp. subst q.
    rewrite list_lookup_insert_eq in Hq by done. injection Hq as <-.
    destruct Hself as [Hk _]. simpl. rewrite Hk. split; [done|].
    intros e [->|He]%elem_of_heappush Hev; simpl.
    + rewrite Hnow. rewrite Qplus_0_l. by rewrite Z.mul_1_r.
    + by destruct (Hfree e He).
  - exists new. split; [done|]. split; [done|].
    intros q c. unfold gens; wsimpl. rewrite gens_with_generator.
    intros Hq. pose proof (Honly _ _ _ Hq) as Hqp. subst q.
    rewrite list_lookup_insert_eq in Hq by done. by injection Hq as <-.
  - destruct Hself as [Hs _].
    exists (new ++ [L_shift (now w) (next_shift s)]).
    rewrite Hout, app_assoc. split; [done|].
    rewrite shift_lines_app. simpl.
    set (k := length (shift_lines new)) in *. split.
    + intros i t s' Hi.
      apply lookup_app_Some in Hi as [Hi|[Hge Hi]]; [eauto|].
      fold k in Hge, Hi.
      destruct (i - k) as [|j] eqn:Hj; [|done].
      simpl in Hi. injection Hi as <- <-.
      assert (i = k) as -> by lia. split; [done|]. by rewrite Hs.
    + intros q c. unfold gens; wsimpl. rewrite gens_with_generator.
      intros Hq. pose proof (Honly _ _ _ Hq) as Hqp. subst q.
      rewrite list_lookup_insert_eq in Hq by done. injection Hq as <-.
      simpl. rewrite length_app. simpl. fold k.
      replace (k + 1) with (S k) by lia. split; [by rewrite Hs|].
      intros e [->|He]%elem_of_heappush Hev; simpl.
      * rewrite Hnow. rewrite <- inject_Z_plus.
        apply inject_Z_injective. lia.
      * by destruct (Hfree e He).
Qed.

Lemma shift_frame old w w' :
  shift_ok old w -> stdout w' = stdout w -> gens w' = gens w ->
  (forall e, e ∈ queue w' ->
     e ∈ queue w \/
     forall p, e_event e <> Timeout p /\ e_event e <> Initialize p) ->
  shift_ok old w'.
Proof.
  intros [(new & Hout & Hsched & Hat) Hone] Ho Hg Hq. split.
  - exists new. rewrite Ho, Hg. split; [done|]. split; [done|].
    intros p pc Hp. specialize (Hat p pc Hp).
    destruct pc as [|s|]; simpl in *; [| |done].
    + destruct Hat as [Hk Hat]. split; [done|]. intros e He Hev.
      destruct (Hq e He) as [Hin|Hno]; [by apply Hat|].
      by destruct (Hno p).
    + destruct Hat as [Hk Hat]. split; [done|]. intros e He Hev.
      destruct (Hq e He) as [Hin|Hno]; [by apply Hat|].
      by destruct (Hno p).
  - by rewrite Hg.
Qed.

Lemma trigger_put_shift old key w :
  shift_ok old w -> shift_ok old (snd (_trigger_put key w)).
Proof.
  intros Hs. destruct (_trigger_put key w) as [r w'] eqn:H. simpl.
  exec; try done.
  eapply shift_frame; [exact Hs|done|done|].
  wsimpl. intros e [->|He]%elem_of_heappush; [by right|by left].
Qed.

Lemma step_shift G old w :
  Sync w -> shift_ok old w -> shift_ok old (snd (step G w)).
Proof.
  intros Hs Hsh. unfold step. destruct (queue w) as [|e Q] eqn:HQ; [done|].
  set (w1 := set_now (e_time e) (set_heap (eid w) Q w)).
  unfold Sync in Hs. rewrite HQ in Hs.
  assert (Hsh1 : shift_ok old w1).
  { eapply shift_frame; [exact Hsh|done|done|].
    intros x Hx. left. rewrite HQ. by right. }
  assert (Hown : forall tok q,
            token_of (e_event e) = Some tok -> target tok = Some q ->
            shift_ok old (snd (_resume G q None w1))).
  { intros tok q Htok Hq.
    destruct (sync_pop_own _ _ _ _ _ _ _ Hs Htok Hq) as [Haw Hrun].
    destruct (gens w !! q) as [g|] eqn:Hg.
    2:{ apply resume_shift_other; [done|]. intros pc. change (gens w1) with (gens w).
        by rewrite Hg. }
    destruct (decide (kind g = 2)) as [Hk|Hk].
    2:{ apply resume_shift_other; [done|]. intros pc.
        change (gens w1) with (gens w). rewrite Hg. by intros [= ->]. }
    destruct g as [| |pc| |]; try discriminate.
    rewrite (awaited_gens _ _ _ Hg) in Haw.
    eapply resume_shift_self; [exact Hsh1|exact Hg| |].
    - intros x Hx. change (queue w1) with Q in Hx.
      assert (Hnone : forall t, t ∈ tokens Q -> target t = Some q -> False).
      { intros t Ht Htq. pose proof (s_queue _ _ _ _ Hrun t q Ht Htq) as Hc.
        unfold await in Hc. by rewrite decide_True in Hc. }
      split; intros Hev.
      + apply (Hnone (TTimeout q)); [|done].
        eapply elem_of_tokens; [exact Hx|]. by rewrite Hev.
      + apply (Hnone (TInit q)); [|done].
        eapply elem_of_tokens; [exact Hx|]. by rewrite Hev.
    - intros new Hnew. change (stdout w1) with (stdout w) in Hnew.
      change (now w1) with (e_time e).
      destruct Hsh as [(new' & Hout & _ & Hat) _].
      rewrite Hout in Hnew. apply app_inv_head in Hnew as <-.
      specialize (Hat q pc Hg). rewrite HQ in Hat.
      destruct pc as [|s|]; simpl in *; [| |done].
      + injection Haw as <-. destruct Hat as [_ Hat].
        apply Hat; [by left|].
        by destruct (e_event e); simplify_eq/=.
      + injection Haw as <-. destruct Hat as [_ Hat].
        apply Hat; [by left|].
        by destruct (e_event e); simplify_eq/=. }
  destruct (e_event e) as [p|p|r|r|s f|] eqn:Hev; simpl; unfold bind.
  - specialize (Hown (TInit p) p eq_refl eq_refl).
    by destruct (_resume G p None w1) as [[[]|?] w2].
  - specialize (Hown (TTimeout p) p eq_refl eq_refl).
    by destruct (_resume G p None w1) as [[[]|?] w2].
  - specialize (Hown (TRequest r) (req_proc r) eq_refl eq_refl).
    by destruct (_resume G (req_proc r) None w1) as [[[]|?] w2].
  - pose proof (trigger_put_shift old (resource r) w1 Hsh1) as Hs2.
    by destruct (_trigger_put (resource r) w1) as [[[]|?] w2].
  - unfold gets, ret. simpl.
    change (from_option callbacks [] (procs w !! s))
      with (waiters (procs w) s).
    destruct (sync_pop_process _ _ _ _ _ s f Hs Hev) as [Hs1 Hcb].
    pose proof (s_single _ _ _ _ Hs s) as Hlen.
    destruct (waiters (procs w) s) as [|u [|u' l]] eqn:Hw;
      [|clear Hlen|simpl in Hlen; lia].
    + simpl. by destruct f.
    + simpl. unfold bind.
      destruct (Hcb u) as [Haw _]; [by left|].
      assert (Hs2 : shift_ok old (snd (_resume G u f w1))).
      { apply resume_shift_other; [done|]. intros pc Hg.
        change (gens w1) with (gens w) in Hg.
        rewrite (awaited_gens _ _ _ Hg) in Haw. by destruct pc. }
      destruct (_resume G u f w1) as [[[]|?] w2]; simpl in *; [|done].
      by destruct f.
  - done.
Qed.

Lemma run_starts_shift G nm ss h w0 w :
  run_starts G nm ss h w0 w -> shift_ok (stdout w0) w.
Proof.
  intros (w1 & Hs & _ & ->).
  pose proof (keeps_start_scenario G 0 nm ss (Environment w0)
                (booting_Environment 0 w0)) as Hb.
  rewrite Hs in Hb. simpl in Hb. destruct Hb as (_ & _ & Hq & _).
  apply start_scenario_shape in Hs as (ms & bds & Hg & Hbds & Ho & _).
  unfold schedule, modify. simpl.
  assert (Hlast : forall p pc,
            gens w1 !! p = Some (change_shift pc) ->
            p = length bds + length (PRODUCT_TYPES G) /\ pc = CS_start).
  { intros p pc. rewrite Hg. intros Hp.
    apply lookup_app_Some in Hp as [Hp|[Hge0 Hp]].
    { apply list_elem_of_lookup_2 in Hp. rewrite Forall_forall in Hbds.
      by destruct (Hbds _ Hp) as [m Hm]. }
    apply lookup_app_Some in Hp as [Hp|[Hge Hp]].
    { apply list_elem_of_lookup_2, list_elem_of_In, in_map_iff in Hp.
      by destruct Hp as (t & Ht & _). }
    rewrite length_map in Hge, Hp.
    destruct (p - length bds - length (PRODUCT_TYPES G)) as [|j] eqn:Hj;
      [|done].
    simpl in Hp. injection Hp as <-. split; [lia|done]. }
  split.
  - exists []. rewrite app_nil_r. split; [done|]. split.
    + intros i t s Hi. done.
    + intros p pc Hp. change (gens _) with (gens w1) in Hp.
      destruct (Hlast p pc Hp) as [_ ->]. simpl. split; [done|].
      intros e [->|He]%elem_of_heappush Hev; [done|].
      by destruct (Hq e He).
  - intros p q pc pc' Hp Hp'. change (gens _) with (gens w1) in Hp, Hp'.
    destruct (Hlast p pc Hp) as [-> _]. by destruct (Hlast q pc' Hp') as [-> _].
Qed.

Lemma steps_shift G old w w' :
  steps G w w' -> Sync w -> shift_ok old w -> shift_ok old w'.
Proof.
  induction 1 as [|w r w1 w2 Hstep _ IH]; [done|].
  intros Hs Hsh. pose proof (step_sync G w Hs) as Hs'.
  pose proof (step_shift G old w Hs Hsh) as Hsh'.
  rewrite Hstep in Hs', Hsh'. by apply IH.
Qed.

(** X15: the shift changes every eight hours and nothing else announces
    one: in every state of a run, the [i]-th line
    [Shift changed to ...] printed so far (counting from one) is dated
    [480 * i] minutes, and names the shift that follows ["Day"] after
    [i] changes in the cycle Day, Evening, Night. *)
Theorem shift_changes_every_eight_hours G num_machines shift_schedules
    simulation_time w0 w :
  reachable G num_machines shift_schedules simulation_time w0 w ->
  forall i t s,
    shift_lines (printed (stdout w0) w) !! i = Some (t, s) ->
    (t == inject_Z (8 * 60 * Z.of_nat (S i)))%Q /\
    s = Nat.iter (S i) next_shift "Day".
Proof.
  intros (wi & Hi & Hsteps).
  assert (Hsh : shift_ok (stdout w0) w).
  { eapply steps_shift; [exact Hsteps| |by eapply run_starts_shift].
    by destruct (run_starts_on_time G 0 num_machines shift_schedules
                   simulation_time w0 wi Hi) as (_ & Hs & _). }
  destruct Hsh as [(new & Hout & Hsched & _) _].
  unfold printed. rewrite Hout, drop_app_length. exact Hsched.
Qed.

Lemma shift_changes_every_eight_hours_witness :
  let r := run_scenario five_minutes one_each [] 500 (100 * 100)
             (Environment (at_import (constant_rng 1))) in
  shift_lines (printed [] (world_of r)) = [(480%Q, "Evening")] /\
  (480 == inject_Z (8 * 60 * 1))%Q /\ "Evening" = Nat.iter 1 next_shift "Day".
Proof.
  intros r.
  assert (Hw : reachable five_minutes one_each [] 500
                 (at_import (constant_rng 1)) (world_of r)).
  { apply (run_scenario_reachable five_minutes one_each [] 500 (100 * 100)
             (at_import (constant_rng 1)) 92%Z 499%Z (world_of r)).
    vm_compute. reflexivity. }
  split; [vm_compute; reflexivity|].
  apply (shift_changes_every_eight_hours five_minutes one_each [] 500
           (at_import (constant_rng 1)) (world_of r) Hw 0 480%Q "Evening").
  vm_compute. reflexivity.
Defined.

(** ** Requests that were granted *)

Lemma elem_of_remove_first_ne r x (l : list Req) :
  x ∈ l -> x <> r -> x ∈ list_remove_first r l.
Proof.
  induction l as [|y l IH]; simpl; [done|].
  intros [->|H]%elem_of_cons Hne.
  - rewrite decide_False by done. left.
  - destruct (decide (y = r)); [done|]. right. auto.
Qed.

Lemma length_remove_first_in r (l : list Req) :
  r ∈ l -> length l = S (length (list_remove_first r l)).
Proof.
  induction l as [|y l IH]; simpl; [by intros ?%elem_of_nil|].
  destruct (decide (y = r)) as [->|Hne]; [done|].
  intros [->|H]%elem_of_cons; [done|]. simpl. by rewrite <- IH.
Qed.

Lemma in_use_enqueue rs x k r :
  in_use rs r -> in_use (alter (enqueue x) k rs) r.
Proof.
  intros (k' & R & HR & Hr). destruct (decide (k' = k)) as [->|Hne].
  - exists k, (enqueue x R). by rewrite lookup_alter_eq, HR.
  - exists k', R. by rewrite lookup_alter_ne.
Qed.

Lemma in_use_take_out rs x k r :
  in_use rs r -> r <> x -> in_use (alter (take_out x) k rs) r.
Proof.
  intros (k' & R & HR & Hr) Hne. destruct (decide (k' = k)) as [->|Hk].
  - exists k, (take_out x R). rewrite lookup_alter_eq, HR. split; [done|].
    simpl. by apply elem_of_remove_first_ne.
  - exists k', R. by rewrite lookup_alter_ne.
Qed.

Lemma in_use_grant rs key R x waiting r :
  in_use rs r -> rs !! key = Some R ->
  in_use (<[key := grant x waiting R]> rs) r.
Proof.
  intros (k' & R' & HR' & Hr) HR. destruct (decide (k' = key)) as [->|Hk].
  - exists key, (grant x waiting R). rewrite lookup_insert_eq.
    split; [done|]. simpl. apply elem_of_app. left. congruence.
  - exists k', R'. by rewrite lookup_insert_ne.
Qed.

Lemma in_use_granted rs key R x waiting :
  in_use (<[key := grant x waiting R]> rs) x.
Proof.
  exists key, (grant x waiting R). rewrite lookup_insert_eq. split; [done|].
  simpl. apply elem_of_app. right. left.
Qed.

Lemma granted_current g r :
  granted_request g = Some r -> current_request g = Some r.
Proof. by destruct g as [? []|?? []|[]|??? []|?? []]. Qed.

Ltac in_use_chain :=
  repeat lazymatch goal with
  | |- in_use (resources _) _ => eassumption
  | |- in_use (<[_ := grant _ _ _]> _) _ =>
      eapply in_use_grant; [|eassumption]
  | |- in_use (alter (enqueue _) _ _) _ => apply in_use_enqueue
  | |- in_use (alter (take_out _) _ _) _ =>
      apply in_use_take_out; [|congruence]
  end.

Lemma resume_granted G p th w :
  Pools w -> Granted w ->
  (forall e r, e ∈ queue w -> e_event e = Request r -> req_proc r <> p) ->
  (th = None -> forall g r, gens w !! p = Some g ->
     awaits p g = Some (TRequest r) -> in_use (resources w) r) ->
  Granted (snd (_resume G p th w)).
Proof.
  intros [Hok Hown] [HQ HG] Hfree Hreq. unfold _resume.
  destruct (procs w !! p) as [P|] eqn:HP; [|done].
  destruct (finished (generator P)) eqn:Hfin; [done|].
  assert (Hg : gens w !! p = Some (generator P)).
  { unfold gens. change (map generator (procs w)) with (generator <$> procs w).
    by rewrite list_lookup_fmap, HP. }
  assert (Hlen : p < length (gens w)) by (by eapply lookup_lt_Some).
  specialize (Hown p (generator P)) as Hself.
  assert (Hothers : forall q g r, q <> p -> gens w !! q = Some g ->
            granted_request g = Some r ->
            in_use (resources w) r /\ req_proc r <> p).
  { intros q g r Hne Hq Hr. split; [eauto|].
    destruct (Hown q g r Hq (granted_current _ _ Hr)) as [Hproc _].
    congruence. }
  destruct (send G p (generator P) th w) as [r w'] eqn:H.
  destruct (generator P) as [self pc|pt ms pc|pc|nm pt ms pc|self pt pc];
    destruct pc; try discriminate Hfin; destruct th; unfold_bodies.
  all: try match goal with
           | H : context [match ?rest with [] => _ | _ :: _ => _ end] |- _ =>
               is_var rest; destruct rest
           end.
  all: exec.
  all: try (destruct (Hself _ Hg eq_refl) as [Hproc Hpool]; simpl in Hpool).
  all: try (specialize (Hreq eq_refl _ _ Hg eq_refl)).
  all: unfold Granted, gens; wsimpl;
    rewrite ?gens_with_generator, ?gens_with_callback, ?map_app; simpl;
    repeat match goal with
           | |- context [map generator (procs ?x)] =>
               change (map generator (procs x)) with (gens x)
           end.
  all: try match goal with
           | |- context [<[?q := ?g]> (gens ?x)] =>
               rewrite (insert_app_nil q g (gens x))
           end.
  all: split;
    [ intros e_ r_ He_ Hev_;
      repeat match type of He_ with
             | _ ∈ heappush _ _ => apply elem_of_heappush in He_ as [->|He_]
             end;
      [ simpl in Hev_; first [discriminate Hev_
                             | injection Hev_ as <-; apply in_use_granted ] ..
      | pose proof (HQ _ _ He_ Hev_); pose proof (Hfree _ _ He_ Hev_);
        in_use_chain ]
    | intros q_ g_ r_ Hq_ Hr_;
      destruct (decide (q_ = p)) as [->|Hne_];
      [ rewrite list_lookup_insert_eq in Hq_ by (rewrite length_app; lia);
        injection Hq_ as <-; simpl in Hr_;
        first [discriminate Hr_ | injection Hr_ as <-; in_use_chain]
      | rewrite list_lookup_insert_ne in Hq_ by done;
        apply lookup_app_Some in Hq_ as [Hq_|[_ Hq_]];
        [ destruct (Hothers _ _ _ Hne_ Hq_ Hr_); in_use_chain
        | repeat (destruct (_ - _) as [|?]; simpl in Hq_; try discriminate);
          injection Hq_ as <-; discriminate Hr_ ] ] ].
Qed.

Lemma trigger_put_granted key w :
  Granted w -> Granted (snd (_trigger_put key w)).
Proof.
  intros [HQ HG]. destruct (_trigger_put key w) as [r w'] eqn:H. simpl.
  exec; try done. unfold Granted, gens; wsimpl. split.
  - intros e x [->|He]%elem_of_heappush Hev.
    + simpl in Hev. injection Hev as <-. apply in_use_granted.
    + eapply in_use_grant; eauto.
  - intros q g x Hq Hx. eapply in_use_grant; eauto.
Qed.

Lemma step_granted G w :
  Sync w -> Pools w -> Granted w -> Granted (snd (step G w)).
Proof.
  intros Hs Hp Hgr. unfold step. destruct (queue w) as [|e Q] eqn:HQ; [done|].
  set (w1 := set_now (e_time e) (set_heap (eid w) Q w)).
  unfold Sync in Hs. rewrite HQ in Hs.
  assert (Hgr1 : Granted w1).
  { destruct Hgr as [H1 H2]. split; [|exact H2].
    intros x r Hx. apply H1. rewrite HQ. by right. }
  assert (Hrun : forall q th,
            sync_ok (await (awaited (procs w)) q None) (procs w) Q
              (resources w) ->
            (th = None -> forall r, awaited (procs w) q = Some (TRequest r) ->
               e_event e = Request r) ->
            Granted (snd (_resume G q th w1))).
  { intros q th Hrun Hreq. apply resume_granted; [exact Hp|exact Hgr1| |].
    - intros x r Hx Hev Hq. change (queue w1) with Q in Hx.
      assert (Hc : await (awaited (procs w)) q None q = Some (TRequest r)).
      { apply (s_queue _ _ _ _ Hrun); [|simpl; congruence].
        eapply elem_of_tokens; [exact Hx|]. by rewrite Hev. }
      unfold await in Hc. by rewrite decide_True in Hc.
    - intros Hth g r Hg Haw. change (gens w1) with (gens w) in Hg.
      rewrite <- (awaited_gens _ _ _ Hg) in Haw.
      destruct Hgr as [H1 _]. apply (H1 e); [rewrite HQ; left|].
      by apply Hreq. }
  assert (Hown : forall tok q,
            token_of (e_event e) = Some tok -> target tok = Some q ->
            Granted (snd (_resume G q None w1))).
  { intros tok q Htok Hq.
    destruct (sync_pop_own _ _ _ _ _ _ _ Hs Htok Hq) as [Haw Hrun'].
    apply Hrun; [exact Hrun'|]. intros _ r Hr. rewrite Hr in Haw.
    injection Haw as <-. by destruct (e_event e); simplify_eq/=. }
  destruct (e_event e) as [p|p|r|r|s f|] eqn:Hev; simpl; unfold bind.
  - specialize (Hown (TInit p) p eq_refl eq_refl).
    by destruct (_resume G p None w1) as [[[]|?] w2].
  - specialize (Hown (TTimeout p) p eq_refl eq_refl).
    by destruct (_resume G p None w1) as [[[]|?] w2].
  - specialize (Hown (TRequest r) (req_proc r) eq_refl eq_refl).
    by destruct (_resume G (req_proc r) None w1) as [[[]|?] w2].
  - pose proof (trigger_put_granted (resource r) w1 Hgr1) as Hs2.
    by destruct (_trigger_put (resource r) w1) as [[[]|?] w2].
  - unfold gets, ret. simpl.
    change (from_option callbacks [] (procs w !! s))
      with (waiters (procs w) s).
    destruct (sync_pop_process _ _ _ _ _ s f Hs Hev) as [Hs1 Hcb].
    pose proof (s_single _ _ _ _ Hs s) as Hlen.
    destruct (waiters (procs w) s) as [|u [|u' l]] eqn:Hw;
      [|clear Hlen|simpl in Hlen; lia].
    + simpl. by destruct f.
    + simpl. unfold bind.
      destruct (Hcb u) as [Haw Hrun']; [by left|].
      assert (Hs2 : Granted (snd (_resume G u f w1))).
      { apply Hrun; [exact Hrun'|]. intros _ r Hr. congruence. }
      destruct (_resume G u f w1) as [[[]|?] w2]; simpl in *; [|done].
      by destruct f.
  - done.
Qed.

Lemma granted_at_start G nm ss h w0 w :
  run_starts G nm ss h w0 w -> Granted w.
Proof.
  intros Hrun.
  destruct (run_starts_on_time G 0 nm ss h w0 w Hrun) as (_ & Hs & _).
  destruct Hrun as (w1 & Hstart & _ & ->).
  apply start_scenario_shape in Hstart as (ms & bds & Hg & Hb & _).
  assert (Hnone : forall p g r,
            gens w1 !! p = Some g -> current_request g = Some r -> False).
  { intros p g r Hp Hr. rewrite Hg in Hp. apply list_elem_of_lookup_2 in Hp.
    rewrite !elem_of_app in Hp. destruct Hp as [Hp|[Hp|Hp]].
    - rewrite Forall_forall in Hb. destruct (Hb g Hp) as [m ->]. discriminate.
    - apply list_elem_of_fmap in Hp as (t & -> & _). discriminate.
    - apply list_elem_of_singleton in Hp as ->. discriminate. }
  split.
  - intros e r He Hev. exfalso.
    destruct (awaited_Some
                (snd (schedule Until URGENT (inject_Z h - now w1) w1))
                (req_proc r) (TRequest r)) as (g & Hgq & Ha).
    { apply (s_queue _ _ _ _ Hs); [|done].
      eapply elem_of_tokens; [exact He|]. by rewrite Hev. }
    apply (Hnone (req_proc r) g r); [exact Hgq|].
    destruct g as [? []|?? []|[]|??? []|?? []]; simpl in *; congruence.
  - intros p g r Hp Hr. exfalso.
    eapply Hnone; [exact Hp|]. by apply granted_current.
Qed.

Lemma steps_granted G w w' :
  steps G w w' -> Sync w -> Pools w -> Granted w -> Granted w'.
Proof.
  induction 1 as [|w r w1 w2 Hstep Hsteps IH]; [done|].
  intros Hs Hp Hg.
  pose proof (step_sync G w Hs) as Hs'.
  pose proof (step_granted G w Hs Hp Hg) as Hg'.
  assert (Hp' : Pools w1).
  { eapply (steps_invariant G Pools); [| | | |exact Hp].
    - done.
    - intros. by apply resume_pools.
    - intros. by apply trigger_put_pools.
    - eapply steps_step; [exact Hstep|constructor]. }
  rewrite Hstep in Hs', Hg'. by apply IH.
Qed.

Lemma reachable_granted G nm ss h w0 w :
  reachable G nm ss h w0 w -> Granted w.
Proof.
  intros (wi & Hi & Hsteps).
  eapply steps_granted; [exact Hsteps| | |].
  - by destruct (run_starts_on_time G 0 nm ss h w0 wi Hi) as (_ & Hs & _).
  - eapply pools_at_start; eauto.
  - eapply granted_at_start; eauto.
Qed.

(** ** The breakdown processes of a run *)

(** A resumption leaves every generator its function and its arguments,
    and what it creates are units and stages. *)
Lemma resume_spawns G q th w X :
  procs w !! q = Some X -> finished (generator X) = false ->
  exists g' news,
    gens (snd (_resume G q th w)) = <[q := g']> (gens w ++ news) /\
    same_code (generator X) g' /\
    Forall (fun x => kind x = 3 \/ kind x = 4) news.
Proof.
  intros HP Hfin. unfold _resume. rewrite HP, Hfin.
  destruct (send G q (generator X) th w) as [r w'] eqn:H.
  destruct (generator X) as [self pc|pt ms pc|pc|nm pt ms pc|self pt pc];
    destruct pc; try discriminate Hfin; destruct th; unfold_bodies.
  all: try match goal with
           | H : context [match ?rest with [] => _ | _ :: _ => _ end] |- _ =>
               is_var rest; destruct rest
           end.
  all: exec.
  all: eexists _, _.
  all: split;
    [unfold gens; wsimpl;
     rewrite ?gens_with_generator, ?gens_with_callback, ?map_app; simpl;
     first [reflexivity | apply insert_app_nil]|].
  all: split; [by simpl|].
  all: repeat first [ apply Forall_nil_2
                    | apply Forall_cons_2;
                      [simpl; first [by left | by right]|] ].
Qed.

Lemma resume_breakdowns G nm q th w :
  breakdowns_ok G nm (gens w) ->
  breakdowns_ok G nm (gens (snd (_resume G q th w))).
Proof.
  intros [Hall Honly].
  destruct (procs w !! q) as [X|] eqn:HP;
    [|unfold _resume; by rewrite HP].
  destruct (finished (generator X)) eqn:Hfin;
    [unfold _resume; by rewrite HP, Hfin|].
  assert (Hg : gens w !! q = Some (generator X)).
  { unfold gens. change (map generator (procs w)) with (generator <$> procs w).
    by rewrite list_lookup_fmap, HP. }
  assert (Hlen : q < length (gens w)) by (by eapply lookup_lt_Some).
  destruct (resume_spawns G q th w X HP Hfin) as (g' & news & -> & Hsame & Hnews).
  split.
  - intros i k Hk. destruct (Hall i k Hk) as (self & pc & Hm & Hi).
    destruct (decide (i = q)) as [->|Hne].
    + rewrite Hg in Hi. injection Hi as Hi. rewrite Hi in Hsame.
      destruct g' as [self' pc'| | | |]; try done. simpl in Hsame. subst self'.
      exists self, pc'. split; [done|].
      apply list_lookup_insert_eq. rewrite length_app. lia.
    + exists self, pc. split; [done|].
      rewrite list_lookup_insert_ne by done.
      apply lookup_app_l_Some. exact Hi.
  - intros p self pc Hp. destruct (decide (p = q)) as [->|Hne].
    + rewrite list_lookup_insert_eq in Hp by (rewrite length_app; lia).
      injection Hp as ->.
      destruct (generator X) as [self0 pc0| | | |] eqn:HX; try done.
      eapply Honly. exact Hg.
    + rewrite list_lookup_insert_ne in Hp by done.
      apply lookup_app_Some in Hp as [Hp|[_ Hp]]; [eauto|].
      apply list_elem_of_lookup_2 in Hp. rewrite Forall_forall in Hnews.
      by destruct (Hnews _ Hp).
Qed.

Lemma Machine_init_machine G mt q w m w' :
  Machine_init G mt q w = (Ok m, w') -> machine_of G mt = Some m.
Proof.
  unfold Machine_init, machine_of. intros H. exec. reflexivity.
Qed.

Lemma build_machines_machines G nm keys w ms w' :
  build_machines G nm keys w = (Ok ms, w') ->
  dict_keys ms = keys /\
  forall k m, dict_get ms k = Some m -> machine_of G k = Some m.
Proof.
  revert w ms w'. induction keys as [|k0 keys IH]; simpl; intros w ms w'.
  - intros [= <- <-]. split; [done|]. intros k m. discriminate.
  - unfold bind at 1, subscript.
    destruct (dict_get nm k0); [|discriminate].
    unfold ret at 1, bind at 1.
    destruct (Machine_init G k0 z w) as [[m0|e] w1] eqn:HM; [|discriminate].
    apply Machine_init_machine in HM. unfold bind.
    destruct (build_machines G nm keys w1) as [[ms1|e] w2] eqn:HB;
      [|discriminate].
    apply IH in HB as [Hkeys Hms]. intros [= <- <-]. split.
    + simpl. by rewrite Hkeys.
    + intros k m. simpl. destruct (String.eqb k k0) eqn:E.
      * apply String.eqb_eq in E as ->. by intros [= <-].
      * apply Hms.
Qed.

Lemma for_each_breakdowns_of G ms keys w w' :
  (forall k m, dict_get ms k = Some m -> machine_of G k = Some m) ->
  for_each keys (fun mt =>
    do m <- subscript ms mt;
    process (generate_breakdown m GB_start);; ret tt) w = (Ok tt, w') ->
  exists bds,
    gens w' = gens w ++ bds /\
    Forall2 (fun k g => exists m,
               machine_of G k = Some m /\ g = generate_breakdown m GB_start)
      keys bds.
Proof.
  intros Hms. revert w. induction keys as [|k keys IH]; simpl; intros w.
  - intros [= <-]. exists []. by rewrite app_nil_r.
  - unfold bind at 1.
    destruct ((do m <- subscript ms k;
               process (generate_breakdown m GB_start);; ret tt) w)
      as [[[]|e] w1] eqn:H1; [|discriminate].
    intros H. apply IH in H as (bds & Hg & Hb).
    exec. unfold gens in *. wsimpl. rewrite map_app in Hg. simpl in Hg.
    eexists (_ :: bds). rewrite Hg, <- app_assoc. simpl.
    split; [done|]. constructor; [|done]. eauto.
Qed.

Lemma breakdowns_at_start G nm ss w0 w1 :
  start_scenario G nm ss (Environment w0) = (Ok tt, w1) ->
  breakdowns_ok G nm (gens w1).
Proof.
  unfold start_scenario.
  unfold bind at 1, modify at 1. unfold bind at 1, modify at 1.
  unfold bind at 1.
  destruct (build_machines _ _ _ _) as [[ms|e1] wa] eqn:HB; [|discriminate].
  pose proof (build_machines_frame _ _ _ _ _ _ HB)
    as (_ & _ & Hpa & _).
  apply build_machines_machines in HB as [Hkeys Hms].
  unfold bind at 1.
  destruct (for_each (dict_keys ms) _ wa) as [[[]|e2] wb] eqn:H1;
    [|discriminate].
  apply (for_each_breakdowns_of G) in H1 as (bds & Hgb & Hbds); [|exact Hms].
  unfold bind at 1.
  destruct (for_each_arrivals ms (PRODUCT_TYPES G) wb)
    as (wc & H2 & Hgc & _).
  rewrite H2. intros H. exec.
  unfold gens in *. wsimpl. rewrite Hpa in Hgb. simpl in Hgb.
  rewrite map_app, Hgc, Hgb. simpl. rewrite <- app_assoc.
  rewrite Hkeys in Hbds.
  assert (Hlen : length bds = length nm).
  { apply Forall2_length in Hbds. unfold dict_keys in Hbds.
    by rewrite length_map in Hbds. }
  split.
  - intros i k Hk.
    destruct (Forall2_lookup_l _ _ _ _ _ Hbds Hk) as (g & Hg & m & Hm & ->).
    exists m, GB_start. split; [done|]. by apply lookup_app_l_Some.
  - intros p self pc Hp.
    apply lookup_app_Some in Hp as [Hp|[_ Hp]].
    { apply lookup_lt_Some in Hp. lia. }
    apply list_elem_of_lookup_2 in Hp.
    rewrite elem_of_app in Hp. destruct Hp as [Hp|Hp].
    + apply list_elem_of_fmap in Hp as (t & Ht & _). discriminate.
    + by apply list_elem_of_singleton in Hp.
Qed.

Lemma reachable_breakdowns G nm ss h w0 w :
  reachable G nm ss h w0 w -> breakdowns_ok G nm (gens w).
Proof.
  intros (wi & (w1 & Hstart & _ & ->) & Hsteps).
  eapply (steps_invariant G (fun w => breakdowns_ok G nm (gens w)));
    [| | |exact Hsteps|].
  - done.
  - intros. by apply resume_breakdowns.
  - intros key w2 H2.
    destruct (trigger_put_frame key w2) as (_ & Hp & _).
    unfold gens. by rewrite Hp.
  - change (gens (snd (schedule Until URGENT (inject_Z h - now w1) w1)))
      with (gens w1).
    eapply breakdowns_at_start. exact Hstart.
Qed.

(** C9: the breakdown process of a machine never returns; it draws an
    interval of the breakdown range and sleeps for it; it then makes a
    request on the pool of its own machine, with [request], as a unit
    does: the request goes to the tail of the queue and only the head of
    the queue is served; resumed with its request, it prints, draws a
    repair duration of the repair range and sleeps for it with the pools
    as they are; resumed again, it takes its request out of the pool and
    is back at the draw of an interval.  In a run, the request it stands
    with is on the pool of its machine, is all that it holds, and is at
    most once among the users; once granted, and during the whole
    repair, the request is among the users of that pool, where it takes
    one unit of the capacity, and the resumption after the repair takes
    it out.  [run_scenario] starts one breakdown process for every
    machine type of the configuration, in the order of the
    configuration, and no process of the run is a breakdown process
    besides these. *)
Theorem breakdown_cycle p self :
  (0 <= rmin (breakdown_time self) <= rmax (breakdown_time self))%Z ->
  (0 <= rmin (repair_time self) <= rmax (repair_time self))%Z ->
  (forall G pc thrown w,
     fst (send G p (generate_breakdown self pc) thrown w)
     <> Ok StopIteration) /\
  (forall w, exists d,
     (rmin (breakdown_time self) <= d <= rmax (breakdown_time self))%Z /\
     generate_breakdown_body p self GB_start None w
     = (Ok GB_yield_interval,
        snd (schedule (Timeout p) NORMAL (inject_Z d)
               (set_rng (snd (next_draw (rng w))) w)))) /\
  (forall w,
     let r := {| req_id := next_req w; req_proc := p;
                 resource := machine_type self |} in
     generate_breakdown_body p self GB_yield_interval None w
     = (Ok (GB_yield_request r), snd (request (machine_type self) p w)) /\
     forall R, resources w !! machine_type self = Some R ->
       resources (snd (request (machine_type self) p w))
         !! machine_type self
       = Some (serve_head (enqueue r R))) /\
  (forall n pt ms mt rest st m w,
     dict_get ms mt = Some m ->
     produce_product_loop p n pt ms (mt :: rest) st w
     = (Ok (Yield (PP_yield_request rest mt
                     {| req_id := next_req w; req_proc := p;
                        resource := machine_type m |} st)),
        snd (request (machine_type m) p w))) /\
  (forall r w, exists d,
     (rmin (repair_time self) <= d <= rmax (repair_time self))%Z /\
     generate_breakdown_body p self (GB_yield_request r) None w
     = (Ok (GB_yield_repair r),
        snd (schedule (Timeout p) NORMAL (inject_Z d)
               (set_rng (snd (next_draw (rng w)))
                  (set_stdout
                     (stdout w ++ [L_breakdown (now w) (machine_type self)])
                     w)))) /\
     resources
       (snd (generate_breakdown_body p self (GB_yield_request r) None w))
     = resources w) /\
  (forall r w, exists d,
     (rmin (breakdown_time self) <= d <= rmax (breakdown_time self))%Z /\
     let w1 :=
       snd (Request_exit r
              (set_stdout
                 (stdout w ++ [L_repaired (now w) (machine_type self)]) w)) in
     generate_breakdown_body p self (GB_yield_repair r) None w
     = (Ok GB_yield_interval,
        snd (schedule (Timeout p) NORMAL (inject_Z d)
               (set_rng (snd (next_draw (rng w))) w1))) /\
     resources
       (snd (generate_breakdown_body p self (GB_yield_repair r) None w))
     = alter (take_out r) (resource r) (resources w)) /\
  (forall G nm ss h w0 w r,
     reachable G nm ss h w0 w ->
     gens w !! p = Some (generate_breakdown self (GB_yield_request r)) \/
     gens w !! p = Some (generate_breakdown self (GB_yield_repair r)) ->
     resource r = machine_type self /\ req_proc r = p /\
     (forall k r', holds w p k r' -> k = machine_type self /\ r' = r) /\
     (forall R, resources w !! machine_type self = Some R ->
        NoDup (users R))) /\
  (forall G nm ss h w0 w r e,
     reachable G nm ss h w0 w ->
     gens w !! p = Some (generate_breakdown self (GB_yield_request r)) ->
     e ∈ queue w -> e_event e = Request r ->
     exists R, resources w !! machine_type self = Some R /\ r ∈ users R) /\
  (forall G nm ss h w0 w r,
     reachable G nm ss h w0 w ->
     gens w !! p = Some (generate_breakdown self (GB_yield_repair r)) ->
     exists R,
       resources w !! machine_type self = Some R /\ r ∈ users R /\
       resources
         (snd (generate_breakdown_body p self (GB_yield_repair r) None w))
         !! machine_type self
       = Some (take_out r R) /\
       (r ∉ users (take_out r R)) /\
       length (users R) = S (length (users (take_out r R)))) /\
  (forall G nm ss h w0 w,
     reachable G nm ss h w0 w ->
     (forall i k, dict_keys nm !! i = Some k ->
        exists m pc,
          machine_of G k = Some m /\
          gens w !! i = Some (generate_breakdown m pc)) /\
     (forall q m pc, gens w !! q = Some (generate_breakdown m pc) ->
        q < length nm)).
Proof.
  intros Hb Hr.
  split; [|split; [|split; [|split; [|split; [|split; [|split; [|split; [|split]]]]]]]].
  - intros G pc thrown w. unfold send, bind.
    by destruct (generate_breakdown_body p self pc thrown w) as [[?|?] ?].
  - intros w.
    destruct (randint_in_range _ _ w (proj2 Hb)) as (d & Hd & Hdraw).
    exists d. split; [done|].
    unfold generate_breakdown_body, generate_breakdown_loop, bind.
    rewrite Hdraw, timeout_nonneg by lia. reflexivity.
  - intros w r.
    destruct (request_spec (machine_type self) p w) as (Hok & _ & Hq & _).
    split; [|exact Hq].
    unfold generate_breakdown_body, bind.
    destruct (request (machine_type self) p w) as [x w'].
    simpl in Hok. by rewrite Hok.
  - intros n pt ms mt rest st m w Hm.
    destruct (request_spec (machine_type m) p w) as (Hok & _).
    unfold produce_product_loop, bind at 1, subscript. rewrite Hm.
    unfold ret at 1, bind.
    destruct (request (machine_type m) p w) as [x w'].
    simpl in Hok. by rewrite Hok.
  - intros r w.
    set (w1 := set_stdout
                 (stdout w ++ [L_breakdown (now w) (machine_type self)]) w).
    destruct (randint_in_range _ _ w1 (proj2 Hr)) as (d & Hd & Hdraw).
    exists d.
    assert (Heq : generate_breakdown_body p self (GB_yield_request r) None w
      = (Ok (GB_yield_repair r),
         snd (schedule (Timeout p) NORMAL (inject_Z d)
                (set_rng (snd (next_draw (rng w))) w1)))).
    { unfold generate_breakdown_body, on_exception, bind at 1, gets.
      unfold bind at 1, print, modify. fold w1. unfold bind at 1.
      rewrite Hdraw. unfold bind.
      rewrite timeout_nonneg by lia. reflexivity. }
    split; [done|]. split; [exact Heq|]. by rewrite Heq.
  - intros r w.
    set (w1 := snd (Request_exit r
                 (set_stdout
                    (stdout w ++ [L_repaired (now w) (machine_type self)])
                    w))).
    destruct (randint_in_range _ _ w1 (proj2 Hb)) as (d & Hd & Hdraw).
    exists d.
    assert (Heq : generate_breakdown_body p self (GB_yield_repair r) None w
      = (Ok GB_yield_interval,
         snd (schedule (Timeout p) NORMAL (inject_Z d)
                (set_rng (snd (next_draw (rng w))) w1)))).
    { unfold generate_breakdown_body, bind at 1, gets.
      unfold bind at 1, print, modify. unfold bind at 1.
      change (Request_exit r
                (set_stdout
                   (stdout w ++ [L_repaired (now w) (machine_type self)]) w))
        with (Ok tt, w1).
      unfold generate_breakdown_loop, bind.
      rewrite Hdraw, timeout_nonneg by lia. reflexivity. }
    split; [done|]. split; [exact Heq|]. by rewrite Heq.
  - intros G nm ss h w0 w r Hw Hp. eapply breakdown_request_in_run; eauto.
  - intros G nm ss h w0 w r e Hw Hp He Hev.
    destruct (breakdown_request_in_run G nm ss h w0 w p self r Hw)
      as (Hres & _); [by left|].
    destruct (reachable_granted _ _ _ _ _ _ Hw) as [HQ _].
    destruct (HQ e r He Hev) as (k & R & HR & Hr').
    destruct (reachable_pools _ _ _ _ _ _ Hw) as [[_ Hok] _].
    destruct (Hok k r) as (Hk & _).
    { exists R. split; [done|]. apply elem_of_app. by left. }
    exists R. split; [congruence|done].
  - intros G nm ss h w0 w r Hw Hp.
    destruct (breakdown_request_in_run G nm ss h w0 w p self r Hw)
      as (Hres & _ & _ & Hnd); [by right|].
    destruct (reachable_granted _ _ _ _ _ _ Hw) as [_ HG].
    destruct (HG p _ r Hp eq_refl) as (k & R & HR & Hr').
    destruct (reachable_pools _ _ _ _ _ _ Hw) as [[_ Hok] _].
    destruct (Hok k r) as (Hk & _).
    { exists R. split; [done|]. apply elem_of_app. by left. }
    assert (HR' : resources w !! machine_type self = Some R) by congruence.
    exists R. split; [done|]. split; [done|].
    assert (Hafter :
      resources
        (snd (generate_breakdown_body p self (GB_yield_repair r) None w))
      = alter (take_out r) (resource r) (resources w)).
    { destruct (randint_in_range _ _
                  (snd (Request_exit r
                          (set_stdout
                             (stdout w
                              ++ [L_repaired (now w) (machine_type self)])
                             w))) (proj2 Hb)) as (d & Hd & Hdraw).
      unfold generate_breakdown_body, bind at 1, gets.
      unfold bind at 1, print, modify. unfold bind at 1.
      match goal with
      | |- context [Request_exit r ?x] =>
          change (Request_exit r x) with (Ok tt, snd (Request_exit r x))
      end.
      cbv iota beta.
      unfold generate_breakdown_loop, bind.
      rewrite Hdraw, timeout_nonneg by lia. reflexivity. }
    rewrite Hafter, Hres, lookup_alter_eq, HR'. simpl.
    split; [done|]. split.
    + apply NoDup_remove_first. eauto.
    + by apply length_remove_first_in.
  - intros G nm ss h w0 w Hw. exact (reachable_breakdowns _ _ _ _ _ _ Hw).
Qed.

Lemma breakdown_cycle_witness :
  let self := {| machine_type := "Packaging";
                 breakdown_time := Range 21 21;
                 repair_time := Range 1 1 |} in
  let r := {| req_id := 29; req_proc := 3; resource := "Packaging" |} in
  let w := world_of (run_scenario five_minutes one_each [] 22 (20 * 20)
                       (Environment (at_import (constant_rng 1)))) in
  gens w !! 3 = Some (generate_breakdown self (GB_yield_repair r)) /\
  exists R,
    resources w !! "Packaging" = Some R /\ r ∈ users R /\
    resources
      (snd (generate_breakdown_body 3 self (GB_yield_repair r) None w))
      !! "Packaging"
    = Some (take_out r R) /\
    (r ∉ users (take_out r R)) /\
    length (users R) = S (length (users (take_out r R))).
Proof.
  intros self r w.
  assert (Hw : reachable five_minutes one_each [] 22
                 (at_import (constant_rng 1)) w).
  { apply (run_scenario_reachable five_minutes one_each [] 22 (20 * 20)
             (at_import (constant_rng 1)) 1%Z 21%Z w).
    vm_compute. reflexivity. }
  assert (Hp : gens w !! 3 = Some (generate_breakdown self (GB_yield_repair r)))
    by (vm_compute; reflexivity).
  split; [exact Hp|].
  refine (proj1 (proj2 (proj2 (proj2 (proj2 (proj2 (proj2 (proj2 (proj2
            (breakdown_cycle 3 self _ _)))))))))
            five_minutes one_each [] 22%Z (at_import (constant_rng 1)) w r
            Hw Hp); simpl; lia.
Defined.
